(** * Clinova: OMOP concept lookup (backend/omop_lookup)

    A shallow embedding of the hybrid concept-resolution search engine:
    [normalize.py], [config.py], [models.py], [database.py], [search.py] and
    the entry points of [__init__.py].

    Conventions of the embedding.
    - A Python [str] is a list of Unicode code points ([text]).
    - A Python [float] is a rational number ([Q]): scores are compared and
      multiplied exactly, rounding is outside the model.
    - The Unicode character database used by [unicodedata] and [str.lower],
      the RapidFuzz scorer and the embedding model with its FAISS index are
      libraries outside the repository: they are parameters.
    - Wall-clock fields ([search_time_ms], [total_time_ms]) are left out. *)

From Stdlib Require Import List ZArith NArith QArith Qminmax Bool String Ascii Lia.
Import ListNotations.

Set Implicit Arguments.

(** ** Text *)

Definition codepoint := N.
Definition text := list codepoint.

Definition str (s : string) : text :=
  map N_of_ascii (list_ascii_of_string s).

Fixpoint text_eqb (a b : text) : bool :=
  match a, b with
  | [], [] => true
  | x :: a', y :: b' => N.eqb x y && text_eqb a' b'
  | _, _ => false
  end.

Definition SPACE : codepoint := 32%N.
Definition UNDERSCORE : codepoint := 95%N.
Definition CAPITAL_SIGMA : codepoint := 931%N.
Definition SMALL_SIGMA : codepoint := 963%N.
Definition SMALL_FINAL_SIGMA : codepoint := 962%N.

(** The part of the Unicode character database that [normalize_text]
    consults through [unicodedata.normalize], [unicodedata.combining],
    [str.lower], [re] and [str.split]. *)
Record UnicodeData := {
  decomposition : codepoint -> text;      (* full compatibility decomposition *)
  combining : codepoint -> N;             (* canonical combining class *)
  to_lower_full : codepoint -> text;      (* full lowercase mapping *)
  is_cased : codepoint -> bool;
  is_case_ignorable : codepoint -> bool;
  is_alnum : codepoint -> bool;           (* str.isalnum on one character *)
  is_space : codepoint -> bool            (* str.isspace on one character *)
}.

Module Normalize.

Section WithUnicode.

Variable U : UnicodeData.

(** [unicodedata.normalize("NFKD", text)]: decompose every character, then
    put runs of combining marks in canonical order. *)
Fixpoint reorder_insert (c : codepoint) (rev_prefix : text) : text :=
  match rev_prefix with
  | [] => [c]
  | p :: r =>
      if (0 <? combining U c)%N && (combining U c <? combining U p)%N
      then p :: reorder_insert c r
      else c :: p :: r
  end.

Definition canonical_order (s : text) : text :=
  rev (fold_left (fun acc c => reorder_insert c acc) s []).

Definition nfkd (s : text) : text :=
  canonical_order (flat_map (decomposition U) s).

(** [str.lower]: the full lowercase mapping of every character, except that
    a capital sigma becomes a final or a non-final small sigma by context. *)
Definition first_not_ignorable (s : text) : option codepoint :=
  find (fun c => negb (is_case_ignorable U c)) s.

Definition final_sigma (before_rev after : text) : bool :=
  match first_not_ignorable before_rev with
  | None => false
  | Some c =>
      is_cased U c &&
      match first_not_ignorable after with
      | None => true
      | Some d => negb (is_cased U d)
      end
  end.

Fixpoint lower_from (before_rev s : text) : text :=
  match s with
  | [] => []
  | c :: rest =>
      (if (c =? CAPITAL_SIGMA)%N
       then [if final_sigma before_rev rest
             then SMALL_FINAL_SIGMA else SMALL_SIGMA]
       else to_lower_full U c)
      ++ lower_from (c :: before_rev) rest
  end.

Definition lower (s : text) : text := lower_from [] s.

(** The regular-expression class [\w]. *)
Definition is_word (c : codepoint) : bool :=
  is_alnum U c || (c =? UNDERSCORE)%N.

(** [re.sub(r"[^\w\s]", " ", text)] *)
Definition sub_punctuation (s : text) : text :=
  map (fun c => if is_word c || is_space U c then c else SPACE) s.

(** [text.split()]: the maximal runs of non-whitespace characters.  The
    auxiliary function returns the run at the head of the text and the
    runs after it. *)
Fixpoint split_aux (s : text) : text * list text :=
  match s with
  | [] => ([], [])
  | c :: rest =>
      let (w, ws) := split_aux rest in
      if is_space U c
      then ([], match w with [] => ws | _ => w :: ws end)
      else (c :: w, ws)
  end.

Definition split (s : text) : list text :=
  let (w, ws) := split_aux s in
  match w with [] => ws | _ => w :: ws end.

(** [sep.join(parts)] *)
Fixpoint join (sep : text) (parts : list text) : text :=
  match parts with
  | [] => []
  | [w] => w
  | w :: ws => w ++ sep ++ join sep ws
  end.

(** [str.strip()] *)
Fixpoint lstrip (s : text) : text :=
  match s with
  | [] => []
  | c :: rest => if is_space U c then lstrip rest else s
  end.

Definition strip (s : text) : text := rev (lstrip (rev (lstrip s))).

(** normalize.py, [normalize_text] *)
Definition normalize_text (t : text) : text :=
  match t with
  | [] => []
  | _ =>
      let t := nfkd t in
      let t := lower t in
      let t := filter (fun c => (combining U c =? 0)%N) t in
      let t := sub_punctuation t in
      join [SPACE] (split t)
  end.

(** normalize.py, [tokenize] *)
Definition tokenize (t : text) : list text := split t.

End WithUnicode.

End Normalize.

(** The Unicode tables restricted to U+0000..U+007F; code points above are
    left alone (no decomposition, no case, neither word nor space). *)
Definition ascii_upper (c : codepoint) : bool := ((65 <=? c) && (c <=? 90))%N.
Definition ascii_lower (c : codepoint) : bool := ((97 <=? c) && (c <=? 122))%N.
Definition ascii_digit (c : codepoint) : bool := ((48 <=? c) && (c <=? 57))%N.

Definition ascii_unicode : UnicodeData := {|
  decomposition := fun c => [c];
  combining := fun _ => 0%N;
  to_lower_full := fun c => if ascii_upper c then [(c + 32)%N] else [c];
  is_cased := fun c => ascii_upper c || ascii_lower c;
  is_case_ignorable := fun c =>
    existsb (N.eqb c) [39; 46; 58; 94; 96]%N;
  is_alnum := fun c => ascii_digit c || ascii_upper c || ascii_lower c;
  is_space := fun c =>
    ((9 <=? c) && (c <=? 13)) || ((28 <=? c) && (c <=? 32))
|}%N.

(** ** Scores and Python built-ins *)

Definition Qltb (a b : Q) : bool := negb (Qle_bool b a).

(** [max(a, b, c)]: the first of the largest arguments. *)
Definition py_max3 (a b c : Q) : Q :=
  let m := if Qltb a b then b else a in
  if Qltb m c then c else m.

(** [min(a, b)]: the first of the smallest arguments. *)
Definition py_min (a b : Q) : Q := if Qltb b a then b else a.

(** [l[:k]] and [l[1:k]] for a Python integer [k] (a negative bound counts
    from the end). *)
Definition slice_to {A} (l : list A) (k : Z) : list A :=
  if (0 <=? k)%Z then firstn (Z.to_nat k) l
  else firstn (Z.to_nat (Z.of_nat (List.length l) + k)) l.

Definition slice_1_to {A} (l : list A) (k : Z) : list A :=
  skipn 1 (slice_to l k).

(** [sorted(l, key=key, reverse=True)] and [l.sort(key=key, reverse=True)]:
    descending, elements with equal keys keep their order. *)
Fixpoint insert_desc {A} (key : A -> Q) (x : A) (l : list A) : list A :=
  match l with
  | [] => [x]
  | y :: l' =>
      if Qltb (key x) (key y) then y :: insert_desc key x l'
      else x :: y :: l'
  end.

Fixpoint sort_desc {A} (key : A -> Q) (l : list A) : list A :=
  match l with
  | [] => []
  | x :: l' => insert_desc key x (sort_desc key l')
  end.

(** [d.get(k)] on a dictionary with text keys. *)
Fixpoint dict_get {V} (d : list (text * V)) (k : text) : option V :=
  match d with
  | [] => None
  | (k', v) :: d' => if text_eqb k' k then Some v else dict_get d' k
  end.

(** A Python optional argument: [None] takes the declared default. *)
Definition with_default {A} (d : A) (o : option A) : A :=
  match o with Some a => a | None => d end.

(** Truth value of an [Optional[str]]: [None] and the empty string are
    false. *)
Definition truthy (o : option text) : bool :=
  match o with
  | Some (_ :: _) => true
  | _ => false
  end.

(** ** config.py *)

Module Config.

Record LookupConfig := {
  fuzzy_high_confidence : Q;
  fuzzy_min_threshold : Q;
  semantic_high_confidence : Q;
  semantic_min_threshold : Q;
  confidence_threshold : Q;
  top_k_candidates : Z;
  vocabulary_preferences : list (text * list (text * Q));
  default_vocab_weight : Q;
  max_fuzzy_candidates : Z
}.

Definition DEFAULT_CONFIG : LookupConfig := {|
  fuzzy_high_confidence := 95;
  fuzzy_min_threshold := 70;
  semantic_high_confidence := 85 # 100;
  semantic_min_threshold := 60 # 100;
  confidence_threshold := 75 # 100;
  top_k_candidates := 5;
  vocabulary_preferences :=
    [ (str "Condition",
        [ (str "SNOMED", 1); (str "ICD10CM", 8 # 10);
          (str "ICD9CM", 6 # 10); (str "MedDRA", 7 # 10) ]);
      (str "Procedure",
        [ (str "SNOMED", 1); (str "CPT4", 95 # 100);
          (str "HCPCS", 85 # 100); (str "ICD10PCS", 8 # 10);
          (str "ICD9Proc", 6 # 10) ]);
      (str "Drug",
        [ (str "RxNorm", 1); (str "RxNorm Extension", 95 # 100);
          (str "NDC", 7 # 10); (str "ATC", 6 # 10) ]);
      (str "Measurement", [ (str "LOINC", 1); (str "SNOMED", 8 # 10) ]);
      (str "Observation", [ (str "SNOMED", 1); (str "LOINC", 9 # 10) ]);
      (str "Device", [ (str "SNOMED", 1); (str "HCPCS", 8 # 10) ]);
      (str "Specimen", [ (str "SNOMED", 1) ]);
      (str "default",
        [ (str "SNOMED", 1); (str "RxNorm", 9 # 10);
          (str "LOINC", 9 # 10) ]) ];
  default_vocab_weight := 5 # 10;
  max_fuzzy_candidates := 1000
|}.

End Config.

(** ** models.py *)

Module Models.

Inductive MatchType :=
| EXACT_NAME
| EXACT_SYNONYM
| FUZZY_NAME
| FUZZY_SYNONYM
| SEMANTIC.

Inductive ResolutionStatus :=
| ALREADY_STANDARD
| MAPPED_TO_STANDARD
| NO_MAPPING_AVAILABLE.

Record ConceptMatch := {
  concept_id : Z;
  concept_name : text;
  domain_id : text;
  vocabulary_id : text;
  concept_class_id : text;
  standard_concept : option text;
  confidence : Q;
  match_type : MatchType;
  matched_text : text;
  resolution_status : ResolutionStatus;
  standard_concept_id : option Z;
  standard_concept_name : option text;
  concept_code : option text
}.

Definition is_usable_for_analytics (m : ConceptMatch) : bool :=
  match resolution_status m with
  | ALREADY_STANDARD | MAPPED_TO_STANDARD => true
  | NO_MAPPING_AVAILABLE => false
  end.

Definition get_analytics_concept_id (m : ConceptMatch) : option Z :=
  match resolution_status m with
  | ALREADY_STANDARD => Some (concept_id m)
  | MAPPED_TO_STANDARD => standard_concept_id m
  | NO_MAPPING_AVAILABLE => None
  end.

Record LookupResult := {
  query : text;
  normalized_query : text;
  domain_filter : option text;
  success : bool;
  best_match : option ConceptMatch;
  candidates : list ConceptMatch;
  warnings : list text
}.

Record BatchLookupResult := {
  results : list LookupResult;
  total_queries : Z;
  successful_queries : Z
}.

End Models.

(** ** database.py *)

Module Database.

Inductive SourceType := name | synonym.

(** The columns of a concept that every query result carries. *)
Record ConceptInfo := {
  concept_id : Z;
  concept_name : text;
  domain_id : text;
  vocabulary_id : text;
  concept_class_id : text;
  standard_concept : option text;     (* 'S', 'C' or NULL *)
  concept_code : option text
}.

(** Table [concept]. *)
Record Concept := {
  info : ConceptInfo;
  invalid_reason : option text
}.

(** Table [concept_relationship]. *)
Record Relationship := {
  concept_id_1 : Z;
  concept_id_2 : Z;
  relationship_id : text;
  rel_invalid_reason : option text
}.

(** Table [maps_to_lookup]. *)
Record MapsTo := {
  source_concept_id : Z;
  standard_concept_id : Z;
  standard_concept_name : text;
  standard_domain_id : text;
  standard_vocabulary_id : text
}.

(** Table [concept_search]: one row per name and per synonym, with a copy
    of the parent concept's columns. *)
Record SearchEntry := {
  parent : ConceptInfo;
  search_text : text;
  source_type : SourceType;
  search_text_normalized : text
}.

(** The dictionaries that the queries return.  [exact_match] and
    [get_candidates_by_token_overlap] return search rows; [get_concept_by_id]
    returns a concept row, which has no [search_text], [source_type] or
    [search_text_normalized] key. *)
Record ConceptData := {
  data : ConceptInfo;
  data_search_text : option text;
  data_source_type : option SourceType;
  data_search_text_normalized : option text
}.

Record OMOPDatabase := {
  concept : list Concept;
  concept_relationship : list Relationship;
  maps_to_lookup : list MapsTo;
  concept_search : list SearchEntry
}.

Definition is_S (flag : option text) : bool :=
  match flag with
  | Some t => text_eqb t (str "S")
  | None => false
  end.

Definition is_null {A} (o : option A) : bool :=
  match o with None => true | Some _ => false end.

Definition MapsTo_eqb (a b : MapsTo) : bool :=
  Z.eqb (source_concept_id a) (source_concept_id b)
  && Z.eqb (standard_concept_id a) (standard_concept_id b)
  && text_eqb (standard_concept_name a) (standard_concept_name b)
  && text_eqb (standard_domain_id a) (standard_domain_id b)
  && text_eqb (standard_vocabulary_id a) (standard_vocabulary_id b).

(** [SELECT DISTINCT]: the first occurrence of every row. *)
Fixpoint distinct (seen rows : list MapsTo) : list MapsTo :=
  match rows with
  | [] => []
  | r :: rows' =>
      if existsb (MapsTo_eqb r) seen then distinct seen rows'
      else r :: distinct (r :: seen) rows'
  end.

(** [_create_maps_to_lookup]: the "Maps to" relationships that are valid and
    whose target is a valid standard concept. *)
Definition _create_maps_to_lookup
    (concepts : list Concept) (relationships : list Relationship)
    : list MapsTo :=
  distinct []
    (flat_map
       (fun cr =>
          flat_map
            (fun target =>
               if Z.eqb (concept_id_2 cr) (concept_id (info target))
                  && text_eqb (relationship_id cr) (str "Maps to")
                  && is_null (rel_invalid_reason cr)
                  && is_S (standard_concept (info target))
                  && is_null (invalid_reason target)
               then [ {| source_concept_id := concept_id_1 cr;
                         standard_concept_id := concept_id (info target);
                         standard_concept_name := concept_name (info target);
                         standard_domain_id := domain_id (info target);
                         standard_vocabulary_id :=
                           vocabulary_id (info target) |} ]
               else [])
            concepts)
       relationships).

(** [LIMIT n]: the first [n] rows.  The engine rejects a statement with a
    negative limit; a limit beyond its 64-bit integers is left to the
    engine.  Both give [None]. *)
Definition MAX_BIGINT : Z := 9223372036854775807.

Definition sql_limit {A} (n : Z) (rows : list A) : option (list A) :=
  if ((n <? 0) || (MAX_BIGINT <? n))%Z then None
  else Some (firstn (Z.to_nat n) rows).

(** The optional [AND domain_id = ...] clause. *)
Definition domain_clause (domain_filter : option text) (e : SearchEntry)
    : bool :=
  if truthy domain_filter
  then match domain_filter with
       | Some d => text_eqb (domain_id (parent e)) d
       | None => true
       end
  else true.

(** [exact_match]: equality on the stored normalized text, with the domain
    filter passed as a bound parameter; the limit is written into the
    statement. *)
Definition exact_match
    (db : OMOPDatabase) (normalized_query : text)
    (domain_filter : option text) (limit : Z) : option (list ConceptData) :=
  option_map
    (map (fun e => {| data := parent e;
                      data_search_text := Some (search_text e);
                      data_source_type := Some (source_type e);
                      data_search_text_normalized := None |}))
    (sql_limit limit
       (filter (fun e => text_eqb (search_text_normalized e) normalized_query
                         && domain_clause domain_filter e)
          (concept_search db))).

(** SQL [LIKE]: [%] stands for any text, [_] for any character. *)
Definition PERCENT : codepoint := 37%N.
Definition QUOTE : codepoint := 39%N.

Fixpoint like (pattern : text) : text -> bool :=
  match pattern with
  | [] => fun s => match s with [] => true | _ => false end
  | c :: p' =>
      if (c =? PERCENT)%N then
        fix any (s : text) : bool :=
          like p' s || match s with [] => false | _ :: s' => any s' end
      else if (c =? UNDERSCORE)%N then
        fun s => match s with [] => false | _ :: s' => like p' s' end
      else
        fun s => match s with
                 | [] => false
                 | x :: s' => (x =? c)%N && like p' s'
                 end
  end.

(** A text written between single quotes in a statement is one literal
    when it holds no quote character. *)
Definition sql_literal_safe (t : text) : bool :=
  forallb (fun c => negb (c =? QUOTE)%N) t.

(** [get_candidates_by_token_overlap].  The statement is assembled by
    writing every token (as ['%token%']) and the domain filter between
    single quotes.  When one of these texts holds a quote character the
    statement that reaches the engine is not the one intended; the embedding
    gives no result ([None]) for such arguments.  The limit is written
    into the statement as well. *)
Definition get_candidates_by_token_overlap
    (db : OMOPDatabase) (tokens : list text) (domain_filter : option text)
    (min_overlap limit : Z) : option (list ConceptData) :=
  match tokens with
  | [] => Some []
  | _ =>
      if forallb sql_literal_safe tokens
         && (if truthy domain_filter
             then match domain_filter with
                  | Some d => sql_literal_safe d
                  | None => true
                  end
             else true)
      then
        option_map
          (map (fun e =>
                  {| data := parent e;
                     data_search_text := Some (search_text e);
                     data_source_type := Some (source_type e);
                     data_search_text_normalized :=
                       Some (search_text_normalized e) |}))
          (sql_limit limit
             (filter
                (fun e =>
                   existsb
                     (fun token =>
                        like (PERCENT :: token ++ [PERCENT])
                          (search_text_normalized e))
                     tokens
                   && domain_clause domain_filter e)
                (concept_search db)))
      else None
  end.

(** [get_maps_to]: the first mapping of the concept, if any. *)
Definition get_maps_to (db : OMOPDatabase) (id : Z) : option MapsTo :=
  find (fun r => Z.eqb (source_concept_id r) id) (maps_to_lookup db).

(** [get_concept_by_id] *)
Definition get_concept_by_id (db : OMOPDatabase) (id : Z)
    : option ConceptData :=
  match find (fun c => Z.eqb (concept_id (info c)) id) (concept db) with
  | Some c => Some {| data := info c;
                      data_search_text := None;
                      data_source_type := None;
                      data_search_text_normalized := None |}
  | None => None
  end.

End Database.

(** ** Libraries outside the repository *)

(** A call that returns or raises an exception with a message. *)
Inductive outcome (A : Type) :=
| Returned (a : A)
| Raised (message : text).

Arguments Returned {A} a.
Arguments Raised {A} message.

(** embeddings.py, [SemanticSearch], seen from search.py: whether the model
    and the index are usable, and the nearest concepts of a query with their
    similarities. *)
Record SemanticSearch := {
  is_available : bool;
  nearest : text -> Z -> outcome (list (Z * Q))
}.

Record Platform := {
  unicode : UnicodeData;
  (* rapidfuzz.fuzz.WRatio *)
  WRatio : text -> text -> Q;
  (* rapidfuzz.process.extract: whether a choice with this score is kept
     under this score_cutoff (first argument) *)
  reaches_cutoff : Q -> Q -> bool;
  (* the result of importing .embeddings; None: ImportError *)
  embeddings : option SemanticSearch;
  (* the formats {:.2f} and {} of a float *)
  format_2f : Q -> text;
  format_float : Q -> text
}.

(** ** search.py *)

Module Search.

Import Config Database.

Record ConceptSearcher := {
  config : LookupConfig;
  db : OMOPDatabase;
  enable_semantic : bool;
  _semantic_search : option SemanticSearch
}.

(** An element of the fuzzy and of the semantic result lists. *)
Record Scored := {
  concept : ConceptData;
  score : Q;
  matched_text : text
}.

(** A value of the dictionary [candidates_by_id]. *)
Record Candidate := {
  cand_concept : ConceptData;
  fuzzy_score : Q;
  semantic_score : Q;
  match_type : Models.MatchType
}.

(** [candidates_by_id[k] = v] on a dictionary in insertion order. *)
Fixpoint dict_set (d : list (Z * Candidate)) (k : Z) (v : Candidate)
    : list (Z * Candidate) :=
  match d with
  | [] => [(k, v)]
  | (k', v') :: d' =>
      if Z.eqb k' k then (k', v) :: d' else (k', v') :: dict_set d' k v
  end.

Fixpoint dict_lookup (d : list (Z * Candidate)) (k : Z) : option Candidate :=
  match d with
  | [] => None
  | (k', v') :: d' => if Z.eqb k' k then Some v' else dict_lookup d' k
  end.

Fixpoint enumerate_from {A} (i : nat) (l : list A) : list (nat * A) :=
  match l with
  | [] => []
  | x :: l' => (i, x) :: enumerate_from (S i) l'
  end.

Definition is_name (t : option SourceType) : bool :=
  match t with Some name => true | _ => false end.

Section WithPlatform.

Variable P : Platform.

(** [ConceptSearcher(config, db, enable_semantic)] *)
Definition new_searcher (cfg : LookupConfig) (d : OMOPDatabase)
    (enable : bool) : ConceptSearcher :=
  {| config := cfg; db := d; enable_semantic := enable;
     _semantic_search := None |}.

Definition _get_semantic_search (self : ConceptSearcher)
    : option SemanticSearch * ConceptSearcher :=
  match _semantic_search self with
  | None =>
      if enable_semantic self then
        match embeddings P with
        | Some sem =>
            (Some sem,
             {| config := config self; db := db self;
                enable_semantic := enable_semantic self;
                _semantic_search := Some sem |})
        | None =>
            (None,
             {| config := config self; db := db self;
                enable_semantic := false;
                _semantic_search := None |})
        end
      else (None, self)
  | Some sem => (Some sem, self)
  end.

(** [_exact_match]: [exact_match] with the limit 10, which the engine
    accepts. *)
Definition _exact_match (self : ConceptSearcher) (normalized_query : text)
    (domain_filter : option text) : list ConceptData :=
  match exact_match (db self) normalized_query domain_filter 10 with
  | Some rows => rows
  | None => []
  end.

(** [rapidfuzz.process.extract(query, choices, scorer=WRatio, limit=...,
    score_cutoff=...)]: the choices that the library keeps under the cutoff,
    with their score and index, best first, at most [limit] of them. *)
Definition extract (query : text) (choices : list text) (limit : Z)
    (score_cutoff : Q) : list (text * Q * nat) :=
  firstn (Z.to_nat limit)
    (sort_desc (fun r => snd (fst r))
       (filter (fun r => reaches_cutoff P score_cutoff (snd (fst r)))
          (map (fun ic => (snd ic, WRatio P query (snd ic), fst ic))
             (enumerate_from 0 choices)))).

Definition candidate_text (c : ConceptData) : text :=
  match data_search_text_normalized c with
  | Some (x :: t) => x :: t
  | _ => with_default [] (data_search_text c)
  end.

Definition _fuzzy_match (self : ConceptSearcher) (normalized_query : text)
    (tokens : list text) (domain_filter : option text)
    : option (list Scored) :=
  match get_candidates_by_token_overlap (db self) tokens domain_filter 1
          (max_fuzzy_candidates (config self)) with
  | None => None
  | Some [] => Some []
  | Some candidates =>
      let candidate_texts := map candidate_text candidates in
      let matches :=
        extract normalized_query candidate_texts
          (Z.min 50 (Z.of_nat (List.length candidates)))
          (fuzzy_min_threshold (config self)) in
      let results :=
        flat_map
          (fun m =>
             match nth_error candidates (snd m) with
             | Some c => [ {| concept := c; score := snd (fst m);
                              matched_text := fst (fst m) |} ]
             | None => []
             end)
          matches in
      Some (sort_desc score results)
  end.

Definition _semantic_match (self : ConceptSearcher) (query : text)
    (domain_filter : option text) (top_k : Z)
    : outcome (list Scored) * ConceptSearcher :=
  let (semantic_search, self) := _get_semantic_search self in
  match semantic_search with
  | None => (Returned [], self)
  | Some sem =>
      match nearest sem query top_k with
      | Raised e => (Raised e, self)
      | Returned results =>
          (Returned
             (flat_map
                (fun r =>
                   match get_concept_by_id (db self) (fst r) with
                   | Some c =>
                       if truthy domain_filter
                          && negb (text_eqb (domain_id (data c))
                                     (with_default [] domain_filter))
                       then []
                       else [ {| concept := c; score := snd r;
                                 matched_text := concept_name (data c) |} ]
                   | None => []
                   end)
                results),
           self)
      end
  end.

Definition _get_vocab_weight (self : ConceptSearcher)
    (vocabulary domain : text) : Q :=
  let prefs :=
    match dict_get (vocabulary_preferences (config self)) domain with
    | Some p => p
    | None =>
        with_default []
          (dict_get (vocabulary_preferences (config self)) (str "default"))
    end in
  with_default (default_vocab_weight (config self)) (dict_get prefs vocabulary).

Definition fuzzy_candidate (r : Scored) : Candidate :=
  {| cand_concept := concept r;
     fuzzy_score := score r / 100;
     semantic_score := 0;
     match_type :=
       if is_name (data_source_type (concept r))
       then Models.FUZZY_NAME else Models.FUZZY_SYNONYM |}.

Definition add_semantic (d : list (Z * Candidate)) (r : Scored)
    : list (Z * Candidate) :=
  let id := concept_id (data (concept r)) in
  match dict_lookup d id with
  | Some c =>
      dict_set d id
        {| cand_concept := cand_concept c; fuzzy_score := fuzzy_score c;
           semantic_score := score r; match_type := match_type c |}
  | None =>
      dict_set d id
        {| cand_concept := concept r; fuzzy_score := 0;
           semantic_score := score r; match_type := Models.SEMANTIC |}
  end.

Definition base_score (c : Candidate) : Q :=
  py_max3 (fuzzy_score c * (7 # 10) + semantic_score c * (3 # 10))
          (fuzzy_score c) (semantic_score c).

Definition source_boost (c : Candidate) : Q :=
  if is_name (data_source_type (cand_concept c)) then 1 else 98 # 100.

Definition standard_boost (c : Candidate) : Q :=
  if is_S (standard_concept (data (cand_concept c))) then 1 else 95 # 100.

Definition combined_score (self : ConceptSearcher) (c : Candidate) : Q :=
  base_score c
  * _get_vocab_weight self (vocabulary_id (data (cand_concept c)))
      (domain_id (data (cand_concept c)))
  * source_boost c
  * standard_boost c.

(** The dictionary [candidates_by_id] after both loops. *)
Definition merge (fuzzy_results semantic_results : list Scored)
    : list (Z * Candidate) :=
  fold_left add_semantic semantic_results
    (fold_left
       (fun d r =>
          dict_set d (concept_id (data (concept r))) (fuzzy_candidate r))
       fuzzy_results []).

Definition _merge_and_rank (self : ConceptSearcher)
    (fuzzy_results semantic_results : list Scored)
    (domain_filter : option text) (top_k : Z) : list (Candidate * Q) :=
  let candidates_by_id := merge fuzzy_results semantic_results in
  let scored :=
    map (fun kv => (snd kv, combined_score self (snd kv))) candidates_by_id in
  let ranked := sort_desc snd scored in
  slice_to ranked (top_k * 2).

Definition _select_best_match (self : ConceptSearcher)
    (matches : list ConceptData) (domain_filter : option text)
    : option ConceptData :=
  match matches with
  | [m] => Some m
  | _ =>
      let scored :=
        map (fun m =>
               let weight :=
                 _get_vocab_weight self (vocabulary_id (data m))
                   (domain_id (data m)) in
               let weight :=
                 if is_S (standard_concept (data m))
                 then weight * (105 # 100) else weight in
               let weight :=
                 if is_name (data_source_type m)
                 then weight * (102 # 100) else weight in
               (weight, m))
          matches in
      match sort_desc fst scored with
      | [] => None
      | first :: _ => Some (snd first)
      end
  end.

Definition _create_match (self : ConceptSearcher)
    (concept_data : ConceptData) (confidence : Q)
    (mtype : Models.MatchType) (mtext : text) : Models.ConceptMatch :=
  let id := concept_id (data concept_data) in
  let flag := standard_concept (data concept_data) in
  let resolution :=
    if is_S flag then (Models.ALREADY_STANDARD, None, None)
    else
      match get_maps_to (db self) id with
      | Some maps_to =>
          (Models.MAPPED_TO_STANDARD,
           Some (standard_concept_id maps_to),
           Some (standard_concept_name maps_to))
      | None => (Models.NO_MAPPING_AVAILABLE, None, None)
      end in
  {| Models.concept_id := id;
     Models.concept_name := concept_name (data concept_data);
     Models.domain_id := domain_id (data concept_data);
     Models.vocabulary_id := vocabulary_id (data concept_data);
     Models.concept_class_id := concept_class_id (data concept_data);
     Models.standard_concept := flag;
     Models.confidence := py_min confidence 1;
     Models.match_type := mtype;
     Models.matched_text := mtext;
     Models.resolution_status := fst (fst resolution);
     Models.standard_concept_id := snd (fst resolution);
     Models.standard_concept_name := snd resolution;
     Models.concept_code := concept_code (data concept_data) |}.

(** Tier 3 of [search]: the semantic results, the warnings of the tier and
    the searcher after the lazy load. *)
Definition semantic_tier (self : ConceptSearcher) (normalized_query : text)
    (domain_filter : option text) (top_k : Z)
    : list Scored * list text * ConceptSearcher :=
  if enable_semantic self then
    let (semantic_search, self) := _get_semantic_search self in
    match semantic_search with
    | Some sem =>
        if is_available sem then
          match _semantic_match self normalized_query domain_filter
                  (top_k * 2) with
          | (Returned semantic_results, self) => (semantic_results, [], self)
          | (Raised e, self) =>
              ([], [str "Semantic search unavailable: " ++ e], self)
          end
        else ([], [str "Semantic search index not built"], self)
    | None => ([], [str "Semantic search index not built"], self)
    end
  else ([], [], self).

(** The [ConceptMatch] of a ranked candidate. *)
Definition resolve_candidate (self : ConceptSearcher) (c : Candidate * Q)
    : Models.ConceptMatch :=
  _create_match self (cand_concept (fst c)) (snd c) (match_type (fst c))
    (with_default (concept_name (data (cand_concept (fst c))))
       (data_search_text (cand_concept (fst c)))).

(** The end of [search], after both early exits: merge, rank, resolve and
    decide success against the confidence threshold. *)
Definition rank_and_resolve (self : ConceptSearcher)
    (query normalized_query : text) (domain_filter : option text)
    (top_k : Z) (fuzzy_results semantic_results : list Scored)
    (warnings : list text) : Models.LookupResult :=
  let all_candidates :=
    _merge_and_rank self fuzzy_results semantic_results domain_filter top_k in
  match all_candidates with
  | [] =>
      {| Models.query := query;
         Models.normalized_query := normalized_query;
         Models.domain_filter := domain_filter;
         Models.success := false;
         Models.best_match := None;
         Models.candidates := [];
         Models.warnings := warnings ++ [str "No matches found"] |}
  | first :: _ =>
      let matches := map (resolve_candidate self) all_candidates in
      let best_match := resolve_candidate self first in
      let candidates :=
        if (1 <? List.length matches)%nat then slice_1_to matches top_k
        else [] in
      let success :=
        Qle_bool (confidence_threshold (config self))
          (Models.confidence best_match) in
      let warnings :=
        if success then warnings
        else warnings ++
             [str "Best match confidence ("
              ++ format_2f P (Models.confidence best_match)
              ++ str ") below threshold ("
              ++ format_float P (confidence_threshold (config self))
              ++ str "). Review candidates."] in
      {| Models.query := query;
         Models.normalized_query := normalized_query;
         Models.domain_filter := domain_filter;
         Models.success := success;
         Models.best_match := Some best_match;
         Models.candidates := candidates;
         Models.warnings := warnings |}
  end.

(** The result of both early exits. *)
Definition early_exit (self : ConceptSearcher)
    (query normalized_query : text) (domain_filter : option text)
    (best : ConceptData) (confidence : Q)
    (name_type synonym_type : Models.MatchType)
    : option (Models.LookupResult * ConceptSearcher) :=
  match data_source_type best, data_search_text best with
  | Some source, Some search_text =>
      let m :=
        _create_match self best confidence
          (match source with name => name_type | synonym => synonym_type end)
          search_text in
      Some ({| Models.query := query;
               Models.normalized_query := normalized_query;
               Models.domain_filter := domain_filter;
               Models.success := true;
               Models.best_match := Some m;
               Models.candidates := [];
               Models.warnings := [] |}, self)
  | _, _ => None
  end.

(** The fuzzy early exit of [search]: the best fuzzy result, when there is
    one and its score reaches [fuzzy_high_confidence]. *)
Definition high_confidence_fuzzy (self : ConceptSearcher)
    (fuzzy_results : list Scored) : option Scored :=
  match fuzzy_results with
  | best_fuzzy :: _ =>
      if Qle_bool (fuzzy_high_confidence (config self)) (score best_fuzzy)
      then Some best_fuzzy else None
  | [] => None
  end.

(** [ConceptSearcher.search].  [None] stands for a call outside the
    embedding: a missing key, or a statement of the fuzzy tier that a quote
    character has altered (see [get_candidates_by_token_overlap]). *)
Definition search (self : ConceptSearcher) (query : text)
    (domain_filter : option text) (top_k : option Z)
    : option (Models.LookupResult * ConceptSearcher) :=
  let top_k := with_default 5%Z top_k in
  let normalized_query := Normalize.normalize_text (unicode P) query in
  let tokens := Normalize.tokenize (unicode P) normalized_query in
  let exact_results := _exact_match self normalized_query domain_filter in
  match exact_results with
  | _ :: _ =>
      match _select_best_match self exact_results domain_filter with
      | Some best =>
          early_exit self query normalized_query domain_filter best 1
            Models.EXACT_NAME Models.EXACT_SYNONYM
      | None => None
      end
  | [] =>
      match _fuzzy_match self normalized_query tokens domain_filter with
      | None => None
      | Some fuzzy_results =>
          match high_confidence_fuzzy self fuzzy_results with
          | Some best_fuzzy =>
              early_exit self query normalized_query domain_filter
                (concept best_fuzzy) (score best_fuzzy / 100)
                Models.FUZZY_NAME Models.FUZZY_SYNONYM
          | None =>
              match semantic_tier self normalized_query domain_filter
                      top_k with
              | (semantic_results, warnings, self) =>
                  Some (rank_and_resolve self query normalized_query
                          domain_filter top_k fuzzy_results semantic_results
                          warnings,
                        self)
              end
          end
      end
  end.

End WithPlatform.

End Search.

(** ** __init__.py *)

Module Api.

Import Config Search.

(** The file at [input_path]: for a path with the suffix [.txt] (in any
    case) its lines; for every other path the rows that [csv.reader] yields
    with the delimiter given. *)
Inductive BatchInput :=
| TextFile (lines : list text)
| CsvFile (rows : list (list text)).

(** [row[i]] for a Python integer [i]: a negative index counts from the
    end; [None] is an [IndexError]. *)
Definition py_index {A} (row : list A) (i : Z) : option A :=
  if (0 <=? i)%Z then nth_error row (Z.to_nat i)
  else if (- Z.of_nat (List.length row) <=? i)%Z
  then nth_error row (Z.to_nat (Z.of_nat (List.length row) + i))
  else None.

Section WithPlatform.

Variable P : Platform.

(** The store behind [get_database]. *)
Variable database : Database.OMOPDatabase.

(** The state of the package is the global [_searcher]: [None] until the
    first call of [get_searcher], then the searcher object, which [search]
    updates in place. *)
Definition get_searcher (_searcher : option ConceptSearcher)
    (cfg : LookupConfig) (enable : bool) : ConceptSearcher :=
  match _searcher with
  | Some s => s
  | None => new_searcher cfg database enable
  end.

(** [lookup(query, domain=None, top_k=10, enable_semantic=False,
    config=None)] *)
Definition lookup (_searcher : option ConceptSearcher) (query : text)
    (domain : option text) (top_k : option Z) (enable : option bool)
    (cfg : option LookupConfig)
    : option (Models.LookupResult * option ConceptSearcher) :=
  let top_k := with_default 10%Z top_k in
  let enable := with_default false enable in
  let cfg := with_default DEFAULT_CONFIG cfg in
  let searcher := get_searcher _searcher cfg enable in
  match search P searcher query domain (Some top_k) with
  | Some (result, searcher) => Some (result, Some searcher)
  | None => None
  end.

(** The queries of a text file: its lines, stripped, the blank ones
    dropped. *)
Definition read_queries (lines : list text) : list text :=
  flat_map
    (fun line =>
       match Normalize.strip (unicode P) line with
       | [] => []
       | q => [q]
       end)
    lines.

(** The loop of [batch_lookup] over the queries. *)
Fixpoint process_queries (searcher : ConceptSearcher) (queries : list text)
    (domain : option text)
    : option (list Models.LookupResult * ConceptSearcher) :=
  match queries with
  | [] => Some ([], searcher)
  | q :: rest =>
      match search P searcher q domain None with
      | None => None
      | Some (result, searcher) =>
          match process_queries searcher rest domain with
          | None => None
          | Some (results, searcher) => Some (result :: results, searcher)
          end
      end
  end.

(** The queries of a file of another type: the cell at [query_column] of
    every row that is long enough, stripped, the blank ones dropped.
    [None] is the [IndexError] of a negative column that a row is too
    short for. *)
Fixpoint csv_queries (query_column : Z) (rows : list (list text))
    : option (list text) :=
  match rows with
  | [] => Some []
  | row :: rest =>
      if (query_column <? Z.of_nat (List.length row))%Z then
        match py_index row query_column with
        | None => None
        | Some cell =>
            match Normalize.strip (unicode P) cell with
            | [] => csv_queries query_column rest
            | query => option_map (cons query) (csv_queries query_column rest)
            end
        end
      else csv_queries query_column rest
  end.

(** The queries that [batch_lookup] reads from its input. *)
Definition input_queries (input : BatchInput) (query_column : Z)
    (has_header : bool) : option (list text) :=
  match input with
  | TextFile lines => Some (read_queries lines)
  | CsvFile rows =>
      csv_queries query_column (if has_header then tl rows else rows)
  end.

(** [batch_lookup(input_path, output_path=None, domain=None, delimiter=",",
    query_column=0, has_header=True, enable_semantic=True, config=None)].
    The delimiter is an argument of [csv.reader] and has shaped the rows of
    the input; the file written to [output_path] is left out. *)
Definition batch_lookup (_searcher : option ConceptSearcher)
    (input : BatchInput) (domain : option text)
    (query_column : option Z) (has_header : option bool)
    (enable : option bool) (cfg : option LookupConfig)
    : option (Models.BatchLookupResult * option ConceptSearcher) :=
  let query_column := with_default 0%Z query_column in
  let has_header := with_default true has_header in
  let enable := with_default true enable in
  let cfg := with_default DEFAULT_CONFIG cfg in
  let searcher := get_searcher _searcher cfg enable in
  match input_queries input query_column has_header with
  | None => None
  | Some queries =>
      match process_queries searcher queries domain with
      | None => None
      | Some (results, searcher) =>
          Some ({| Models.results := results;
                   Models.total_queries := Z.of_nat (List.length queries);
                   Models.successful_queries :=
                     Z.of_nat (List.length (filter Models.success results)) |},
                Some searcher)
      end
  end.

End WithPlatform.

End Api.

(** ** Vocabulary of the statements *)

(** What [str.lower] may put in place of a character. *)
Definition lower_variants (U : UnicodeData) (d : codepoint) : text :=
  if (d =? CAPITAL_SIGMA)%N then [SMALL_FINAL_SIGMA; SMALL_SIGMA]
  else to_lower_full U d.

(** A character that decomposition and lowercasing leave alone. *)
Definition stable (U : UnicodeData) (e : codepoint) : Prop :=
  decomposition U e = [e] /\ combining U e = 0%N
  /\ to_lower_full U e = [e] /\ e <> CAPITAL_SIGMA.

(** Two facts of the Unicode tables: the word characters that come out of
    decomposition followed by lowercasing are stable, and the space
    character is a plain whitespace character. *)
Record tables_closed (U : UnicodeData) : Prop := {
  lowered_stable :
    forall c d e,
      In d (decomposition U c) -> In e (lower_variants U d) ->
      combining U e = 0%N -> Normalize.is_word U e = true ->
      is_space U e = false -> stable U e;
  space_is_space : is_space U SPACE = true;
  space_stable : stable U SPACE
}.

(** The matches that a result returns: the best match and the alternates. *)
Definition returned_matches (r : Models.LookupResult) : list Models.ConceptMatch :=
  match Models.best_match r with
  | Some m => m :: Models.candidates r
  | None => Models.candidates r
  end.

(** The store's [maps_to_lookup] is the one that [_create_maps_to_lookup]
    builds from its concepts and relationships. *)
Definition maps_to_built (db : Database.OMOPDatabase) : Prop :=
  Database.maps_to_lookup db
  = Database._create_maps_to_lookup (Database.concept db)
      (Database.concept_relationship db).

Module Spec.

Import Normalize Config Database Search.

Section WithUnicode.

Variable U : UnicodeData.

(** The pipeline of [normalize_text] without its guard on the empty text. *)
Definition pipeline (t : text) : text :=
  join [SPACE]
    (split U
       (sub_punctuation U
          (filter (fun c => (combining U c =? 0)%N) (lower U (nfkd U t))))).

(** A run of non-whitespace characters. *)
Definition word (w : text) : Prop :=
  w <> [] /\ Forall (fun c => is_space U c = false) w.

(** A character that every step of the pipeline keeps. *)
Definition kept (c : codepoint) : Prop :=
  stable U c /\ is_word U c || is_space U c = true.

End WithUnicode.

(** The rows of [concept_search] as the two queries return them. *)
Definition exact_row (e : SearchEntry) : ConceptData :=
  {| data := parent e;
     data_search_text := Some (search_text e);
     data_source_type := Some (source_type e);
     data_search_text_normalized := None |}.

Definition overlap_row (e : SearchEntry) : ConceptData :=
  {| data := parent e;
     data_search_text := Some (search_text e);
     data_source_type := Some (source_type e);
     data_search_text_normalized := Some (search_text_normalized e) |}.

(** The rows of [concept] as [get_concept_by_id] returns them. *)
Definition concept_row (c : Concept) : ConceptData :=
  {| data := info c;
     data_search_text := None;
     data_source_type := None;
     data_search_text_normalized := None |}.

(** What a semantic result is: a concept row of the store that passes the
    domain filter. *)
Definition semantic_result (db : OMOPDatabase) (d : option text) (r : Scored)
    : Prop :=
  (exists row, In row (Database.concept db) /\ concept r = concept_row row)
  /\ (truthy d = true -> Some (domain_id (data (concept r))) = d).

(** The score that the merge keeps for a concept: the one of its last
    result in the list, if it has one. *)
Definition score_of (results : list Scored) (id : Z) : option Q :=
  fold_left
    (fun acc r =>
       if Z.eqb (concept_id (data (concept r))) id then Some (score r)
       else acc)
    results None.

(** The two signals of the fusion: the fuzzy score divided by 100 and the
    semantic similarity, 0 for an absent signal. *)
Definition fuzzy_norm (fuzzy_results : list Scored) (id : Z) : Q :=
  match score_of fuzzy_results id with
  | Some s => s / 100
  | None => 0
  end.

Definition semantic_norm (semantic_results : list Scored) (id : Z) : Q :=
  with_default 0 (score_of semantic_results id).

(** Where the concept of a merged candidate comes from. *)
Definition from_results (fz sem : list Scored) (kc : Z * Candidate) : Prop :=
  (exists r, In r fz /\ cand_concept (snd kc) = concept r)
  \/ (exists r, In r sem /\ cand_concept (snd kc) = concept r).

(** The dictionary after the first loop of [_merge_and_rank]. *)
Definition fuzzy_dict (fuzzy_results : list Scored) : list (Z * Candidate) :=
  fold_left
    (fun d r => dict_set d (concept_id (data (concept r))) (fuzzy_candidate r))
    fuzzy_results [].

(** The candidate that the merge holds for a concept carries the two
    signals of that concept. *)
Definition merged (fz sem : list Scored) (id : Z) (c : Candidate) : Prop :=
  concept_id (data (cand_concept c)) = id
  /\ fuzzy_score c = fuzzy_norm fz id
  /\ semantic_score c = semantic_norm sem id.

(** The confidence of the fused tier as the specification words it. *)
Definition fused_confidence
    (fuzzy semantic vocabulary_weight source standard : Q) : Q :=
  Qmin
    (Qmax ((7 # 10) * fuzzy + (3 # 10) * semantic) (Qmax fuzzy semantic)
     * vocabulary_weight * source * standard)
    1.

(** The vocabulary weights of a configuration are not negative. *)
Definition weights_nonnegative (cfg : LookupConfig) : Prop :=
  0 <= default_vocab_weight cfg
  /\ forall domain prefs vocabulary w,
       In (domain, prefs) (vocabulary_preferences cfg) ->
       In (vocabulary, w) prefs -> 0 <= w.

(** Success means a best match at or above the confidence threshold. *)
Definition success_iff_threshold (cfg : LookupConfig)
    (r : Models.LookupResult) : Prop :=
  Models.success r = true <->
  exists m, Models.best_match r = Some m
            /\ confidence_threshold cfg <= Models.confidence m.

(** Every returned match is in the requested domain. *)
Definition respects_domain_filter (d : text) (r : Models.LookupResult)
    : Prop :=
  forall m, In m (returned_matches r) -> Models.domain_id m = d.

End Spec.

(** ** A small store, for the examples *)

Module Examples.

Import Config Database Search.

Definition concept_info (id : Z) (cname domain vocabulary : string)
    (flag : option string) (code : string) : ConceptInfo :=
  {| concept_id := id;
     concept_name := str cname;
     domain_id := str domain;
     vocabulary_id := str vocabulary;
     concept_class_id := str "Clinical Finding";
     standard_concept := option_map str flag;
     concept_code := Some (str code) |}.

Definition valid (c : ConceptInfo) : Concept :=
  {| info := c; invalid_reason := None |}.

Definition entry (c : ConceptInfo) (t : string) (source : SourceType)
    (normalized : string) : SearchEntry :=
  {| parent := c; search_text := str t; source_type := source;
     search_text_normalized := str normalized |}.

Definition name_entry (c : ConceptInfo) (normalized : string) : SearchEntry :=
  {| parent := c; search_text := concept_name c; source_type := name;
     search_text_normalized := str normalized |}.

Definition mi := concept_info 1 "Myocardial infarction" "Condition" "SNOMED" (Some "S"%string) "22298006".
Definition acute_mi := concept_info 2 "Acute myocardial infarction" "Condition" "ICD10CM" None "I21".
Definition old_mi := concept_info 3 "Old myocardial infarction" "Condition" "ICD9CM" None "412".
Definition angina := concept_info 5 "Angina pectoris" "Condition" "SNOMED" (Some "S"%string) "194828000".
Definition heart_failure := concept_info 6 "Heart failure" "Condition" "SNOMED" (Some "S"%string) "84114007".
Definition afib := concept_info 7 "Atrial fibrillation" "Condition" "SNOMED" (Some "S"%string) "49436004".
Definition coronary := concept_info 8 "Coronary arteriosclerosis" "Condition" "SNOMED" (Some "S"%string) "53741008".
Definition cardiac_arrest := concept_info 9 "Cardiac arrest" "Condition" "SNOMED" (Some "S"%string) "410429000".
Definition acs := concept_info 10 "Acute coronary syndrome" "Condition" "SNOMED" (Some "S"%string) "394659003".

Definition concepts : list Concept :=
  map valid
    [mi; acute_mi; old_mi; angina; heart_failure; afib; coronary;
     cardiac_arrest; acs].

Definition relationships : list Relationship :=
  [ {| concept_id_1 := 2; concept_id_2 := 1;
       relationship_id := str "Maps to"; rel_invalid_reason := None |};
    {| concept_id_1 := 1; concept_id_2 := 1;
       relationship_id := str "Maps to"; rel_invalid_reason := None |};
    {| concept_id_1 := 1; concept_id_2 := 2;
       relationship_id := str "Mapped from"; rel_invalid_reason := None |} ].

Definition store : OMOPDatabase :=
  {| Database.concept := concepts;
     concept_relationship := relationships;
     maps_to_lookup := _create_maps_to_lookup concepts relationships;
     concept_search :=
       [ name_entry mi "myocardial infarction";
         entry mi "Heart attack" synonym "heart attack";
         name_entry acute_mi "acute myocardial infarction";
         name_entry old_mi "old myocardial infarction";
         name_entry angina "angina pectoris";
         name_entry heart_failure "heart failure";
         name_entry afib "atrial fibrillation";
         name_entry coronary "coronary arteriosclerosis";
         name_entry cardiac_arrest "cardiac arrest";
         name_entry acs "acute coronary syndrome" ] |}.

(** A semantic index that knows one query. *)
Definition index : SemanticSearch :=
  {| is_available := true;
     nearest := fun q k =>
       if text_eqb q (str "stemi")
       then Returned
              (firstn (Z.to_nat k)
                 [ (1%Z, 91 # 100); (10%Z, 88 # 100); (2%Z, 86 # 100);
                   (9%Z, 70 # 100); (5%Z, 65 # 100); (8%Z, 60 # 100);
                   (6%Z, 55 # 100) ])
       else Returned [] |}.

(** Platforms: ASCII tables, a scorer that gives every pair the same score,
    with and without the embeddings package. *)
Definition platform (wratio : Q) (sem : option SemanticSearch) : Platform :=
  {| unicode := ascii_unicode;
     WRatio := fun _ _ => wratio;
     reaches_cutoff := fun score_cutoff score => Qle_bool score_cutoff score;
     embeddings := sem;
     format_2f := fun _ => [];
     format_float := fun _ => [] |}.

Definition with_index : Platform := platform 0 (Some index).
Definition without_embeddings : Platform := platform 0 None.

(** A configuration that asks more of a match than of a fuzzy early exit. *)
Definition strict_config : LookupConfig :=
  {| fuzzy_high_confidence := 90;
     fuzzy_min_threshold := 70;
     semantic_high_confidence := 85 # 100;
     semantic_min_threshold := 60 # 100;
     confidence_threshold := 95 # 100;
     top_k_candidates := 5;
     vocabulary_preferences := vocabulary_preferences DEFAULT_CONFIG;
     default_vocab_weight := 5 # 10;
     max_fuzzy_candidates := 1000 |}.

Definition searcher (enable : bool) : ConceptSearcher :=
  new_searcher DEFAULT_CONFIG store enable.

(** An index that gives a negative similarity. *)
Definition cold_index : SemanticSearch :=
  {| is_available := true;
     nearest := fun q k =>
       if text_eqb q (str "frostbite")
       then Returned (firstn (Z.to_nat k) [ (5%Z, -(25 # 100)) ])
       else Returned [] |}.

Definition with_cold_index : Platform := platform 0 (Some cold_index).

(** The lookup of a non-standard concept by its name. *)
Definition acute_mi_match : Models.ConceptMatch :=
  _create_match (searcher true)
    (Spec.exact_row (name_entry acute_mi "acute myocardial infarction"))
    1 Models.EXACT_NAME (str "Acute myocardial infarction").

Definition acute_mi_result : Models.LookupResult :=
  {| Models.query := str "Acute Myocardial Infarction";
     Models.normalized_query := str "acute myocardial infarction";
     Models.domain_filter := None;
     Models.success := true;
     Models.best_match := Some acute_mi_match;
     Models.candidates := [];
     Models.warnings := [] |}.

(** What the scenarios look at in a result: success, and for the best
    match its concept, match type, confidence, resolution status and
    analytics id. *)
Definition summary (o : option (Models.LookupResult * ConceptSearcher))
    : option (bool * option (Z * Models.MatchType * Q
                             * Models.ResolutionStatus * option Z)) :=
  match o with
  | Some (r, _) =>
      Some (Models.success r,
            match Models.best_match r with
            | Some m =>
                Some (Models.concept_id m, Models.match_type m,
                      Models.confidence m, Models.resolution_status m,
                      Models.get_analytics_concept_id m)
            | None => None
            end)
  | None => None
  end.

End Examples.

From Stdlib Require Import Permutation Sorted.

(** ** normalize.py, the token utilities *)

Module Tokens.

Section WithUnicode.

Variable U : UnicodeData.

Definition mem (t : text) (s : list text) : bool := existsb (text_eqb t) s.

(** [set(tokens)]: every token once.  A Python set has no order; the
    functions below look at membership and size only. *)
Fixpoint to_set (tokens : list text) : list text :=
  match tokens with
  | [] => []
  | t :: rest => if mem t rest then to_set rest else t :: to_set rest
  end.

(** normalize.py, [get_token_set] *)
Definition get_token_set (t : text) : list text :=
  to_set (Normalize.tokenize U (Normalize.normalize_text U t)).

(** [tokens1 & tokens2] and [tokens1 | tokens2] *)
Definition intersection (s1 s2 : list text) : list text :=
  filter (fun t => mem t s2) s1.

Definition union (s1 s2 : list text) : list text :=
  s1 ++ filter (fun t => negb (mem t s1)) s2.

Definition size (s : list text) : Q := inject_Z (Z.of_nat (List.length s)).

(** normalize.py, [calculate_token_overlap] *)
Definition calculate_token_overlap (text1 text2 : text) : Q :=
  let tokens1 := get_token_set text1 in
  let tokens2 := get_token_set text2 in
  match tokens1, tokens2 with
  | [], _ => 0
  | _, [] => 0
  | _, _ => size (intersection tokens1 tokens2) / size (union tokens1 tokens2)
  end.

(** The table of [expand_abbreviations]. *)
Definition abbreviations : list (text * text) :=
  map (fun kv => (str (fst kv), str (snd kv)))
    [ ("mi", "myocardial infarction");
      ("dm", "diabetes mellitus");
      ("htn", "hypertension");
      ("chf", "congestive heart failure");
      ("copd", "chronic obstructive pulmonary disease");
      ("cad", "coronary artery disease");
      ("afib", "atrial fibrillation");
      ("ckd", "chronic kidney disease");
      ("uti", "urinary tract infection");
      ("dvt", "deep vein thrombosis");
      ("pe", "pulmonary embolism");
      ("ra", "rheumatoid arthritis");
      ("oa", "osteoarthritis");
      ("ms", "multiple sclerosis");
      ("als", "amyotrophic lateral sclerosis");
      ("tia", "transient ischemic attack");
      ("cva", "cerebrovascular accident");
      ("gerd", "gastroesophageal reflux disease");
      ("ibs", "irritable bowel syndrome");
      ("ards", "acute respiratory distress syndrome");
      ("aki", "acute kidney injury");
      ("esrd", "end stage renal disease");
      ("bph", "benign prostatic hyperplasia");
      ("pci", "percutaneous coronary intervention");
      ("cabg", "coronary artery bypass graft");
      ("tka", "total knee arthroplasty");
      ("tha", "total hip arthroplasty");
      ("acl", "anterior cruciate ligament");
      ("mri", "magnetic resonance imaging");
      ("ct", "computed tomography");
      ("ekg", "electrocardiogram");
      ("ecg", "electrocardiogram");
      ("cbc", "complete blood count");
      ("bmp", "basic metabolic panel");
      ("cmp", "comprehensive metabolic panel");
      ("lfts", "liver function tests");
      ("hba1c", "hemoglobin a1c");
      ("bp", "blood pressure");
      ("hr", "heart rate");
      ("rr", "respiratory rate");
      ("o2sat", "oxygen saturation") ]%string.

(** [abbreviations[token] if token in abbreviations else token] *)
Definition expand_token (token : text) : text :=
  with_default token (dict_get abbreviations token).

(** normalize.py, [expand_abbreviations] *)
Definition expand_abbreviations (t : text) : text :=
  let normalized := Normalize.normalize_text U t in
  let tokens := Normalize.tokenize U normalized in
  match dict_get abbreviations normalized with
  | Some expansion => expansion
  | None => Normalize.join [SPACE] (map expand_token tokens)
  end.

(** normalize.py, [generate_search_variants]: the set of variants, the
    basic form first. *)
Definition generate_search_variants (t : text) : list text :=
  let basic := Normalize.normalize_text U t in
  let expanded := expand_abbreviations t in
  if text_eqb expanded basic then [basic] else [basic; expanded].

End WithUnicode.

End Tokens.

(** ** Vocabulary of the further statements *)

Module Shape.

Section WithUnicode.

Variable U : UnicodeData.

(** A token: a non-empty run of word characters, none of them
    whitespace. *)
Definition token (w : text) : Prop :=
  w <> []
  /\ Forall (fun c => Normalize.is_word U c = true /\ is_space U c = false) w.

End WithUnicode.

End Shape.

Module Ranking.

Import Config Database Search.

(** The weight that [_select_best_match] gives to an exact hit. *)
Definition exact_weight (self : ConceptSearcher) (m : ConceptData) : Q :=
  let weight :=
    _get_vocab_weight self (vocabulary_id (data m)) (domain_id (data m)) in
  let weight :=
    if is_S (standard_concept (data m)) then weight * (105 # 100)
    else weight in
  let weight :=
    if is_name (data_source_type m) then weight * (102 # 100) else weight in
  weight.

(** A list in descending order of a key. *)
Definition descending {A} (key : A -> Q) (l : list A) : Prop :=
  StronglySorted (fun a b => key b <= key a) l.

End Ranking.

Module Protocol.

Import Config Database Search.

(** The searcher with another [fuzzy_high_confidence]. *)
Definition with_fuzzy_high (h : Q) (self : ConceptSearcher) : ConceptSearcher :=
  {| config :=
       {| fuzzy_high_confidence := h;
          fuzzy_min_threshold := fuzzy_min_threshold (config self);
          semantic_high_confidence := semantic_high_confidence (config self);
          semantic_min_threshold := semantic_min_threshold (config self);
          confidence_threshold := confidence_threshold (config self);
          top_k_candidates := top_k_candidates (config self);
          vocabulary_preferences := vocabulary_preferences (config self);
          default_vocab_weight := default_vocab_weight (config self);
          max_fuzzy_candidates := max_fuzzy_candidates (config self) |};
     db := db self;
     enable_semantic := enable_semantic self;
     _semantic_search := _semantic_search self |}.

(** Where [search] returns from. *)
Inductive Tier :=
| ExactExit
| FuzzyExit
| Fused
| NoResult.

Section WithPlatform.

Variable P : Platform.

Definition tier (self : ConceptSearcher) (query : text)
    (domain_filter : option text) : Tier :=
  let normalized_query := Normalize.normalize_text (unicode P) query in
  let tokens := Normalize.tokenize (unicode P) normalized_query in
  match _exact_match self normalized_query domain_filter with
  | _ :: _ => ExactExit
  | [] =>
      match _fuzzy_match P self normalized_query tokens domain_filter with
      | None => NoResult
      | Some fuzzy_results =>
          match high_confidence_fuzzy self fuzzy_results with
          | Some _ => FuzzyExit
          | None => Fused
          end
      end
  end.

End WithPlatform.

(** A searcher whose lazy load of the semantic search is behind it: the
    tier is switched off, or its handle is loaded. *)
Definition settled (self : ConceptSearcher) : Prop :=
  enable_semantic self = false \/ _semantic_search self <> None.

(** A valid "Maps to" relationship from a concept to a valid standard
    concept. *)
Definition valid_edge (d : OMOPDatabase) (id : Z) : Prop :=
  exists cr target,
    In cr (concept_relationship d)
    /\ In target (Database.concept d)
    /\ concept_id_1 cr = id
    /\ concept_id_2 cr = concept_id (info target)
    /\ relationship_id cr = str "Maps to"
    /\ rel_invalid_reason cr = None
    /\ standard_concept (info target) = Some (str "S")
    /\ invalid_reason target = None.

(** The searcher after the lazy load has stored a semantic search. *)
Definition loaded (sem : SemanticSearch) (self : ConceptSearcher)
    : ConceptSearcher :=
  {| config := config self; db := db self;
     enable_semantic := enable_semantic self;
     _semantic_search := Some sem |}.

(** models.py, [BatchLookupResult.to_dict]: the success rate, before it is
    rounded to four places. *)
Definition success_rate (b : Models.BatchLookupResult) : Q :=
  inject_Z (Models.successful_queries b)
  / inject_Z (Z.max (Models.total_queries b) 1).

End Protocol.

(** ** database.py: building the search table *)

Module Build.

Import Normalize Database.

(** Table [concept_synonym]. *)
Record Synonym := {
  syn_concept_id : Z;
  concept_synonym_name : text
}.

Definition DOUBLE_QUOTE : codepoint := 34%N.

(** The two texts that the statement of [_create_search_table] hands to
    [translate]: thirty-two punctuation characters and thirty-five
    spaces. *)
Definition translate_from : text :=
  str ".,;:!?()[]{}/<>\|@#$%^&*+=~`" ++ [DOUBLE_QUOTE] ++ str "'_-".

Definition translate_to : text := repeat SPACE 35.

(** SQL [translate(s, from, to)]: a character of [from] becomes the
    character of [to] at the same place, or disappears when [to] is
    shorter; every other character stays. *)
Fixpoint translate_char (from to : text) (c : codepoint) : text :=
  match from with
  | [] => [c]
  | f :: from' =>
      if (c =? f)%N then match to with [] => [] | t :: _ => [t] end
      else translate_char from' (tl to) c
  end.

Definition translate (s from to : text) : text :=
  flat_map (translate_char from to) s.

(** SQL [regexp_replace(s, ' +', ' ', 'g')]: every run of spaces becomes
    one space (a space before a space is dropped). *)
Fixpoint collapse_spaces (s : text) : text :=
  match s with
  | [] => []
  | c :: s' =>
      if (c =? SPACE)%N then
        match s' with
        | [] => [SPACE]
        | c' :: _ =>
            if (c' =? SPACE)%N then collapse_spaces s'
            else SPACE :: collapse_spaces s'
        end
      else c :: collapse_spaces s'
  end.

(** SQL [trim(s)]: the spaces at both ends removed. *)
Fixpoint drop_spaces (s : text) : text :=
  match s with
  | [] => []
  | c :: s' => if (c =? SPACE)%N then drop_spaces s' else s
  end.

Definition sql_trim (s : text) : text :=
  rev (drop_spaces (rev (drop_spaces s))).

Section WithEngine.

(** SQL [lower] of the engine. *)
Variable sql_lower : text -> text.

(** The expression that fills [search_text_normalized]. *)
Definition sql_normalize (search_text : text) : text :=
  sql_trim
    (collapse_spaces
       (translate (sql_lower search_text) translate_from translate_to)).

(** The rows of the [UNION ALL]: the names of the valid concepts, then the
    synonyms joined with their valid concepts. *)
Definition name_rows (concepts : list Concept)
    : list (ConceptInfo * text * SourceType) :=
  flat_map
    (fun c =>
       if is_null (invalid_reason c)
       then [(info c, concept_name (info c), name)] else [])
    concepts.

Definition synonym_rows (concepts : list Concept) (synonyms : list Synonym)
    : list (ConceptInfo * text * SourceType) :=
  flat_map
    (fun s =>
       flat_map
         (fun c =>
            if Z.eqb (syn_concept_id s) (concept_id (info c))
               && is_null (invalid_reason c)
            then [(info c, concept_synonym_name s, synonym)] else [])
         concepts)
    synonyms.

(** database.py, [_create_search_table] *)
Definition _create_search_table (concepts : list Concept)
    (synonyms : list Synonym) : list SearchEntry :=
  map (fun row =>
         {| parent := fst (fst row);
            search_text := snd (fst row);
            source_type := snd row;
            search_text_normalized := sql_normalize (snd (fst row)) |})
    (name_rows concepts ++ synonym_rows concepts synonyms).

(** The store's [concept_search] is the table that [_create_search_table]
    builds from its concepts and the synonyms. *)
Definition search_built (synonyms : list Synonym) (d : OMOPDatabase)
    : Prop :=
  concept_search d = _create_search_table (Database.concept d) synonyms.

End WithEngine.

(** A text without a space at either end and without two spaces in a
    row. *)
Definition starts_with_space (s : text) : bool :=
  match s with
  | c :: _ => (c =? SPACE)%N
  | [] => false
  end.

Fixpoint no_double_space (s : text) : bool :=
  match s with
  | c :: ((c' :: _) as s') =>
      negb ((c =? SPACE)%N && (c' =? SPACE)%N) && no_double_space s'
  | _ => true
  end.

Definition tight (s : text) : bool :=
  negb (starts_with_space s)
  && negb (starts_with_space (rev s))
  && no_double_space s.

(** The whitespace of the statement: the space character alone. *)
Definition space_only : UnicodeData :=
  {| decomposition := fun c => [c];
     combining := fun _ => 0%N;
     to_lower_full := fun c => [c];
     is_cased := fun _ => false;
     is_case_ignorable := fun _ => false;
     is_alnum := fun _ => false;
     is_space := fun c => (c =? SPACE)%N |}.

(** Plain texts: ASCII letters and digits, spaces, and the punctuation of
    [translate_from] other than the underscore. *)
Definition ascii_fold (c : codepoint) : codepoint :=
  if ascii_upper c then (c + 32)%N else c.

Definition ascii_alnum (c : codepoint) : bool :=
  ascii_digit c || ascii_upper c || ascii_lower c.

Definition plain_char (c : codepoint) : bool :=
  ascii_alnum c || (c =? SPACE)%N
  || (existsb (N.eqb c) translate_from && negb (c =? UNDERSCORE)%N).

Definition plain (s : text) : bool := forallb plain_char s.

(** Unicode tables and an engine that treat the ASCII characters as
    ASCII does. *)
Definition ascii_faithful (U : UnicodeData) : Prop :=
  forall c, (c < 128)%N ->
    decomposition U c = [c]
    /\ combining U c = 0%N
    /\ to_lower_full U c = [ascii_fold c]
    /\ is_alnum U c = ascii_alnum c
    /\ (plain_char c = true -> is_space U c = (c =? SPACE)%N).

Definition ascii_lowering (sql_lower : text -> text) : Prop :=
  forall s, plain s = true -> sql_lower s = map ascii_fold s.

(** The engine's [lower] on ASCII texts. *)
Definition ascii_sql_lower (s : text) : text := map ascii_fold s.

End Build.

(** ** database.py: the rows handed to the embedding model *)

Module Batches.

Import Database.

(** The loop over [result.fetchmany(batch_size)]: a batch is the next
    [size] rows (fewer at the end), the loop stops at the first empty
    batch.  The fuel bounds the number of batches. *)
Fixpoint fetch_batches {A} (fuel size : nat) (rows : list A)
    : list (list A) :=
  match fuel with
  | O => []
  | S fuel' =>
      match firstn size rows with
      | [] => []
      | batch => batch :: fetch_batches fuel' size (skipn size rows)
      end
  end.

(** The rows of the statement of [get_all_concepts_for_embedding]. *)
Definition embedding_rows (d : OMOPDatabase) (domain_filter : option text)
    : list (Z * text * text) :=
  map (fun e => (concept_id (parent e), search_text e,
                 search_text_normalized e))
    (filter (domain_clause domain_filter) (concept_search d)).

(** [get_all_concepts_for_embedding], as the list of the batches that the
    generator yields.  The domain filter is written into the statement
    between quotes, as in [get_candidates_by_token_overlap]; a negative
    batch size is left to the engine.  Both give [None]. *)
Definition get_all_concepts_for_embedding (d : OMOPDatabase)
    (batch_size : Z) (domain_filter : option text)
    : option (list (list (Z * text * text))) :=
  if (batch_size <? 0)%Z then None
  else if truthy domain_filter
          && negb (sql_literal_safe (with_default [] domain_filter))
  then None
  else
    let rows := embedding_rows d domain_filter in
    Some (fetch_batches (S (List.length rows)) (Z.to_nat batch_size) rows).

End Batches.

(** ** agent/agents/omop_agent.py *)

Module Agent.

Import Config Database Search Api.

Record OMOPLookupAgent := {
  top_k : Z;
  enable_semantic : bool;
  _initialized : bool
}.

(** [OMOPLookupAgent(top_k=10, enable_semantic=False)] *)
Definition new_agent (k : option Z) (enable : option bool)
    : OMOPLookupAgent :=
  {| top_k := with_default 10%Z k;
     enable_semantic := with_default false enable;
     _initialized := false |}.

(** The dictionary that [lookup_terms] makes of a match. *)
Record MatchDict := {
  d_concept_id : Z;
  d_concept_name : text;
  d_domain_id : text;
  d_vocabulary_id : text;
  d_confidence : Q;
  d_match_type : Models.MatchType;
  d_analytics_concept_id : option Z;
  d_standard_concept_name : option text
}.

(** [results[term] = matches] on a dictionary in insertion order. *)
Fixpoint results_set (d : list (text * list MatchDict)) (term : text)
    (matches : list MatchDict) : list (text * list MatchDict) :=
  match d with
  | [] => [(term, matches)]
  | (term', matches') :: d' =>
      if text_eqb term' term then (term', matches) :: d'
      else (term', matches') :: results_set d' term matches
  end.

Section WithPlatform.

Variable P : Platform.

(** The store behind [get_database]. *)
Variable database : OMOPDatabase.

(** [round(x, 4)] *)
Variable round4 : Q -> Q.

Definition match_dict (m : Models.ConceptMatch) : MatchDict :=
  {| d_concept_id := Models.concept_id m;
     d_concept_name := Models.concept_name m;
     d_domain_id := Models.domain_id m;
     d_vocabulary_id := Models.vocabulary_id m;
     d_confidence := round4 (Models.confidence m);
     d_match_type := Models.match_type m;
     d_analytics_concept_id := Models.get_analytics_concept_id m;
     d_standard_concept_name := Models.standard_concept_name m |}.

(** [_ensure_initialized]: the concept table holds a row. *)
Definition _ensure_initialized (self : OMOPLookupAgent)
    : bool * OMOPLookupAgent :=
  if _initialized self then (true, self)
  else if (0 <? Z.of_nat (List.length (Database.concept database)))%Z
  then (true, {| top_k := top_k self;
                 enable_semantic := enable_semantic self;
                 _initialized := true |})
  else (false, self).

(** The body of the loop of [lookup_terms] for one term: the matches kept
    for the term, and the package state after the lookup.  [None] is a
    lookup outside the embedding (see [search]); the handler of the loop
    has no other exception to catch. *)
Definition term_matches (self : OMOPLookupAgent)
    (_searcher : option ConceptSearcher) (term : text)
    (domain : option text)
    : option (list MatchDict * option ConceptSearcher) :=
  match lookup P database _searcher term domain (Some (top_k self))
          (Some (enable_semantic self)) None with
  | Some (result, _searcher) =>
      let matches :=
        match Models.best_match result with
        | Some m => [match_dict m]
        | None => []
        end
        ++ map match_dict (Models.candidates result) in
      Some (slice_to matches (top_k self), _searcher)
  | None => None
  end.

(** The loop of [lookup_terms]. *)
Fixpoint lookup_loop (self : OMOPLookupAgent)
    (results : list (text * list MatchDict))
    (_searcher : option ConceptSearcher)
    (terms : list (text * option text))
    : option (list (text * list MatchDict) * option ConceptSearcher) :=
  match terms with
  | [] => Some (results, _searcher)
  | (term, domain) :: rest =>
      match term_matches self _searcher term domain with
      | None => None
      | Some (matches, _searcher) =>
          lookup_loop self (results_set results term matches) _searcher rest
      end
  end.

(** [lookup_terms] *)
Definition lookup_terms (self : OMOPLookupAgent)
    (_searcher : option ConceptSearcher)
    (terms : list (text * option text))
    : option (list (text * list MatchDict) * option ConceptSearcher
              * OMOPLookupAgent) :=
  let (ready, self) := _ensure_initialized self in
  if ready then
    match lookup_loop self [] _searcher terms with
    | Some (results, _searcher) => Some (results, _searcher, self)
    | None => None
    end
  else
    Some (fold_left (fun d term_domain => results_set d (fst term_domain) [])
            terms [],
          _searcher, self).

End WithPlatform.

End Agent.

(** ** normalize.py: the words of an expansion *)

Module Abbreviations.

Import Normalize Tokens.

(** A word that the pipeline keeps, and that is no abbreviation. *)
Definition settled_word (U : UnicodeData) (w : text) : Prop :=
  (w <> [] /\ Forall (fun c => Spec.kept U c /\ is_space U c = false) w)
  /\ dict_get abbreviations w = None.

(** The words that a token expands to. *)
Definition words_of (token : text) : list text :=
  match dict_get abbreviations token with
  | Some v => split Build.space_only v
  | None => [token]
  end.

End Abbreviations.

(** ** A store with a built search table, for the examples *)

Module BuiltExamples.

Import Config Database Search Build.

(** A concept that the vocabulary has retired. *)
Definition retired : Concept :=
  {| info := Examples.concept_info 11 "Cardiac infarct" "Condition" "SNOMED"
               None "R-11";
     invalid_reason := Some (str "D") |}.

Definition concepts : list Concept := Examples.concepts ++ [retired].

Definition synonyms : list Synonym :=
  [ {| syn_concept_id := 1; concept_synonym_name := str "Heart attack" |};
    {| syn_concept_id := 2; concept_synonym_name := str "Acute MI (STEMI)" |};
    {| syn_concept_id := 11; concept_synonym_name := str "Infarct" |} ].

Definition store : OMOPDatabase :=
  {| Database.concept := concepts;
     concept_relationship := Examples.relationships;
     maps_to_lookup :=
       _create_maps_to_lookup concepts Examples.relationships;
     concept_search :=
       _create_search_table ascii_sql_lower concepts synonyms |}.

Definition searcher (enable : bool) : ConceptSearcher :=
  new_searcher DEFAULT_CONFIG store enable.

(** The entry of the synonym "Heart attack". *)
Definition heart_attack : SearchEntry :=
  {| parent := Examples.mi;
     search_text := str "Heart attack";
     source_type := synonym;
     search_text_normalized := str "heart attack" |}.

(** Scorers that give every pair 96, or 80. *)
Definition sure : Platform := Examples.platform 96 None.
Definition unsure : Platform := Examples.platform 80 None.

End BuiltExamples.

(** * Properties *)

Unset Implicit Arguments.

(** ** Text normalization *)

Module NormalizeFacts.

Import Normalize Spec.

Lemma text_eqb_eq (a b : text) : text_eqb a b = true <-> a = b.
Proof.
  revert b; induction a as [|x a IH]; intros [|y b]; simpl;
    try (split; [discriminate | discriminate]); try tauto.
  rewrite andb_true_iff, N.eqb_eq, IH.
  split; [intros [-> ->]; reflexivity | intros H; inversion H; auto].
Qed.

Lemma text_eqb_refl (a : text) : text_eqb a a = true.
Proof. apply text_eqb_eq; reflexivity. Qed.

Section WithUnicode.

Variable U : UnicodeData.

Lemma normalize_text_pipeline (t : text) : normalize_text U t = pipeline U t.
Proof. destruct t; reflexivity. Qed.

(** *** Where the characters of the result come from *)

Lemma reorder_insert_In c r d :
  In d (reorder_insert U c r) -> d = c \/ In d r.
Proof.
  induction r as [|p r IH]; simpl.
  - intros [H | []]; auto.
  - destruct (_ && _); simpl.
    + intros [H | H]; auto. destruct (IH H); auto.
    + intros [H | [H | H]]; auto.
Qed.

Lemma fold_reorder_In s : forall acc d,
  In d (fold_left (fun acc c => reorder_insert U c acc) s acc) ->
  In d acc \/ In d s.
Proof.
  induction s as [|c s IH]; simpl; intros acc d H; auto.
  destruct (IH _ _ H) as [H1 | H1]; auto.
  destruct (reorder_insert_In _ _ _ H1); auto.
Qed.

Lemma canonical_order_In s d : In d (canonical_order U s) -> In d s.
Proof.
  unfold canonical_order. rewrite <- in_rev. intros H.
  destruct (fold_reorder_In _ _ _ H) as [[] | H1]; exact H1.
Qed.

Lemma nfkd_In s d :
  In d (nfkd U s) -> exists c, In c s /\ In d (decomposition U c).
Proof.
  unfold nfkd. intros H. apply canonical_order_In in H.
  apply in_flat_map in H. exact H.
Qed.

Lemma lower_from_In s : forall b e,
  In e (lower_from U b s) -> exists d, In d s /\ In e (lower_variants U d).
Proof.
  induction s as [|c s IH]; simpl; intros b e H; [contradiction |].
  apply in_app_or in H. destruct H as [H | H].
  - exists c. split; [auto |]. unfold lower_variants.
    destruct (c =? CAPITAL_SIGMA)%N; [| exact H].
    destruct H as [H | []]. destruct (final_sigma U b s); subst e; simpl; auto.
  - destruct (IH _ _ H) as [d [Hd He]]. exists d; auto.
Qed.

Lemma split_aux_spec s :
  (forall c, In c (fst (split_aux U s)) -> In c s /\ is_space U c = false)
  /\ (forall v, In v (snd (split_aux U s)) ->
        v <> [] /\ forall c, In c v -> In c s /\ is_space U c = false).
Proof.
  induction s as [|a s [IHw IHws]]; simpl.
  - split; [intros c [] | intros v []].
  - destruct (split_aux U s) as [w ws]; simpl in *.
    destruct (is_space U a) eqn:Ha; simpl.
    + split; [intros c [] |].
      intros v Hv.
      assert (In v ws \/ (v = w /\ w <> [])) as [H | [-> Hne]].
      { destruct w; [left; exact Hv |].
        destruct Hv as [<- | Hv]; [right; split; [reflexivity | discriminate]
                                  | left; exact Hv]. }
      * destruct (IHws _ H) as [Hn Hc]. split; [exact Hn |].
        intros c Hc'. destruct (Hc _ Hc'); auto.
      * split; [exact Hne |]. intros c Hc. destruct (IHw _ Hc); auto.
    + split.
      * intros c [<- | Hc]; [auto |]. destruct (IHw _ Hc); auto.
      * intros v Hv. destruct (IHws _ Hv) as [Hn Hc]. split; [exact Hn |].
        intros c Hc'. destruct (Hc _ Hc'); auto.
Qed.

Lemma split_In s w :
  In w (split U s) ->
  w <> [] /\ forall c, In c w -> In c s /\ is_space U c = false.
Proof.
  unfold split. pose proof (split_aux_spec s) as [Hw Hws].
  destruct (split_aux U s) as [w0 ws]; simpl in *.
  destruct w0 as [|a w0]; [apply Hws |].
  intros [<- | H]; [| apply Hws; exact H].
  split; [discriminate | exact Hw].
Qed.

(** *** Texts that the pipeline leaves alone *)

Lemma flat_map_decomposition_fixed t :
  Forall (fun c => decomposition U c = [c]) t ->
  flat_map (decomposition U) t = t.
Proof.
  induction 1 as [|c t Hc _ IH]; simpl; [reflexivity |].
  rewrite Hc, IH. reflexivity.
Qed.

Lemma fold_reorder_fixed t : forall acc,
  Forall (fun c => combining U c = 0%N) t ->
  fold_left (fun acc c => reorder_insert U c acc) t acc = rev t ++ acc.
Proof.
  induction t as [|c t IH]; simpl; intros acc H; [reflexivity |].
  inversion H as [|? ? Hc Ht]; subst.
  rewrite IH by exact Ht. rewrite <- app_assoc. simpl.
  f_equal. destruct acc as [|p r]; simpl; [reflexivity |].
  rewrite Hc. reflexivity.
Qed.

Lemma canonical_order_fixed t :
  Forall (fun c => combining U c = 0%N) t -> canonical_order U t = t.
Proof.
  intros H. unfold canonical_order. rewrite fold_reorder_fixed by exact H.
  rewrite app_nil_r. apply rev_involutive.
Qed.

Lemma lower_from_fixed t : forall b,
  Forall (fun c => to_lower_full U c = [c] /\ c <> CAPITAL_SIGMA) t ->
  lower_from U b t = t.
Proof.
  induction t as [|c t IH]; simpl; intros b H; [reflexivity |].
  inversion H as [|? ? [Hl Hs] Ht]; subst.
  apply N.eqb_neq in Hs. rewrite Hs, Hl, IH by exact Ht. reflexivity.
Qed.

Lemma filter_fixed {A} (f : A -> bool) t :
  Forall (fun c => f c = true) t -> filter f t = t.
Proof.
  induction 1 as [|c t Hc _ IH]; simpl; [reflexivity |].
  rewrite Hc, IH. reflexivity.
Qed.

Lemma sub_punctuation_fixed t :
  Forall (fun c => is_word U c || is_space U c = true) t ->
  sub_punctuation U t = t.
Proof.
  unfold sub_punctuation.
  induction 1 as [|c t Hc _ IH]; simpl; [reflexivity |].
  rewrite Hc, IH. reflexivity.
Qed.

Lemma split_aux_app w r :
  Forall (fun c => is_space U c = false) w ->
  split_aux U (w ++ r) = (w ++ fst (split_aux U r), snd (split_aux U r)).
Proof.
  induction 1 as [|c w Hc _ IH]; simpl.
  - destruct (split_aux U r); reflexivity.
  - rewrite IH, Hc. reflexivity.
Qed.

Lemma split_word w : word U w -> split U w = [w].
Proof.
  intros [Hne Hw]. unfold split.
  pose proof (split_aux_app w [] Hw) as E. rewrite app_nil_r in E.
  rewrite E. simpl. rewrite (app_nil_r w).
  destruct w; [contradiction | reflexivity].
Qed.

Lemma split_word_space w r :
  is_space U SPACE = true -> word U w ->
  split U (w ++ SPACE :: r) = w :: split U r.
Proof.
  intros Hsp [Hne Hw]. unfold split. rewrite split_aux_app by exact Hw.
  simpl. rewrite Hsp. destruct (split_aux U r) as [w0 ws0]. simpl.
  rewrite (app_nil_r w). destruct w; [contradiction | reflexivity].
Qed.

Lemma split_join ws :
  is_space U SPACE = true -> Forall (word U) ws ->
  split U (join [SPACE] ws) = ws.
Proof.
  intros Hsp. induction 1 as [|w ws Hw Hws IH]; [reflexivity |].
  destruct ws as [|w' ws'].
  - simpl. apply split_word. exact Hw.
  - change (join [SPACE] (w :: w' :: ws'))
      with (w ++ SPACE :: join [SPACE] (w' :: ws')).
    rewrite split_word_space by assumption. rewrite IH. reflexivity.
Qed.

Lemma pipeline_prefix_fixed t :
  Forall (kept U) t ->
  sub_punctuation U
    (filter (fun c => (combining U c =? 0)%N) (lower U (nfkd U t))) = t.
Proof.
  intros H.
  assert (Hn : nfkd U t = t).
  { unfold nfkd. rewrite flat_map_decomposition_fixed.
    - apply canonical_order_fixed.
      eapply Forall_impl; [| exact H]. intros c [[_ [Hc _]] _]; exact Hc.
    - eapply Forall_impl; [| exact H]. intros c [[Hd _] _]; exact Hd. }
  rewrite Hn. unfold lower. rewrite lower_from_fixed.
  - rewrite filter_fixed.
    + apply sub_punctuation_fixed.
      eapply Forall_impl; [| exact H]. intros c [_ Hc]; exact Hc.
    + eapply Forall_impl; [| exact H]. intros c [[_ [Hc _]] _].
      simpl. rewrite Hc. reflexivity.
  - eapply Forall_impl; [| exact H]. intros c [[_ [_ [Hl Hs]]] _]; auto.
Qed.

Lemma join_Forall (Q : codepoint -> Prop) ws :
  Q SPACE -> Forall (Forall Q) ws -> Forall Q (join [SPACE] ws).
Proof.
  intros Hs. induction 1 as [|w ws Hw Hws IH]; [constructor |].
  destruct ws as [|w' ws']; [exact Hw |].
  change (join [SPACE] (w :: w' :: ws'))
    with (w ++ SPACE :: join [SPACE] (w' :: ws')).
  apply Forall_app. split; [exact Hw |]. constructor; [exact Hs | exact IH].
Qed.

Hypothesis tables : tables_closed U.

Lemma pipeline_join ws :
  Forall (fun w => w <> [] /\
            Forall (fun c => kept U c /\ is_space U c = false) w) ws ->
  pipeline U (join [SPACE] ws) = join [SPACE] ws.
Proof.
  intros H. unfold pipeline. rewrite pipeline_prefix_fixed.
  - rewrite split_join; [reflexivity | apply (space_is_space tables) |].
    eapply Forall_impl; [| exact H]. intros w [Hne Hw]. split; [exact Hne |].
    eapply Forall_impl; [| exact Hw]. intros c [_ Hc]; exact Hc.
  - apply join_Forall.
    + split; [apply (space_stable tables) |].
      rewrite (space_is_space tables). apply orb_true_r.
    + eapply Forall_impl; [| exact H]. intros w [_ Hw].
      eapply Forall_impl; [| exact Hw]. intros c [Hc _]; exact Hc.
Qed.

Lemma pipeline_words x :
  Forall (fun w => w <> [] /\
            Forall (fun c => kept U c /\ is_space U c = false) w)
    (split U
       (sub_punctuation U
          (filter (fun c => (combining U c =? 0)%N) (lower U (nfkd U x))))).
Proof.
  apply Forall_forall. intros w Hw. apply split_In in Hw.
  destruct Hw as [Hne Hc]. split; [exact Hne |].
  apply Forall_forall. intros c Hcw. destruct (Hc _ Hcw) as [Hin Hns].
  split; [| exact Hns].
  unfold sub_punctuation in Hin. apply in_map_iff in Hin.
  destruct Hin as [e [He Hin]].
  destruct (is_word U e || is_space U e) eqn:Hwe.
  - subst e. rewrite Hns, orb_false_r in Hwe.
    apply filter_In in Hin. destruct Hin as [Hin Hcc].
    apply N.eqb_eq in Hcc.
    apply lower_from_In in Hin. destruct Hin as [d [Hd Hv]].
    apply nfkd_In in Hd. destruct Hd as [c0 [_ Hd]].
    split.
    + exact (lowered_stable tables _ _ _ Hd Hv Hcc Hwe Hns).
    + rewrite Hwe. reflexivity.
  - subst c. rewrite (space_is_space tables) in Hns. discriminate.
Qed.

(** C5.  Normalizing a normalized text returns it unchanged:
    [normalize_text (normalize_text x) = normalize_text x] for every text
    [x], for Unicode tables in which the word characters produced by
    decomposition and lowercasing are themselves decomposed and lowercase. *)
Theorem normalize_text_idempotent (x : text) :
  normalize_text U (normalize_text U x) = normalize_text U x.
Proof.
  rewrite !normalize_text_pipeline.
  unfold pipeline at 2 3. apply pipeline_join. apply pipeline_words.
Qed.

End WithUnicode.

End NormalizeFacts.

(** The ASCII tables satisfy the two facts. *)
Lemma ascii_tables_closed : tables_closed ascii_unicode.
Proof.
  split.
  - intros c d e [<- | []] He _ Hw _.
    unfold lower_variants in He. unfold stable. simpl.
    unfold Normalize.is_word in Hw. simpl in Hw.
    destruct (c =? CAPITAL_SIGMA)%N eqn:Hc.
    + destruct He as [<- | [<- | []]]; vm_compute in Hw; discriminate.
    + simpl in He. apply N.eqb_neq in Hc. unfold CAPITAL_SIGMA in *.
      unfold ascii_upper in *.
      destruct (65 <=? c)%N eqn:H1; destruct (c <=? 90)%N eqn:H2;
        simpl in He; destruct He as [<- | []];
        repeat split; try assumption; try reflexivity;
        try (rewrite ?H1, ?H2; reflexivity).
      * apply N.leb_le in H1, H2.
        destruct (65 <=? c + 32)%N eqn:H3; destruct (c + 32 <=? 90)%N eqn:H4;
          try reflexivity. apply N.leb_le in H4. lia.
      * apply N.leb_le in H2. lia.
  - reflexivity.
  - repeat split. discriminate.
Qed.

(** On ASCII texts the normalization is idempotent without condition. *)
Lemma normalize_text_idempotent_ascii (x : text) :
  Normalize.normalize_text ascii_unicode
    (Normalize.normalize_text ascii_unicode x)
  = Normalize.normalize_text ascii_unicode x.
Proof.
  rewrite !NormalizeFacts.normalize_text_pipeline.
  unfold Spec.pipeline at 2 3.
  apply NormalizeFacts.pipeline_join; [exact ascii_tables_closed |].
  apply NormalizeFacts.pipeline_words. exact ascii_tables_closed.
Qed.

Lemma normalize_text_idempotent_witness :
  tables_closed ascii_unicode
  /\ Normalize.normalize_text ascii_unicode
       (Normalize.normalize_text ascii_unicode
          (str "Myocardial  Infarction (Heart-Attack), Type_2 "))
     = Normalize.normalize_text ascii_unicode
         (str "Myocardial  Infarction (Heart-Attack), Type_2 ").
Proof.
  split.
  - exact ascii_tables_closed.
  - apply (NormalizeFacts.normalize_text_idempotent ascii_unicode ascii_tables_closed).
Defined.

(** ** Lists, slices and sorting *)

Module ListFacts.

Lemma In_firstn_inv {A} (x : A) n l : In x (firstn n l) -> In x l.
Proof.
  revert l; induction n as [|n IH]; intros [|y l]; simpl; try tauto.
  intros [H | H]; auto.
Qed.

Lemma In_skipn_inv {A} (x : A) n l : In x (skipn n l) -> In x l.
Proof.
  revert l; induction n as [|n IH]; intros [|y l]; simpl; try tauto.
  intros H; auto.
Qed.

Lemma slice_to_In {A} (x : A) l k : In x (slice_to l k) -> In x l.
Proof. unfold slice_to. destruct (0 <=? k)%Z; apply In_firstn_inv. Qed.

Lemma slice_1_to_In {A} (x : A) l k : In x (slice_1_to l k) -> In x l.
Proof.
  unfold slice_1_to. intros H. apply In_skipn_inv in H.
  eapply slice_to_In; exact H.
Qed.

Lemma insert_desc_In {A} (key : A -> Q) x y l :
  In y (insert_desc key x l) <-> y = x \/ In y l.
Proof.
  induction l as [|z l IH]; simpl.
  - intuition congruence.
  - destruct (Qltb (key x) (key z)); simpl; rewrite ?IH; intuition congruence.
Qed.

Lemma sort_desc_In {A} (key : A -> Q) y l :
  In y (sort_desc key l) <-> In y l.
Proof.
  induction l as [|x l IH]; simpl; [tauto |].
  rewrite insert_desc_In, IH. intuition congruence.
Qed.

Lemma sort_desc_nonempty {A} (key : A -> Q) l :
  l <> [] -> sort_desc key l <> [].
Proof.
  destruct l as [|x l]; [congruence |]. intros _ E.
  assert (H : In x (sort_desc key (x :: l)))
    by (apply sort_desc_In; left; reflexivity).
  rewrite E in H. contradiction.
Qed.

End ListFacts.

(** ** Scores *)

Module ScoreFacts.

Lemma Qltb_true a b : Qltb a b = true <-> a < b.
Proof.
  unfold Qltb. rewrite negb_true_iff. split.
  - intros H. apply Qnot_le_lt. intros Hle.
    apply Qle_bool_iff in Hle. congruence.
  - intros H. destruct (Qle_bool b a) eqn:E; [| reflexivity].
    apply Qle_bool_iff in E. exfalso. exact (Qlt_not_le _ _ H E).
Qed.

Lemma Qltb_false a b : Qltb a b = false <-> b <= a.
Proof.
  unfold Qltb. rewrite negb_false_iff. apply Qle_bool_iff.
Qed.

Lemma py_min_spec a b :
  (b < a /\ py_min a b = b) \/ (a <= b /\ py_min a b = a).
Proof.
  unfold py_min. destruct (Qltb b a) eqn:E.
  - left. split; [apply Qltb_true; exact E | reflexivity].
  - right. split; [apply Qltb_false; exact E | reflexivity].
Qed.

Lemma py_min_le_r a b : py_min a b <= b.
Proof.
  destruct (py_min_spec a b) as [[_ ->] | [H ->]];
    [apply Qle_refl | exact H].
Qed.

Lemma py_min_glb t a b : t <= a -> t <= b -> t <= py_min a b.
Proof.
  intros Ha Hb. destruct (py_min_spec a b) as [[_ ->] | [_ ->]]; assumption.
Qed.

Lemma py_min_Qmin a b : py_min a b == Qmin a b.
Proof.
  destruct (py_min_spec a b) as [[H ->] | [H ->]].
  - symmetry. apply Q.min_r. apply Qlt_le_weak. exact H.
  - symmetry. apply Q.min_l. exact H.
Qed.

Lemma py_max3_spec a b c :
  let m := py_max3 a b c in
  a <= m /\ b <= m /\ c <= m /\ (m = a \/ m = b \/ m = c).
Proof.
  unfold py_max3.
  destruct (Qltb a b) eqn:E1.
  - apply Qltb_true in E1. destruct (Qltb b c) eqn:E2.
    + apply Qltb_true in E2. repeat split; auto.
      * apply Qlt_le_weak. eapply Qlt_trans; eassumption.
      * apply Qlt_le_weak; assumption.
      * apply Qle_refl.
    + apply Qltb_false in E2. repeat split; auto.
      * apply Qlt_le_weak; assumption.
      * apply Qle_refl.
  - apply Qltb_false in E1. destruct (Qltb a c) eqn:E2.
    + apply Qltb_true in E2. repeat split; auto.
      * apply Qlt_le_weak; assumption.
      * eapply Qle_trans; [exact E1 | apply Qlt_le_weak; assumption].
      * apply Qle_refl.
    + apply Qltb_false in E2. repeat split; auto. apply Qle_refl.
Qed.

Lemma py_max3_Qmax a b c : py_max3 a b c == Qmax a (Qmax b c).
Proof.
  destruct (py_max3_spec a b c) as [Ha [Hb [Hc Hm]]].
  apply Qle_antisym.
  - destruct Hm as [-> | [-> | ->]].
    + apply Q.le_max_l.
    + eapply Qle_trans; [apply Q.le_max_l | apply Q.le_max_r].
    + eapply Qle_trans; [apply Q.le_max_r | apply Q.le_max_r].
  - apply Q.max_lub; [exact Ha | apply Q.max_lub; assumption].
Qed.

End ScoreFacts.

(** ** Resolution to standard concepts *)

Module ResolutionFacts.

Import Database Search ListFacts.

Lemma is_S_eq (flag : option text) : is_S flag = true <-> flag = Some (str "S").
Proof.
  destruct flag as [t |]; simpl.
  - rewrite NormalizeFacts.text_eqb_eq. split; congruence.
  - split; discriminate.
Qed.

Lemma distinct_In r : forall rows seen, In r (distinct seen rows) -> In r rows.
Proof.
  induction rows as [|x rows IH]; simpl; intros seen H; [contradiction |].
  destruct (existsb (MapsTo_eqb x) seen).
  - right. eapply IH; exact H.
  - destruct H as [H | H]; [left; exact H | right; eapply IH; exact H].
Qed.

(** Every row of the built lookup table points to a valid standard
    concept of the concept table. *)
Lemma _create_maps_to_lookup_target concepts relationships r :
  In r (_create_maps_to_lookup concepts relationships) ->
  exists target,
    In target concepts
    /\ concept_id (info target) = standard_concept_id r
    /\ standard_concept (info target) = Some (str "S")
    /\ invalid_reason target = None.
Proof.
  unfold _create_maps_to_lookup. intros H. apply distinct_In in H.
  apply in_flat_map in H. destruct H as [cr [_ H]].
  apply in_flat_map in H. destruct H as [target [Ht H]].
  destruct (_ && _) eqn:E; [| contradiction].
  destruct H as [<- | []]. simpl.
  repeat (apply andb_true_iff in E; destruct E as [E ?]).
  exists target. repeat split; try assumption.
  - apply is_S_eq. assumption.
  - destruct (invalid_reason target); [discriminate | reflexivity].
Qed.

Lemma _create_match_db (s1 s2 : ConceptSearcher) cd conf mt txt :
  db s1 = db s2 ->
  _create_match s1 cd conf mt txt = _create_match s2 cd conf mt txt.
Proof. unfold _create_match. intros ->. reflexivity. Qed.

(** The invariant on one created match. *)
Lemma _create_match_resolution (self : ConceptSearcher) cd conf mt txt :
  maps_to_built (db self) ->
  let m := _create_match self cd conf mt txt in
  match Models.resolution_status m with
  | Models.ALREADY_STANDARD =>
      Models.get_analytics_concept_id m = Some (Models.concept_id m)
  | Models.MAPPED_TO_STANDARD =>
      exists target,
        In target (Database.concept (db self))
        /\ standard_concept (info target) = Some (str "S")
        /\ Models.standard_concept_id m = Some (concept_id (info target))
        /\ Models.get_analytics_concept_id m
           = Some (concept_id (info target))
  | Models.NO_MAPPING_AVAILABLE =>
      Models.get_analytics_concept_id m = None
  end.
Proof.
  intros Hb. unfold _create_match, Models.get_analytics_concept_id. simpl.
  destruct (is_S (standard_concept (data cd))); simpl; [reflexivity |].
  destruct (get_maps_to (db self) (concept_id (data cd))) as [r |] eqn:E;
    simpl; [| reflexivity].
  unfold get_maps_to in E. apply find_some in E. destruct E as [Hin _].
  rewrite Hb in Hin. apply _create_maps_to_lookup_target in Hin.
  destruct Hin as [target [Ht [Hid [Hs _]]]].
  exists target. rewrite Hid. auto.
Qed.

End ResolutionFacts.

(** ** The dictionary of merged candidates *)

Module MergeFacts.

Import Database Search Spec.

Lemma fold_left_invariant {A B} (f : A -> B -> A) (I : A -> Prop) l :
  (forall a b, In b l -> I a -> I (f a b)) ->
  forall a, I a -> I (fold_left f l a).
Proof.
  induction l as [|b l IH]; simpl; intros Hf a Ha; [exact Ha |].
  apply IH; [intros a' b' Hb'; apply Hf; right; exact Hb' |].
  apply Hf; [left; reflexivity | exact Ha].
Qed.

Lemma dict_set_In d k v kv :
  In kv (dict_set d k v) -> kv = (k, v) \/ In kv d.
Proof.
  induction d as [|[k' v'] d IH]; simpl.
  - intros [H | []]; auto.
  - destruct (Z.eqb k' k) eqn:E; simpl.
    + apply Z.eqb_eq in E. subst k'. intros [H | H]; auto.
    + intros [H | H]; auto. destruct (IH H); auto.
Qed.

Lemma dict_lookup_In d k v : dict_lookup d k = Some v -> In (k, v) d.
Proof.
  induction d as [|[k' v'] d IH]; simpl; [discriminate |].
  destruct (Z.eqb k' k) eqn:E.
  - apply Z.eqb_eq in E. intros H; inversion H; subst. left; reflexivity.
  - intros H. right. apply IH. exact H.
Qed.

Lemma merge_concept fz sem kc :
  In kc (merge fz sem) -> from_results fz sem kc.
Proof.
  unfold merge. revert kc.
  apply (fold_left_invariant add_semantic
           (fun d => forall kc, In kc d -> from_results fz sem kc)).
  - intros d r Hr Hd kc Hkc. unfold add_semantic in Hkc.
    destruct (dict_lookup d (concept_id (data (concept r)))) as [c |] eqn:E;
      apply dict_set_In in Hkc; destruct Hkc as [-> | Hkc]; auto.
    + apply dict_lookup_In in E. destruct (Hd _ E) as [H | H]; [left | right];
        exact H.
    + right. exists r. split; [exact Hr | reflexivity].
  - apply (fold_left_invariant
             (fun d r => dict_set d (concept_id (data (concept r)))
                           (fuzzy_candidate r))
             (fun d => forall kc, In kc d -> from_results fz sem kc)).
    + intros d r Hr Hd kc Hkc. apply dict_set_In in Hkc.
      destruct Hkc as [-> | Hkc]; auto.
      left. exists r. split; [exact Hr | reflexivity].
    + intros kc [].
Qed.

(** *** The scores of a merged candidate *)

Lemma dict_lookup_set d k v k' :
  dict_lookup (dict_set d k v) k'
  = if Z.eqb k k' then Some v else dict_lookup d k'.
Proof.
  induction d as [|[k0 v0] d IH]; simpl.
  - destruct (Z.eqb k k'); reflexivity.
  - destruct (Z.eqb k0 k) eqn:E0; simpl.
    + apply Z.eqb_eq in E0. subst k0.
      destruct (Z.eqb k k'); reflexivity.
    + rewrite IH. destruct (Z.eqb k0 k') eqn:E1; [| reflexivity].
      apply Z.eqb_eq in E1. subst k0. rewrite Z.eqb_sym, E0. reflexivity.
Qed.

Lemma dict_set_keys d k v :
  NoDup (map fst d) -> NoDup (map fst (dict_set d k v)).
Proof.
  induction d as [|[k0 v0] d IH]; simpl; intros H.
  - constructor; [intros [] | constructor].
  - inversion H as [|? ? Hnin Hd]; subst.
    destruct (Z.eqb k0 k) eqn:E; simpl.
    + constructor; assumption.
    + constructor; [| apply IH; exact Hd].
      intros Hin. apply in_map_iff in Hin. destruct Hin as [[k1 v1] [E1 Hin]].
      simpl in E1. subst k1. apply dict_set_In in Hin.
      destruct Hin as [Hin | Hin].
      * inversion Hin; subst. rewrite Z.eqb_refl in E. discriminate.
      * apply Hnin. apply in_map_iff. exists (k0, v1). auto.
Qed.

Lemma dict_In_lookup d k v :
  NoDup (map fst d) -> In (k, v) d -> dict_lookup d k = Some v.
Proof.
  induction d as [|[k0 v0] d IH]; simpl; intros Hn Hin; [contradiction |].
  inversion Hn as [|? ? Hnin Hd]; subst.
  destruct Hin as [Hin | Hin].
  - inversion Hin; subst. rewrite Z.eqb_refl. reflexivity.
  - destruct (Z.eqb k0 k) eqn:E; [| apply IH; assumption].
    apply Z.eqb_eq in E. subst k0. exfalso. apply Hnin.
    apply in_map_iff. exists (k, v). auto.
Qed.

Lemma score_of_app rs r k :
  score_of (rs ++ [r]) k
  = if Z.eqb (concept_id (data (concept r))) k then Some (score r)
    else score_of rs k.
Proof. unfold score_of. rewrite fold_left_app. reflexivity. Qed.

Lemma fuzzy_dict_app fz r :
  fuzzy_dict (fz ++ [r])
  = dict_set (fuzzy_dict fz) (concept_id (data (concept r)))
      (fuzzy_candidate r).
Proof. unfold fuzzy_dict. rewrite fold_left_app. reflexivity. Qed.

Lemma merge_app fz sem r :
  merge fz (sem ++ [r]) = add_semantic (merge fz sem) r.
Proof. unfold merge. rewrite fold_left_app. reflexivity. Qed.

Lemma fuzzy_dict_lookup fz k :
  match dict_lookup (fuzzy_dict fz) k with
  | Some c => merged fz [] k c
  | None => score_of fz k = None
  end.
Proof.
  induction fz as [|r fz IH] using rev_ind; [reflexivity |].
  rewrite fuzzy_dict_app, dict_lookup_set.
  unfold merged, fuzzy_norm in *. rewrite score_of_app.
  destruct (Z.eqb (concept_id (data (concept r))) k) eqn:E.
  - apply Z.eqb_eq in E. simpl. auto.
  - exact IH.
Qed.

Lemma merge_lookup fz sem k :
  match dict_lookup (merge fz sem) k with
  | Some c => merged fz sem k c
  | None => score_of fz k = None /\ score_of sem k = None
  end.
Proof.
  induction sem as [|r sem IH] using rev_ind.
  - change (merge fz []) with (fuzzy_dict fz).
    pose proof (fuzzy_dict_lookup fz k) as H.
    destruct (dict_lookup (fuzzy_dict fz) k); [exact H | auto].
  - rewrite merge_app. unfold add_semantic.
    set (id := concept_id (data (concept r))).
    assert (Hl : dict_lookup (merge fz (sem ++ [r])) k
                 = if Z.eqb id k
                   then Some
                          match dict_lookup (merge fz sem) id with
                          | Some c =>
                              {| cand_concept := cand_concept c;
                                 fuzzy_score := fuzzy_score c;
                                 semantic_score := score r;
                                 match_type := match_type c |}
                          | None =>
                              {| cand_concept := concept r;
                                 fuzzy_score := 0;
                                 semantic_score := score r;
                                 match_type := Models.SEMANTIC |}
                          end
                   else dict_lookup (merge fz sem) k).
    { rewrite merge_app. unfold add_semantic. fold id.
      destruct (dict_lookup (merge fz sem) id); apply dict_lookup_set. }
    rewrite merge_app in Hl. unfold add_semantic in Hl. fold id in Hl.
    rewrite Hl. clear Hl.
    unfold merged, semantic_norm in *. rewrite score_of_app. fold id.
    destruct (Z.eqb id k) eqn:E.
    + apply Z.eqb_eq in E. rewrite E.
      destruct (dict_lookup (merge fz sem) k) as [c |]; simpl.
      * destruct IH as [H1 [H2 _]]. auto.
      * destruct IH as [H1 _]. unfold fuzzy_norm. rewrite H1. auto.
    + exact IH.
Qed.

Lemma merge_keys fz sem : NoDup (map fst (merge fz sem)).
Proof.
  unfold merge.
  apply (fold_left_invariant add_semantic (fun d => NoDup (map fst d))).
  - intros d r _ Hd. unfold add_semantic.
    destruct (dict_lookup d _); apply dict_set_keys; exact Hd.
  - apply (fold_left_invariant
             (fun d r => dict_set d (concept_id (data (concept r)))
                           (fuzzy_candidate r))
             (fun d => NoDup (map fst d))).
    + intros d r _ Hd. apply dict_set_keys; exact Hd.
    + constructor.
Qed.

Lemma merge_scores fz sem k c :
  In (k, c) (merge fz sem) -> merged fz sem k c.
Proof.
  intros H. apply (dict_In_lookup _ _ _ (merge_keys fz sem)) in H.
  pose proof (merge_lookup fz sem k) as Hl. rewrite H in Hl. exact Hl.
Qed.

Lemma score_of_In rs k s :
  score_of rs k = Some s -> exists r, In r rs /\ score r = s.
Proof.
  induction rs as [|r rs IH] using rev_ind; [discriminate |].
  rewrite score_of_app.
  destruct (Z.eqb _ k).
  - intros H; inversion H; subst. exists r. split; [| reflexivity].
    apply in_or_app. right. left. reflexivity.
  - intros H. destruct (IH H) as [r0 [Hin Hs]]. exists r0.
    split; [apply in_or_app; left; exact Hin | exact Hs].
Qed.

(** A fuzzy candidate is a name match exactly when its row is a name; a
    concept row, which has no source type, gives a semantic candidate. *)
Lemma merge_match_type fz sem kc :
  (forall r, In r sem -> data_source_type (concept r) = None) ->
  In kc (merge fz sem) ->
  is_name (data_source_type (cand_concept (snd kc)))
  = match match_type (snd kc) with
    | Models.FUZZY_NAME => true
    | _ => false
    end.
Proof.
  intros Hsem. unfold merge. revert kc.
  apply (fold_left_invariant add_semantic
           (fun d => forall kc, In kc d ->
              is_name (data_source_type (cand_concept (snd kc)))
              = match match_type (snd kc) with
                | Models.FUZZY_NAME => true
                | _ => false
                end)).
  - intros d r Hr Hd kc Hkc. unfold add_semantic in Hkc.
    destruct (dict_lookup d (concept_id (data (concept r)))) as [c |] eqn:E;
      apply dict_set_In in Hkc; destruct Hkc as [-> | Hkc]; auto; simpl.
    + apply dict_lookup_In in E. exact (Hd _ E).
    + rewrite (Hsem r Hr). reflexivity.
  - apply (fold_left_invariant
             (fun d r => dict_set d (concept_id (data (concept r)))
                           (fuzzy_candidate r))
             (fun d => forall kc, In kc d ->
                is_name (data_source_type (cand_concept (snd kc)))
                = match match_type (snd kc) with
                  | Models.FUZZY_NAME => true
                  | _ => false
                  end)).
    + intros d r Hr Hd kc Hkc. apply dict_set_In in Hkc.
      destruct Hkc as [-> | Hkc]; auto. simpl.
      destruct (is_name (data_source_type (concept r))); reflexivity.
    + intros kc [].
Qed.

Lemma fuzzy_dict_match_type fz kc :
  In kc (fuzzy_dict fz) -> match_type (snd kc) <> Models.SEMANTIC.
Proof.
  unfold fuzzy_dict. revert kc.
  apply (fold_left_invariant
           (fun d r => dict_set d (concept_id (data (concept r)))
                         (fuzzy_candidate r))
           (fun d => forall kc, In kc d ->
                       match_type (snd kc) <> Models.SEMANTIC)).
  - intros d r _ Hd kc Hkc. apply dict_set_In in Hkc.
    destruct Hkc as [-> | Hkc]; auto. simpl.
    destruct (is_name _); discriminate.
  - intros kc [].
Qed.

End MergeFacts.

(** ** The tiers of the search *)

Module SearchFacts.

Import Config Database Search ListFacts Spec.

(** The statement of [_exact_match] is one that the engine accepts. *)
Lemma _exact_match_rows self nq d :
  exact_match (db self) nq d 10 = Some (_exact_match self nq d).
Proof. reflexivity. Qed.

Lemma exact_match_In self nq d c :
  In c (_exact_match self nq d) ->
  exists e, In e (concept_search (db self)) /\ c = exact_row e
            /\ search_text_normalized e = nq /\ domain_clause d e = true.
Proof.
  change (_exact_match self nq d)
    with (map exact_row
            (firstn 10
               (filter (fun e => text_eqb (search_text_normalized e) nq
                                 && domain_clause d e)
                  (concept_search (db self))))).
  intros H. apply in_map_iff in H.
  destruct H as [e [<- H]]. apply In_firstn_inv in H.
  apply filter_In in H. destruct H as [He H].
  apply andb_true_iff in H. destruct H as [H1 H2].
  apply NormalizeFacts.text_eqb_eq in H1. exists e. auto.
Qed.

Lemma exact_match_nonempty self nq d e :
  In e (concept_search (db self)) -> search_text_normalized e = nq ->
  domain_clause d e = true -> _exact_match self nq d <> [].
Proof.
  intros He Hn Hd.
  change (_exact_match self nq d)
    with (map exact_row
            (firstn 10
               (filter (fun e => text_eqb (search_text_normalized e) nq
                                 && domain_clause d e)
                  (concept_search (db self))))).
  assert (H : In e (filter
                 (fun e => text_eqb (search_text_normalized e) nq
                           && domain_clause d e)
                 (concept_search (db self)))).
  { apply filter_In. split; [exact He |].
    rewrite Hn, NormalizeFacts.text_eqb_refl, Hd. reflexivity. }
  destruct (filter _ (concept_search (db self))) as [|x l]; [contradiction |].
  simpl. discriminate.
Qed.

Lemma get_candidates_In db tokens d mo limit cs c :
  get_candidates_by_token_overlap db tokens d mo limit = Some cs ->
  In c cs ->
  exists e, In e (concept_search db) /\ c = overlap_row e
            /\ domain_clause d e = true.
Proof.
  unfold get_candidates_by_token_overlap, sql_limit.
  destruct tokens as [|t ts].
  - intros E; inversion E; subst. contradiction.
  - destruct (_ && _); [| discriminate].
    destruct (_ || _)%bool; [discriminate |]. cbn [option_map].
    intros E; inversion E; subst; clear E.
    intros H. apply in_map_iff in H. destruct H as [e [<- H]].
    apply In_firstn_inv in H. apply filter_In in H. destruct H as [He H].
    apply andb_true_iff in H. destruct H as [_ H]. exists e. auto.
Qed.

Lemma _select_best_match_In self ms d b :
  _select_best_match self ms d = Some b -> In b ms.
Proof.
  unfold _select_best_match.
  destruct ms as [|m [|m' ms]].
  - simpl. discriminate.
  - intros E; inversion E; subst. left; reflexivity.
  - set (scored := map _ (m :: m' :: ms)).
    destruct (sort_desc fst scored) as [|first rest] eqn:E; [discriminate |].
    intros H; inversion H; subst; clear H.
    assert (Hin : In first (sort_desc fst scored))
      by (rewrite E; left; reflexivity).
    apply sort_desc_In in Hin. unfold scored in Hin.
    apply in_map_iff in Hin. destruct Hin as [x [<- Hx]]. exact Hx.
Qed.

Lemma _select_best_match_some self ms d :
  ms <> [] -> exists b, _select_best_match self ms d = Some b.
Proof.
  unfold _select_best_match.
  destruct ms as [|m [|m' ms]]; [congruence | eauto |]. intros _.
  set (scored := map _ (m :: m' :: ms)).
  destruct (sort_desc fst scored) as [|first rest] eqn:E; [| eauto].
  exfalso. revert E. apply sort_desc_nonempty. discriminate.
Qed.

Section WithPlatform.

Variable P : Platform.

Lemma extract_score q choices limit cutoff t s i :
  In (t, s, i) (extract P q choices limit cutoff) -> s = WRatio P q t.
Proof.
  unfold extract. intros H. apply In_firstn_inv in H.
  apply sort_desc_In in H. apply filter_In in H. destruct H as [H _].
  apply in_map_iff in H. destruct H as [[j c] [E _]]. simpl in E.
  inversion E; subst. reflexivity.
Qed.

Lemma _fuzzy_match_In self nq tokens d fz r :
  _fuzzy_match P self nq tokens d = Some fz -> In r fz ->
  (exists e, In e (concept_search (db self)) /\ concept r = overlap_row e
             /\ domain_clause d e = true)
  /\ exists t, score r = WRatio P nq t.
Proof.
  unfold _fuzzy_match.
  destruct (get_candidates_by_token_overlap _ _ _ _ _) as [cs |] eqn:E;
    [| discriminate].
  destruct cs as [|c0 cs]; [intros H; inversion H; subst; contradiction |].
  intros H; inversion H; subst; clear H. intros Hr.
  apply sort_desc_In in Hr. apply in_flat_map in Hr.
  destruct Hr as [[[t s] i] [Hm Hr]]. simpl in Hr.
  destruct (nth_error (c0 :: cs) i) as [c |] eqn:En; [| contradiction].
  destruct Hr as [<- | []]. simpl. split.
  - apply nth_error_In in En.
    eapply get_candidates_In; [exact E | exact En].
  - exists t. eapply extract_score; exact Hm.
Qed.

Lemma _get_semantic_search_state self :
  db (snd (_get_semantic_search P self)) = db self
  /\ config (snd (_get_semantic_search P self)) = config self.
Proof.
  unfold _get_semantic_search.
  destruct (_semantic_search self); [auto |].
  destruct (enable_semantic self); [| auto].
  destruct (embeddings P); auto.
Qed.

Lemma get_concept_by_id_In db id c :
  get_concept_by_id db id = Some c ->
  exists row, In row (Database.concept db) /\ c = concept_row row.
Proof.
  unfold get_concept_by_id.
  destruct (find _ (Database.concept db)) as [row |] eqn:E; [| discriminate].
  intros H; inversion H; subst. apply find_some in E.
  exists row. split; [tauto | reflexivity].
Qed.

Lemma _semantic_match_spec self q d k :
  db (snd (_semantic_match P self q d k)) = db self
  /\ config (snd (_semantic_match P self q d k)) = config self
  /\ forall rs, fst (_semantic_match P self q d k) = Returned rs ->
       forall r, In r rs -> semantic_result (db self) d r.
Proof.
  unfold _semantic_match.
  pose proof (_get_semantic_search_state self) as [Hdb Hcfg].
  destruct (_get_semantic_search P self) as [sem s1]. simpl in Hdb, Hcfg.
  destruct sem as [sem |]; simpl.
  - destruct (nearest sem q k) as [results | e]; simpl.
    + split; [exact Hdb | split; [exact Hcfg |]].
      intros rs E r Hr. inversion E; subst; clear E.
      apply in_flat_map in Hr. destruct Hr as [[id sc] [_ H]].
      simpl in H. rewrite Hdb in H.
      destruct (get_concept_by_id (db self) id) as [c |] eqn:E;
        [| contradiction].
      destruct (truthy d && _) eqn:Ed; [contradiction |].
      destruct H as [<- | []]. split; simpl.
      * eapply get_concept_by_id_In; exact E.
      * intros Ht. rewrite Ht in Ed. simpl in Ed.
        apply negb_false_iff in Ed.
        apply NormalizeFacts.text_eqb_eq in Ed. rewrite Ed.
        destruct d as [d |]; [reflexivity | discriminate].
    + split; [exact Hdb | split; [exact Hcfg |]]. discriminate.
  - split; [exact Hdb | split; [exact Hcfg |]].
    intros rs E; inversion E; subst. contradiction.
Qed.

Lemma semantic_tier_spec self nq d k :
  db (snd (semantic_tier P self nq d k)) = db self
  /\ config (snd (semantic_tier P self nq d k)) = config self
  /\ forall r, In r (fst (fst (semantic_tier P self nq d k))) ->
       semantic_result (db self) d r.
Proof.
  unfold semantic_tier.
  destruct (enable_semantic self);
    [| simpl; split; [| split]; try reflexivity; contradiction].
  pose proof (_get_semantic_search_state self) as [Hdb Hcfg].
  destruct (_get_semantic_search P self) as [sem s1]. simpl in Hdb, Hcfg.
  destruct sem as [sem |];
    [| simpl; split; [| split]; try assumption; contradiction].
  destruct (is_available sem);
    [| simpl; split; [| split]; try assumption; contradiction].
  pose proof (_semantic_match_spec s1 nq d (k * 2)) as [Hdb2 [Hcfg2 Hrs]].
  destruct (_semantic_match P s1 nq d (k * 2)) as [[rs | e] s2];
    simpl in *.
  - split; [congruence | split; [congruence |]].
    intros r Hr. rewrite <- Hdb. exact (Hrs rs eq_refl r Hr).
  - split; [congruence | split; [congruence |]]. contradiction.
Qed.

(** *** The three ways in which [search] returns *)

Lemma early_exit_spec self q nq d best conf nt st r s' :
  early_exit self q nq d best conf nt st = Some (r, s') ->
  s' = self /\ Models.success r = true /\ Models.candidates r = []
  /\ Models.warnings r = [] /\ Models.domain_filter r = d
  /\ exists mt txt,
       Models.best_match r = Some (_create_match self best conf mt txt).
Proof.
  unfold early_exit.
  destruct (data_source_type best) as [src |]; [| discriminate].
  destruct (data_search_text best) as [txt |]; [| discriminate].
  intros E; inversion E; subst; clear E. simpl.
  repeat (split; [reflexivity |]). eauto.
Qed.

(** The only match of an early exit. *)
Ltac exit_match H Hm :=
  let Hc := fresh "Hc" in
  let Hb := fresh "Hb" in
  let mt := fresh "mt" in
  let txt := fresh "txt" in
  apply early_exit_spec in H;
  destruct H as [_ [_ [Hc [_ [_ [mt [txt Hb]]]]]]];
  unfold returned_matches in Hm; rewrite Hb, Hc in Hm;
  destruct Hm as [<- | []].

Lemma search_cases self q d k r s' :
  search P self q d k = Some (r, s') ->
  let nq := Normalize.normalize_text (unicode P) q in
  let top_k := with_default 5%Z k in
  (exists best,
     In best (_exact_match self nq d)
     /\ early_exit self q nq d best 1 Models.EXACT_NAME Models.EXACT_SYNONYM
        = Some (r, s'))
  \/ (exists best_fuzzy rest,
        _exact_match self nq d = []
        /\ _fuzzy_match P self nq (Normalize.tokenize (unicode P) nq) d
           = Some (best_fuzzy :: rest)
        /\ high_confidence_fuzzy self (best_fuzzy :: rest) = Some best_fuzzy
        /\ early_exit self q nq d (concept best_fuzzy)
             (score best_fuzzy / 100) Models.FUZZY_NAME Models.FUZZY_SYNONYM
           = Some (r, s'))
  \/ (exists fz,
        _exact_match self nq d = []
        /\ _fuzzy_match P self nq (Normalize.tokenize (unicode P) nq) d
           = Some fz
        /\ high_confidence_fuzzy self fz = None
        /\ s' = snd (semantic_tier P self nq d top_k)
        /\ r = rank_and_resolve P s' q nq d top_k fz
                 (fst (fst (semantic_tier P self nq d top_k)))
                 (snd (fst (semantic_tier P self nq d top_k)))).
Proof.
  intros H. cbv zeta. unfold search in H.
  set (nq := Normalize.normalize_text (unicode P) q) in *.
  set (top_k := with_default 5%Z k) in *. cbv zeta in H.
  destruct (_exact_match self nq d) as [|x xs] eqn:Ex.
  - right.
    destruct (_fuzzy_match P self nq _ d) as [fz |] eqn:Ef; [| discriminate].
    destruct (high_confidence_fuzzy self fz) as [bf |] eqn:Eh.
    + left. unfold high_confidence_fuzzy in Eh.
      destruct fz as [|bf' rest]; [discriminate |].
      destruct (Qle_bool _ (score bf')) eqn:Es; [| discriminate].
      inversion Eh; subst. exists bf, rest. simpl. rewrite Es. auto.
    + right. exists fz.
      destruct (semantic_tier P self nq d top_k) as [[sem w] s1].
      inversion H; subst. auto.
  - left.
    destruct (_select_best_match self (x :: xs) d) as [best |] eqn:Eb;
      [| discriminate].
    exists best. split; [| exact H].
    eapply _select_best_match_In; exact Eb.
Qed.

Lemma rank_and_resolve_matches self q nq d top_k fz sem w m :
  In m (returned_matches (rank_and_resolve P self q nq d top_k fz sem w)) ->
  exists kc,
    In kc (merge fz sem)
    /\ m = resolve_candidate self (snd kc, combined_score self (snd kc)).
Proof.
  unfold rank_and_resolve.
  destruct (_merge_and_rank self fz sem d top_k) as [|first rest] eqn:E;
    [intros [] |].
  assert (Hall : forall c, In c (first :: rest) ->
            exists kc, In kc (merge fz sem)
                       /\ c = (snd kc, combined_score self (snd kc))).
  { rewrite <- E. unfold _merge_and_rank. intros c Hc.
    apply slice_to_In in Hc. apply sort_desc_In in Hc.
    apply in_map_iff in Hc. destruct Hc as [kc [<- Hkc]]. eauto. }
  assert (Hm : In m (map (resolve_candidate self) (first :: rest)) ->
            exists kc, In kc (merge fz sem)
              /\ m = resolve_candidate self
                       (snd kc, combined_score self (snd kc))).
  { intros Hin. apply in_map_iff in Hin. destruct Hin as [c [<- Hc]].
    destruct (Hall c Hc) as [kc [Hkc ->]]. eauto. }
  unfold returned_matches. simpl Models.best_match. simpl Models.candidates.
  intros [<- | Hin].
  - apply Hm. left. reflexivity.
  - apply Hm. destruct (1 <? _)%nat; [| contradiction].
    eapply slice_1_to_In; exact Hin.
Qed.

Lemma rank_and_resolve_success self q nq d top_k fz sem w :
  let r := rank_and_resolve P self q nq d top_k fz sem w in
  Models.success r = true <->
  exists m, Models.best_match r = Some m
            /\ Qle_bool (confidence_threshold (config self))
                 (Models.confidence m) = true.
Proof.
  unfold rank_and_resolve.
  destruct (_merge_and_rank self fz sem d top_k) as [|first rest]; simpl.
  - split; [discriminate | intros [m [E _]]; discriminate].
  - split.
    + intros H. eexists. split; [reflexivity | exact H].
    + intros [m [E H]]. inversion E; subst. exact H.
Qed.

(** Every returned match was made by [_create_match] on this store. *)
Lemma search_matches_created self q d k r s' m :
  search P self q d k = Some (r, s') -> In m (returned_matches r) ->
  exists cd conf mt txt, m = _create_match self cd conf mt txt.
Proof.
  intros H Hm. apply search_cases in H.
  destruct H as [[best [_ H]] | [[bf [rest [_ [_ [_ H]]]]] | [fz [_ [_ [_ [Hs Hr]]]]]]].
  - exit_match H Hm. eauto.
  - exit_match H Hm. eauto.
  - rewrite Hr in Hm. apply rank_and_resolve_matches in Hm.
    destruct Hm as [kc [_ ->]]. unfold resolve_candidate.
    do 4 eexists. apply ResolutionFacts._create_match_db.
    rewrite Hs. apply semantic_tier_spec.
Qed.

(** C1.  Canonicalization invariant: on a store whose Maps-To table was
    built by [_create_maps_to_lookup], every match that a lookup returns
    satisfies: if its status is already-standard, its analytics id is its
    own concept id; if it is mapped-to-standard, its analytics id is the
    resolved standard concept id, and that id is the id of a concept whose
    standard flag is 'S'; if no mapping is available, the analytics id is
    absent. *)
Theorem canonicalization_invariant self q d k r s' m :
  maps_to_built (db self) ->
  search P self q d k = Some (r, s') ->
  In m (returned_matches r) ->
  match Models.resolution_status m with
  | Models.ALREADY_STANDARD =>
      Models.get_analytics_concept_id m = Some (Models.concept_id m)
  | Models.MAPPED_TO_STANDARD =>
      exists target,
        In target (Database.concept (db self))
        /\ standard_concept (info target) = Some (str "S")
        /\ Models.standard_concept_id m = Some (concept_id (info target))
        /\ Models.get_analytics_concept_id m
           = Some (concept_id (info target))
  | Models.NO_MAPPING_AVAILABLE =>
      Models.get_analytics_concept_id m = None
  end.
Proof.
  intros Hb H Hm.
  destruct (search_matches_created _ _ _ _ _ _ _ H Hm) as [cd [conf [mt [txt ->]]]].
  apply (ResolutionFacts._create_match_resolution self cd conf mt txt Hb).
Qed.

(** C2.  A query whose normalized form is the stored normalized text of
    a search entry (of the requested domain, when a domain filter is given)
    is answered with success and a best match of confidence exactly 1. *)
Theorem exact_match_confidence self q d k e :
  In e (concept_search (db self)) ->
  search_text_normalized e = Normalize.normalize_text (unicode P) q ->
  (forall f, d = Some f -> domain_id (parent e) = f) ->
  exists r s' m,
    search P self q d k = Some (r, s')
    /\ Models.success r = true
    /\ Models.best_match r = Some m
    /\ Models.confidence m = 1.
Proof.
  intros He Hn Hd.
  assert (Hc : domain_clause d e = true).
  { unfold domain_clause. destruct (truthy d); [| reflexivity].
    destruct d as [f |]; [| reflexivity].
    rewrite (Hd f eq_refl). apply NormalizeFacts.text_eqb_refl. }
  pose proof (exact_match_nonempty self _ d e He Hn Hc) as Hne.
  unfold search. fold (_exact_match self (Normalize.normalize_text (unicode P) q) d) in Hne.
  set (nq := Normalize.normalize_text (unicode P) q) in *. cbv zeta.
  destruct (_exact_match self nq d) as [|x xs] eqn:Ex; [congruence |].
  destruct (_select_best_match_some self (x :: xs) d Hne) as [best Hb].
  rewrite Hb.
  assert (Hin : In best (_exact_match self nq d))
    by (rewrite Ex; eapply _select_best_match_In; exact Hb).
  apply exact_match_In in Hin. destruct Hin as [e' [_ [-> _]]].
  unfold early_exit. simpl.
  do 3 eexists. split; [reflexivity |]. simpl. auto.
Qed.

(** C3 (as amended).  When the confidence threshold is at most 1 and at
    most the fuzzy high-confidence score divided by 100, a result is
    successful if and only if it has a best match whose confidence reaches
    the threshold, on every path of the search. *)
Theorem success_threshold self q d k r s' :
  confidence_threshold (config self) <= 1 ->
  confidence_threshold (config self) * 100
    <= fuzzy_high_confidence (config self) ->
  search P self q d k = Some (r, s') ->
  success_iff_threshold (config self) r.
Proof.
  intros H1 Hh H. unfold success_iff_threshold. apply search_cases in H.
  destruct H as [[best [_ H]]
                | [[bf [rest [_ [_ [Hbf H]]]]] | [fz [_ [_ [_ [Hs Hr]]]]]]].
  - apply early_exit_spec in H.
    destruct H as [_ [Hsucc [_ [_ [_ [mt [txt Hb]]]]]]].
    rewrite Hsucc, Hb. split; [| reflexivity]. intros _.
    eexists. split; [reflexivity |]. simpl.
    apply ScoreFacts.py_min_glb; assumption.
  - apply early_exit_spec in H.
    destruct H as [_ [Hsucc [_ [_ [_ [mt [txt Hb]]]]]]].
    rewrite Hsucc, Hb. split; [| reflexivity]. intros _.
    eexists. split; [reflexivity |]. simpl.
    apply ScoreFacts.py_min_glb; [| assumption].
    simpl in Hbf.
    destruct (Qle_bool (fuzzy_high_confidence (config self)) (score bf))
      eqn:E; [| discriminate].
    apply Qle_bool_iff in E.
    apply Qle_shift_div_l; [reflexivity |].
    eapply Qle_trans; eassumption.
  - pose proof (rank_and_resolve_success s' q
                  (Normalize.normalize_text (unicode P) q) d
                  (with_default 5%Z k) fz
                  (fst (fst (semantic_tier P self
                     (Normalize.normalize_text (unicode P) q) d
                     (with_default 5%Z k))))
                  (snd (fst (semantic_tier P self
                     (Normalize.normalize_text (unicode P) q) d
                     (with_default 5%Z k))))) as Hrr.
    cbv zeta in Hrr. rewrite <- Hr in Hrr.
    assert (Hcfg : config s' = config self)
      by (rewrite Hs; apply semantic_tier_spec).
    rewrite Hcfg in Hrr. rewrite Hrr.
    split; intros [m [Hm Hle]]; exists m; (split; [exact Hm |]);
      apply Qle_bool_iff; exact Hle.
Qed.

Lemma domain_clause_some f e :
  f <> [] -> domain_clause (Some f) e = true -> domain_id (parent e) = f.
Proof.
  intros Hf. unfold domain_clause. destruct f as [|c f]; [congruence |].
  simpl. apply NormalizeFacts.text_eqb_eq.
Qed.

(** C6 (as amended).  When a non-empty domain filter is given, every match
    that the search returns, from any tier, has that domain. *)
Theorem domain_filter_respected self q f k r s' :
  f <> [] ->
  search P self q (Some f) k = Some (r, s') ->
  respects_domain_filter f r.
Proof.
  intros Hf H m Hm. apply search_cases in H.
  destruct H as [[best [Hbest H]]
                | [[bf [rest [_ [Hfz [_ H]]]]] | [fz [_ [Hfz [_ [Hs Hr]]]]]]].
  - exit_match H Hm. simpl.
    apply exact_match_In in Hbest. destruct Hbest as [e [_ [-> [_ Hd]]]].
    simpl. apply domain_clause_some; assumption.
  - exit_match H Hm. simpl.
    destruct (_fuzzy_match_In _ _ _ _ _ bf Hfz (or_introl eq_refl))
      as [[e [_ [-> Hd]]] _].
    simpl. apply domain_clause_some; assumption.
  - rewrite Hr in Hm. apply rank_and_resolve_matches in Hm.
    destruct Hm as [kc [Hkc ->]]. simpl.
    apply MergeFacts.merge_concept in Hkc.
    destruct Hkc as [[r0 [Hr0 ->]] | [r0 [Hr0 ->]]].
    + destruct (_fuzzy_match_In _ _ _ _ _ r0 Hfz Hr0) as [[e [_ [-> Hd]]] _].
      simpl. apply domain_clause_some; assumption.
    + destruct (semantic_tier_spec self
                  (Normalize.normalize_text (unicode P) q) (Some f)
                  (with_default 5%Z k)) as [_ [_ Hsem]].
      destruct (Hsem r0 Hr0) as [_ Hd].
      assert (Ht : truthy (Some f) = true)
        by (destruct f; [congruence | reflexivity]).
      specialize (Hd Ht). inversion Hd. reflexivity.
Qed.

(** C7 (as amended).  When the exact, the fuzzy and the semantic tier all
    give no candidate, the search returns an unsuccessful result with no
    best match and no alternates, whose last warning is the text
    "No matches found". *)
Theorem no_matches_found self q d k :
  _exact_match self (Normalize.normalize_text (unicode P) q) d = [] ->
  _fuzzy_match P self (Normalize.normalize_text (unicode P) q)
    (Normalize.tokenize (unicode P)
       (Normalize.normalize_text (unicode P) q)) d = Some [] ->
  fst (fst (semantic_tier P self (Normalize.normalize_text (unicode P) q) d
              (with_default 5%Z k))) = [] ->
  exists r s' w,
    search P self q d k = Some (r, s')
    /\ Models.success r = false
    /\ Models.best_match r = None
    /\ Models.candidates r = []
    /\ Models.warnings r = w ++ [str "No matches found"].
Proof.
  intros He Hf Hs. unfold search. cbv zeta. rewrite He, Hf. simpl.
  destruct (semantic_tier P self _ d (with_default 5%Z k)) as [[sem w] s1].
  simpl in Hs. subst sem.
  eexists. exists s1, w. split; [reflexivity |].
  unfold rank_and_resolve, _merge_and_rank, merge. simpl.
  assert (E : forall z, slice_to (@nil (Candidate * Q)) z = []).
  { intros z. unfold slice_to. destruct (0 <=? z)%Z; apply firstn_nil. }
  rewrite E. simpl. auto.
Qed.

(** *** The fused tier *)

Lemma _get_vocab_weight_config s1 s2 v dm :
  config s1 = config s2 -> _get_vocab_weight s1 v dm = _get_vocab_weight s2 v dm.
Proof. unfold _get_vocab_weight. intros ->. reflexivity. Qed.

Lemma fused_formula f s w sb stb :
  py_min (py_max3 (f * (7 # 10) + s * (3 # 10)) f s * w * sb * stb) 1
  == fused_confidence f s w sb stb.
Proof.
  unfold fused_confidence.
  rewrite ScoreFacts.py_min_Qmin, ScoreFacts.py_max3_Qmax.
  rewrite (Qmult_comm f), (Qmult_comm s). reflexivity.
Qed.

Lemma semantic_tier_rows self nq d k r :
  In r (fst (fst (semantic_tier P self nq d k))) ->
  data_source_type (concept r) = None.
Proof.
  intros H. destruct (semantic_tier_spec self nq d k) as [_ [_ Hsem]].
  destruct (Hsem r H) as [[row [_ ->]] _]. reflexivity.
Qed.

(** C4.  In the fused ranking tier (no exact hit, no high-confidence fuzzy
    hit), the confidence of every returned match is
    [min (max (0.7 f + 0.3 s, f, s) * vocabulary weight * source boost
    * standard boost, 1)], where [f] is the fuzzy score of the concept
    divided by 100 and [s] its semantic similarity, each 0 when the concept
    has no such result; the source boost is 1 for a fuzzy name match and
    0.98 otherwise, the standard boost 1 for a standard concept and 0.95
    otherwise. *)
Theorem fused_confidence_formula self q d k r s' fz m :
  search P self q d k = Some (r, s') ->
  _exact_match self (Normalize.normalize_text (unicode P) q) d = [] ->
  _fuzzy_match P self (Normalize.normalize_text (unicode P) q)
    (Normalize.tokenize (unicode P)
       (Normalize.normalize_text (unicode P) q)) d = Some fz ->
  high_confidence_fuzzy self fz = None ->
  In m (returned_matches r) ->
  Models.confidence m
  == fused_confidence
       (fuzzy_norm fz (Models.concept_id m))
       (semantic_norm
          (fst (fst (semantic_tier P self
                       (Normalize.normalize_text (unicode P) q) d
                       (with_default 5%Z k))))
          (Models.concept_id m))
       (_get_vocab_weight self (Models.vocabulary_id m) (Models.domain_id m))
       (match Models.match_type m with
        | Models.FUZZY_NAME => 1
        | _ => 98 # 100
        end)
       (if is_S (Models.standard_concept m) then 1 else 95 # 100).
Proof.
  intros H Hex Hfz Hhigh Hm. apply search_cases in H. cbv zeta in H.
  destruct H as [[best [Hbest _]]
                | [[bf [rest [_ [Hfz' [Hh' _]]]]] | [fz' [_ [Hfz' [_ [Hs Hr]]]]]]].
  - rewrite Hex in Hbest. contradiction.
  - rewrite Hfz in Hfz'. inversion Hfz'; subst. congruence.
  - rewrite Hfz in Hfz'. inversion Hfz'; subst fz'. clear Hfz'.
    rewrite Hr in Hm. apply rank_and_resolve_matches in Hm.
    destruct Hm as [[id c] [Hkc ->]].
    pose proof (MergeFacts.merge_scores _ _ _ _ Hkc) as [Hid [Hf Hsm]].
    pose proof (MergeFacts.merge_match_type _ _ _
                  (semantic_tier_rows self _ d _) Hkc) as Hty.
    simpl in Hty. simpl.
    rewrite Hid, <- Hf, <- Hsm.
    assert (Hcfg : config s' = config self)
      by (rewrite Hs; apply semantic_tier_spec).
    rewrite <- (_get_vocab_weight_config s' self _ _ Hcfg).
    unfold combined_score, base_score, source_boost, standard_boost.
    rewrite Hty. rewrite fused_formula.
    destruct (match_type c); reflexivity.
Qed.

(** *** Bounds on the confidence *)

Lemma dict_get_In {V} (dct : list (text * V)) key v :
  dict_get dct key = Some v -> exists key', In (key', v) dct.
Proof.
  induction dct as [|[k0 v0] dct IH]; simpl; [discriminate |].
  destruct (text_eqb k0 key).
  - intros H; inversion H; subst. exists k0. left; reflexivity.
  - intros H. destruct (IH H) as [k1 H1]. exists k1. right; exact H1.
Qed.

Lemma _get_vocab_weight_nonneg self v dm :
  weights_nonnegative (config self) -> 0 <= _get_vocab_weight self v dm.
Proof.
  intros [Hd Hw]. unfold _get_vocab_weight.
  set (prefs := match dict_get (vocabulary_preferences (config self)) dm with
                | Some p => p
                | None => _
                end).
  destruct (dict_get prefs v) as [w |] eqn:E; simpl; [| exact Hd].
  apply dict_get_In in E. destruct E as [v' Hin].
  unfold prefs in Hin.
  destruct (dict_get (vocabulary_preferences (config self)) dm) as [p |] eqn:E1.
  - apply dict_get_In in E1. destruct E1 as [dm' Hp].
    exact (Hw _ _ _ _ Hp Hin).
  - destruct (dict_get (vocabulary_preferences (config self)) (str "default"))
      as [p |] eqn:E2; simpl in Hin; [| contradiction].
    apply dict_get_In in E2. destruct E2 as [dm' Hp].
    exact (Hw _ _ _ _ Hp Hin).
Qed.

Lemma div_100_nonneg x : 0 <= x -> 0 <= x / 100.
Proof.
  intros H. apply Qle_shift_div_l; [reflexivity |].
  rewrite Qmult_0_l. exact H.
Qed.

(** C10.  With a scorer that gives no negative score and vocabulary weights
    that are not negative, every match returned by the search has a
    confidence between 0 and 1: the fused base score is at least the fuzzy
    signal, which is 0 for a candidate with only a semantic similarity,
    whatever its sign, and the confidence is capped at 1 when the match is
    created. *)
Theorem confidence_bounds self q d k r s' m :
  (forall a b, 0 <= WRatio P a b) ->
  weights_nonnegative (config self) ->
  search P self q d k = Some (r, s') ->
  In m (returned_matches r) ->
  0 <= Models.confidence m /\ Models.confidence m <= 1.
Proof.
  intros Hw Hcfg H Hm. apply search_cases in H. cbv zeta in H.
  destruct H as [[best [_ H]]
                | [[bf [rest [_ [Hfz [_ H]]]]] | [fz [_ [Hfz [_ [Hs Hr]]]]]]].
  - exit_match H Hm. simpl. split.
    + apply ScoreFacts.py_min_glb; discriminate.
    + apply ScoreFacts.py_min_le_r.
  - exit_match H Hm. simpl. split.
    + apply ScoreFacts.py_min_glb; [| discriminate].
      destruct (_fuzzy_match_In _ _ _ _ _ bf Hfz (or_introl eq_refl))
        as [_ [t ->]].
      apply div_100_nonneg. apply Hw.
    + apply ScoreFacts.py_min_le_r.
  - rewrite Hr in Hm. apply rank_and_resolve_matches in Hm.
    destruct Hm as [[id c] [Hkc ->]]. simpl. split.
    + apply ScoreFacts.py_min_glb; [| discriminate].
      pose proof (MergeFacts.merge_scores _ _ _ _ Hkc) as [_ [Hf _]].
      assert (Hfs : 0 <= fuzzy_score c).
      { rewrite Hf. unfold fuzzy_norm.
        destruct (score_of fz id) as [sc |] eqn:E; [| apply Qle_refl].
        apply MergeFacts.score_of_In in E. destruct E as [r0 [Hr0 <-]].
        destruct (_fuzzy_match_In _ _ _ _ _ r0 Hfz Hr0) as [_ [t ->]].
        apply div_100_nonneg. apply Hw. }
      assert (Hbase : 0 <= base_score c).
      { unfold base_score.
        destruct (ScoreFacts.py_max3_spec
                    (fuzzy_score c * (7 # 10) + semantic_score c * (3 # 10))
                    (fuzzy_score c) (semantic_score c)) as [_ [Hb _]].
        eapply Qle_trans; [exact Hfs | exact Hb]. }
      assert (Hcfg' : weights_nonnegative (config s')).
      { replace (config s') with (config self); [exact Hcfg |].
        rewrite Hs. symmetry. apply semantic_tier_spec. }
      unfold combined_score.
      repeat apply Qmult_le_0_compat.
      * exact Hbase.
      * apply _get_vocab_weight_nonneg. exact Hcfg'.
      * unfold source_boost. destruct (is_name _); discriminate.
      * unfold standard_boost. destruct (is_S _); discriminate.
    + apply ScoreFacts.py_min_le_r.
Qed.

Lemma early_exit_match_type self q nq d best conf nt st r s' m :
  early_exit self q nq d best conf nt st = Some (r, s') ->
  In m (returned_matches r) ->
  Models.match_type m = nt \/ Models.match_type m = st.
Proof.
  unfold early_exit.
  destruct (data_source_type best) as [src |]; [| discriminate].
  destruct (data_search_text best) as [txt |]; [| discriminate].
  intros E; inversion E; subst; clear E. intros [<- | []]. simpl.
  destruct src; auto.
Qed.

Lemma semantic_tier_disabled self nq d k :
  enable_semantic self = false -> semantic_tier P self nq d k = ([], [], self).
Proof. unfold semantic_tier. intros ->. reflexivity. Qed.

(** [search] changes neither the configuration nor the store of the
    searcher. *)
Lemma search_state self q d k r s' :
  search P self q d k = Some (r, s') ->
  db s' = db self /\ config s' = config self.
Proof.
  intros H. apply search_cases in H. cbv zeta in H.
  destruct H as [[best [_ H]]
                | [[bf [rest [_ [_ [_ H]]]]] | [fz [_ [_ [_ [Hs _]]]]]]].
  - apply early_exit_spec in H. destruct H as [-> _]. auto.
  - apply early_exit_spec in H. destruct H as [-> _]. auto.
  - rewrite Hs. split; apply semantic_tier_spec.
Qed.

(** Without the semantic tier no returned match is a semantic match. *)
Lemma search_without_semantic self q d k r s' m :
  enable_semantic self = false ->
  search P self q d k = Some (r, s') ->
  In m (returned_matches r) ->
  Models.match_type m <> Models.SEMANTIC.
Proof.
  intros He H Hm. apply search_cases in H. cbv zeta in H.
  destruct H as [[best [_ H]]
                | [[bf [rest [_ [_ [_ H]]]]] | [fz [_ [_ [_ [Hs Hr]]]]]]].
  - destruct (early_exit_match_type _ _ _ _ _ _ _ _ _ _ _ H Hm) as [-> | ->];
      discriminate.
  - destruct (early_exit_match_type _ _ _ _ _ _ _ _ _ _ _ H Hm) as [-> | ->];
      discriminate.
  - rewrite Hr in Hm. apply rank_and_resolve_matches in Hm.
    destruct Hm as [kc [Hkc ->]]. simpl.
    rewrite (semantic_tier_disabled _ _ _ _ He) in Hkc. simpl in Hkc.
    exact (MergeFacts.fuzzy_dict_match_type fz kc Hkc).
Qed.

End WithPlatform.

End SearchFacts.

(** ** The entry points *)

Module ApiFacts.

Import Config Search Api Spec.

Section WithPlatform.

Variable P : Platform.
Variable database : Database.OMOPDatabase.

Lemma search_default_top_k self q d :
  search P self q d None = search P self q d (Some 5%Z).
Proof. reflexivity. Qed.

(** What [batch_lookup] reads from a text file with one non-blank line,
    from a file of another type with one row under a header, and from a
    file of another type that is one row only. *)
Lemma single_line_queries line q query_column has_header :
  Normalize.strip (unicode P) line = q ->
  q <> [] ->
  input_queries P (TextFile [line]) query_column has_header = Some [q].
Proof.
  intros Hq Hne. unfold input_queries, read_queries. simpl.
  rewrite Hq. destruct q; [congruence | reflexivity].
Qed.

Lemma single_row_queries header cell q :
  Normalize.strip (unicode P) cell = q ->
  q <> [] ->
  input_queries P (CsvFile [header; [cell]]) 0 true = Some [q].
Proof.
  intros Hq Hne. unfold input_queries. simpl.
  rewrite Hq. destruct q; [congruence | reflexivity].
Qed.

Lemma header_only_queries row query_column :
  input_queries P (CsvFile [row]) query_column true = Some [].
Proof. reflexivity. Qed.

(** C8 (as amended).  On an input from which [batch_lookup] reads the one
    query [q] (a text file whose only non-blank line strips to [q]; a file
    of another type whose only row after the header holds [q] in the query
    column), the batch lookup returns exactly one result: the result of the
    single-query lookup of [q] with [top_k = 5] and with the batch's
    semantic flag (true by default), run from the same package state. *)
Theorem batch_single_query st input q domain query_column has_header
    enable cfg :
  input_queries P input (with_default 0%Z query_column)
    (with_default true has_header) = Some [q] ->
  batch_lookup P database st input domain query_column has_header enable cfg
  = match lookup P database st q domain (Some 5%Z)
            (Some (with_default true enable)) cfg with
    | Some (r, st') =>
        Some ({| Models.results := [r];
                 Models.total_queries := 1;
                 Models.successful_queries :=
                   if Models.success r then 1%Z else 0%Z |}, st')
    | None => None
    end.
Proof.
  intros Hq. unfold batch_lookup, lookup. cbv zeta. rewrite Hq.
  cbn [process_queries with_default]. rewrite search_default_top_k.
  destruct (search P _ q domain (Some 5%Z)) as [[r s'] |];
    [| reflexivity].
  simpl. destruct (Models.success r); reflexivity.
Qed.

(** C9 (as amended).  [lookup] takes a query, an optional domain, [top_k]
    with default 10 and a semantic flag with default false: a call that
    leaves the flag out is the call with semantic search disabled, and when
    it is the call that creates the package's searcher, no match that it
    returns is a semantic match. *)
Theorem lookup_defaults q domain cfg :
  (forall st,
     lookup P database st q domain None None cfg
     = lookup P database st q domain (Some 10%Z) (Some false) cfg)
  /\ (forall top_k r st' m,
        lookup P database None q domain top_k None cfg = Some (r, st') ->
        In m (returned_matches r) ->
        Models.match_type m <> Models.SEMANTIC).
Proof.
  split; [reflexivity |].
  intros top_k r st' m H Hm. unfold lookup in H. simpl in H.
  destruct (search P _ q domain _) as [[r0 s0] |] eqn:E; [| discriminate].
  inversion H; subst; clear H.
  eapply (SearchFacts.search_without_semantic P); [| exact E | exact Hm].
  reflexivity.
Qed.

(** Once the package has a searcher, the flag and the configuration of
    later calls are ignored. *)
Lemma lookup_flag_ignored s q domain top_k e1 e2 c1 c2 :
  lookup P database (Some s) q domain top_k e1 c1
  = lookup P database (Some s) q domain top_k e2 c2.
Proof. reflexivity. Qed.

End WithPlatform.

End ApiFacts.

Lemma canonicalization_invariant_witness :
  Search.search Examples.with_index (Examples.searcher true)
    (str "Acute Myocardial Infarction") None None
  = Some (Examples.acute_mi_result, Examples.searcher true)
  /\ exists target,
       In target (Database.concept Examples.store)
       /\ Database.standard_concept (Database.info target) = Some (str "S")
       /\ Models.standard_concept_id Examples.acute_mi_match
          = Some (Database.concept_id (Database.info target))
       /\ Models.get_analytics_concept_id Examples.acute_mi_match
          = Some (Database.concept_id (Database.info target)).
Proof.
  split; [vm_compute; reflexivity |].
  apply (SearchFacts.canonicalization_invariant Examples.with_index
           (Examples.searcher true) (str "Acute Myocardial Infarction")
           None None Examples.acute_mi_result (Examples.searcher true)
           Examples.acute_mi_match).
  - reflexivity.
  - vm_compute; reflexivity.
  - left; reflexivity.
Defined.

Lemma exact_match_confidence_witness :
  exists r s' m,
    Search.search Examples.with_index (Examples.searcher true)
      (str "Heart Attack!") (Some (str "Condition")) None = Some (r, s')
    /\ Models.success r = true
    /\ Models.best_match r = Some m
    /\ Models.confidence m = 1.
Proof.
  apply (SearchFacts.exact_match_confidence Examples.with_index
           (Examples.searcher true) (str "Heart Attack!")
           (Some (str "Condition")) None
           (Examples.entry Examples.mi "Heart attack" Database.synonym
              "heart attack")).
  - vm_compute. right; left; reflexivity.
  - vm_compute; reflexivity.
  - intros f E; inversion E; subst. reflexivity.
Defined.

(** The claim C3 as stated fails when the configuration asks more of a
    match than of a fuzzy early exit: with [fuzzy_high_confidence = 90] and
    [confidence_threshold = 0.95], a fuzzy score of 92 returns at once with
    success although the confidence 0.92 is below the threshold. *)
Lemma success_threshold_counterexample :
  exists r s',
    Search.search (Examples.platform 92 None)
      (Search.new_searcher Examples.strict_config Examples.store true)
      (str "myocardial infarct") None None = Some (r, s')
    /\ ~ Spec.success_iff_threshold Examples.strict_config r.
Proof.
  eexists. eexists. split; [vm_compute; reflexivity |].
  intros [H _]. destruct (H eq_refl) as [m [E Hle]].
  simpl in E. inversion E; subst; clear E.
  vm_compute in Hle. apply Hle. reflexivity.
Qed.

Lemma success_threshold_witness :
  exists r s',
    Search.search Examples.with_index (Examples.searcher true)
      (str "stemi") None None = Some (r, s')
    /\ Spec.success_iff_threshold Config.DEFAULT_CONFIG r.
Proof.
  eexists. eexists. split; [vm_compute; reflexivity |].
  eapply (SearchFacts.success_threshold Examples.with_index
            (Examples.searcher true) (str "stemi") None None).
  - unfold Qle; simpl; lia.
  - unfold Qle; simpl; lia.
  - vm_compute; reflexivity.
Defined.

(** The claim C6 as stated fails for the empty text: it is a domain filter
    that [search] treats as no filter. *)
Lemma domain_filter_counterexample :
  exists r s',
    Search.search Examples.with_index (Examples.searcher true)
      (str "heart attack") (Some []) None = Some (r, s')
    /\ Models.domain_filter r = Some []
    /\ ~ Spec.respects_domain_filter [] r.
Proof.
  eexists. eexists. split; [vm_compute; reflexivity |].
  split; [reflexivity |].
  intros H. specialize (H _ (or_introl eq_refl)). discriminate H.
Qed.

Lemma domain_filter_respected_witness :
  exists r s',
    Search.search Examples.with_index (Examples.searcher true)
      (str "stemi") (Some (str "Condition")) None = Some (r, s')
    /\ Spec.respects_domain_filter (str "Condition") r.
Proof.
  eexists. eexists. split; [vm_compute; reflexivity |].
  eapply (SearchFacts.domain_filter_respected Examples.with_index
            (Examples.searcher true) (str "stemi") (str "Condition") None).
  - discriminate.
  - vm_compute; reflexivity.
Defined.

(** The claim C7 as stated fails on the text of the warning: the code
    writes it with a capital letter. *)
Lemma no_matches_found_counterexample :
  exists r s',
    Search.search Examples.without_embeddings (Examples.searcher false)
      (str "xyzzy") None None = Some (r, s')
    /\ Models.success r = false
    /\ Models.best_match r = None
    /\ Models.candidates r = []
    /\ Models.warnings r = [str "No matches found"]
    /\ ~ In (str "no matches found") (Models.warnings r).
Proof.
  eexists. eexists. split; [vm_compute; reflexivity |].
  repeat (split; [reflexivity |]).
  intros [H | []]. discriminate H.
Qed.

Lemma no_matches_found_witness :
  exists r s' w,
    Search.search Examples.with_index (Examples.searcher true)
      (str "xyzzy") None None = Some (r, s')
    /\ Models.success r = false
    /\ Models.best_match r = None
    /\ Models.candidates r = []
    /\ Models.warnings r = w ++ [str "No matches found"].
Proof.
  apply (SearchFacts.no_matches_found Examples.with_index
           (Examples.searcher true) (str "xyzzy") None None);
    vm_compute; reflexivity.
Defined.

Lemma fused_confidence_formula_witness :
  exists r s' m,
    Search.search Examples.with_index (Examples.searcher true)
      (str "stemi") None None = Some (r, s')
    /\ In m (returned_matches r)
    /\ Models.concept_id m = 1%Z
    /\ Models.confidence m
       == Spec.fused_confidence 0 (91 # 100) 1 (98 # 100) 1.
Proof.
  eexists. eexists. eexists.
  split; [vm_compute; reflexivity |].
  split; [left; reflexivity |].
  split; [reflexivity |].
  refine (SearchFacts.fused_confidence_formula Examples.with_index
            (Examples.searcher true) (str "stemi") None None _ _ [] _
            _ _ _ _ _);
    try (vm_compute; reflexivity).
  left; reflexivity.
Defined.

Lemma default_weights_nonnegative :
  Spec.weights_nonnegative Config.DEFAULT_CONFIG.
Proof.
  split; [discriminate |].
  intros domain prefs vocabulary w Hp Hw. simpl in Hp.
  repeat (destruct Hp as [Hp | Hp];
          [inversion Hp; subst; clear Hp; simpl in Hw;
           repeat (destruct Hw as [Hw | Hw];
                   [inversion Hw; subst; discriminate |]);
           contradiction |]).
  contradiction.
Qed.

Lemma confidence_bounds_witness :
  exists r s' m,
    Search.search Examples.with_cold_index (Examples.searcher true)
      (str "frostbite") None None = Some (r, s')
    /\ In m (returned_matches r)
    /\ Models.match_type m = Models.SEMANTIC
    /\ 0 <= Models.confidence m /\ Models.confidence m <= 1.
Proof.
  eexists. eexists. eexists.
  split; [vm_compute; reflexivity |].
  split; [left; reflexivity |].
  split; [reflexivity |].
  eapply (SearchFacts.confidence_bounds Examples.with_cold_index
            (Examples.searcher true) (str "frostbite") None None).
  - intros a b. apply Qle_refl.
  - exact default_weights_nonnegative.
  - vm_compute; reflexivity.
  - left; reflexivity.
Defined.

(** The claim C8 as stated fails on the alternates: on the same searcher,
    the batch lookup of "stemi" asks [search] for its default of 5
    candidates and returns 4 alternates, the single-query lookup asks for
    10 and returns 6. *)
Lemma batch_single_query_counterexample :
  exists b st1 r st2,
    Api.batch_lookup Examples.with_index Examples.store
      (Some (Examples.searcher true)) (Api.TextFile [str "stemi"])
      None None None None None
    = Some (b, st1)
    /\ Api.lookup Examples.with_index Examples.store
         (Some (Examples.searcher true)) (str "stemi") None None None None
       = Some (r, st2)
    /\ map (fun x => List.length (Models.candidates x)) (Models.results b)
       = [4%nat]
    /\ List.length (Models.candidates r) = 6%nat
    /\ Models.results b <> [r].
Proof.
  eexists. eexists. eexists. eexists.
  split; [vm_compute; reflexivity |].
  split; [vm_compute; reflexivity |].
  split; [reflexivity |]. split; [reflexivity |].
  intros H. apply (f_equal (map (fun x => List.length (Models.candidates x))))
    in H. discriminate H.
Qed.

(** From a fresh package state the two calls differ already in the
    semantic flag: the batch lookup enables the semantic tier, the
    single-query lookup does not. *)
Lemma batch_single_query_fresh_state :
  exists b st1 r st2,
    Api.batch_lookup Examples.with_index Examples.store None
      (Api.TextFile [str "stemi"]) None None None None None = Some (b, st1)
    /\ Api.lookup Examples.with_index Examples.store None
         (str "stemi") None None None None = Some (r, st2)
    /\ map Models.success (Models.results b) = [true]
    /\ Models.success r = false.
Proof.
  eexists. eexists. eexists. eexists.
  split; [vm_compute; reflexivity |].
  split; [vm_compute; reflexivity |].
  split; reflexivity.
Qed.

(** Batch items share the searcher: when the embeddings package cannot be
    imported, the first item finds it out, is warned and switches the
    semantic tier off for the items after it. *)
Lemma batch_items_share_searcher :
  exists b st,
    Api.batch_lookup Examples.without_embeddings Examples.store None
      (Api.TextFile [str "xyzzy"; str "xyzzy"]) None None None None None
    = Some (b, st)
    /\ map Models.warnings (Models.results b)
       = [ [str "Semantic search index not built"; str "No matches found"];
           [str "No matches found"] ].
Proof.
  eexists. eexists. split; [vm_compute; reflexivity |]. reflexivity.
Qed.

Lemma batch_single_query_witness :
  Api.batch_lookup Examples.with_index Examples.store None
    (Api.TextFile [str "  Heart attack  "]) None None None None None
  = match Api.lookup Examples.with_index Examples.store None
            (str "Heart attack") None (Some 5%Z) (Some true) None with
    | Some (r, st') =>
        Some ({| Models.results := [r];
                 Models.total_queries := 1;
                 Models.successful_queries :=
                   if Models.success r then 1%Z else 0%Z |}, st')
    | None => None
    end.
Proof.
  apply (ApiFacts.batch_single_query Examples.with_index Examples.store
           None (Api.TextFile [str "  Heart attack  "]) (str "Heart attack")
           None None None None None).
  vm_compute; reflexivity.
Defined.

(** The same query as the only row under the header of a file of another
    type; and a file of another type that is one row only, which the
    default [has_header = True] reads as a header: no query, no result. *)
Example batch_single_row :
  Api.batch_lookup Examples.with_index Examples.store None
    (Api.CsvFile [[str "term"; str "note"];
                  [str " Heart attack "; str "seen twice"]])
    None None None None None
  = Api.batch_lookup Examples.with_index Examples.store None
      (Api.TextFile [str "  Heart attack  "]) None None None None None.
Proof. vm_compute; reflexivity. Qed.

Example batch_header_only :
  Api.batch_lookup Examples.with_index Examples.store None
    (Api.CsvFile [[str "Heart attack"]]) None None None None None
  = Some ({| Models.results := [];
             Models.total_queries := 0;
             Models.successful_queries := 0 |},
          Some (Examples.searcher true)).
Proof. reflexivity. Qed.

(** The claim C9 as stated fails: a lookup that leaves the semantic flag
    out is not the lookup with semantic search enabled. *)
Lemma lookup_defaults_counterexample :
  exists r1 st1 r2 st2,
    Api.lookup Examples.with_index Examples.store None
      (str "stemi") None None None None = Some (r1, st1)
    /\ Api.lookup Examples.with_index Examples.store None
         (str "stemi") None None (Some true) None = Some (r2, st2)
    /\ Models.success r1 = false
    /\ Models.warnings r1 = [str "No matches found"]
    /\ Models.success r2 = true
    /\ r1 <> r2.
Proof.
  eexists. eexists. eexists. eexists.
  split; [vm_compute; reflexivity |].
  split; [vm_compute; reflexivity |].
  repeat (split; [reflexivity |]).
  intros H. apply (f_equal Models.success) in H. discriminate H.
Qed.

Lemma lookup_defaults_witness :
  Api.lookup (Examples.platform 80 (Some Examples.index)) Examples.store None
    (str "myocardial") None None None None
  = Api.lookup (Examples.platform 80 (Some Examples.index)) Examples.store
      None (str "myocardial") None (Some 10%Z) (Some false) None
  /\ exists r st' m,
       Api.lookup (Examples.platform 80 (Some Examples.index)) Examples.store
         None (str "myocardial") None None None None = Some (r, st')
       /\ In m (returned_matches r)
       /\ Models.match_type m <> Models.SEMANTIC.
Proof.
  destruct (ApiFacts.lookup_defaults
              (Examples.platform 80 (Some Examples.index)) Examples.store
              (str "myocardial") None None) as [H1 H2].
  split; [apply H1 |].
  eexists. eexists. eexists.
  split; [vm_compute; reflexivity |].
  split; [left; reflexivity |].
  eapply (H2 None).
  - vm_compute; reflexivity.
  - left; reflexivity.
Defined.

(** ** The scenarios of the specification, on the example store *)

Example normalize_docstring :
  Normalize.normalize_text ascii_unicode
    (str "Myocardial Infarction (Heart Attack)")
  = str "myocardial infarction heart attack".
Proof. vm_compute. reflexivity. Qed.

(** Scenario A: an exact match on a synonym. *)
Example scenario_exact_synonym :
  Examples.summary
    (Search.search Examples.with_index (Examples.searcher true)
       (str "heart attack") None None)
  = Some (true, Some (1%Z, Models.EXACT_SYNONYM, 1,
                      Models.ALREADY_STANDARD, Some 1%Z)).
Proof. vm_compute. reflexivity. Qed.

(** Scenario B: a fuzzy score of 96 against the threshold 95 returns at
    once with confidence 0.96. *)
Example scenario_fuzzy_exit :
  Examples.summary
    (Search.search (Examples.platform 96 None) (Examples.searcher false)
       (str "myocardial infarct") None None)
  = Some (true, Some (1%Z, Models.FUZZY_NAME, 96 # 100,
                      Models.ALREADY_STANDARD, Some 1%Z)).
Proof. vm_compute. reflexivity. Qed.

(** Scenario C: a match by similarity alone goes through the fusion. *)
Example scenario_semantic_only :
  Examples.summary
    (Search.search Examples.with_index (Examples.searcher true)
       (str "stemi") None None)
  = Some (true, Some (1%Z, Models.SEMANTIC, 8918 # 10000,
                      Models.ALREADY_STANDARD, Some 1%Z)).
Proof. vm_compute. reflexivity. Qed.

(** Scenario D: no candidate anywhere. *)
Example scenario_no_match :
  Examples.summary
    (Search.search Examples.with_index (Examples.searcher true)
       (str "xyzzy") None None)
  = Some (false, None).
Proof. vm_compute. reflexivity. Qed.

(** Scenario E: a non-standard concept without a valid mapping. *)
Example scenario_no_mapping :
  Examples.summary
    (Search.search Examples.with_index (Examples.searcher true)
       (str "Old myocardial infarction") None None)
  = Some (true, Some (3%Z, Models.EXACT_NAME, 1,
                      Models.NO_MAPPING_AVAILABLE, None)).
Proof. vm_compute. reflexivity. Qed.

(** * Further properties of the code *)

(** ** normalize.py: the shape of a normalized text *)

Module ShapeFacts.

Import Normalize Spec Shape.

Section WithUnicode.

Variable U : UnicodeData.

Hypothesis space_is_space : is_space U SPACE = true.

Lemma split_words s : Forall (word U) (split U s).
Proof.
  apply Forall_forall. intros w Hw. apply NormalizeFacts.split_In in Hw.
  destruct Hw as [Hne Hc]. split; [exact Hne |].
  apply Forall_forall. intros c Hcw. apply (Hc c Hcw).
Qed.

Lemma tokenize_normalize_text x :
  tokenize U (normalize_text U x)
  = split U
      (sub_punctuation U
         (filter (fun c => (combining U c =? 0)%N) (lower U (nfkd U x)))).
Proof.
  rewrite NormalizeFacts.normalize_text_pipeline. unfold pipeline, tokenize.
  apply NormalizeFacts.split_join; [exact space_is_space | apply split_words].
Qed.

(** X1.  Joining the tokens of a normalized text with single spaces gives
    the normalized text back. *)
Theorem join_tokenize_normalize_text x :
  join [SPACE] (tokenize U (normalize_text U x)) = normalize_text U x.
Proof.
  rewrite tokenize_normalize_text.
  rewrite NormalizeFacts.normalize_text_pipeline. reflexivity.
Qed.

Lemma tokenize_normalize_text_shape x :
  Forall (token U) (tokenize U (normalize_text U x)).
Proof.
  rewrite tokenize_normalize_text.
  apply Forall_forall. intros w Hw. apply NormalizeFacts.split_In in Hw.
  destruct Hw as [Hne Hc]. split; [exact Hne |].
  apply Forall_forall. intros c Hcw. destruct (Hc c Hcw) as [Hin Hns].
  split; [| exact Hns].
  unfold sub_punctuation in Hin. apply in_map_iff in Hin.
  destruct Hin as [e [He _]].
  destruct (is_word U e || is_space U e) eqn:Hwe.
  - subst e. rewrite Hns, orb_false_r in Hwe. exact Hwe.
  - subst c. rewrite space_is_space in Hns. discriminate.
Qed.

(** X2.  Every token of a normalized text is a non-empty run of word
    characters: no punctuation and no whitespace survives in a token. *)
Theorem tokenize_normalize_text_tokens x :
  Forall (token U) (tokenize U (normalize_text U x)).
Proof. exact (tokenize_normalize_text_shape x). Qed.

(** *** No whitespace around a normalized text *)

Lemma lstrip_nonspace c s : is_space U c = false -> lstrip U (c :: s) = c :: s.
Proof. intros H. simpl. rewrite H. reflexivity. Qed.

Lemma join_head ws :
  Forall (word U) ws -> ws <> [] ->
  exists c s, join [SPACE] ws = c :: s /\ is_space U c = false.
Proof.
  intros H Hne. destruct ws as [|w ws]; [congruence |].
  inversion H as [|? ? [Hw Hc] _]; subst.
  destruct w as [|c w]; [congruence |].
  inversion Hc; subst.
  destruct ws; simpl; eauto.
Qed.

Lemma join_last ws :
  Forall (word U) ws -> ws <> [] ->
  exists s c, join [SPACE] ws = s ++ [c] /\ is_space U c = false.
Proof.
  induction 1 as [|w ws [Hw Hc] Hws IH]; [congruence |]. intros _.
  destruct ws as [|w' ws'].
  - destruct (exists_last Hw) as [s [c E]]. exists s, c.
    split; [exact E |]. rewrite Forall_forall in Hc. apply Hc.
    rewrite E. apply in_or_app. right. left. reflexivity.
  - destruct (IH ltac:(discriminate)) as [s [c [E Hns]]].
    exists (w ++ SPACE :: s), c. split; [| exact Hns].
    change (join [SPACE] (w :: w' :: ws'))
      with (w ++ SPACE :: join [SPACE] (w' :: ws')).
    rewrite E. rewrite <- app_assoc. reflexivity.
Qed.

(** X3.  A normalized text has no whitespace at either end: [strip] leaves
    it unchanged. *)
Theorem strip_normalize_text x :
  strip U (normalize_text U x) = normalize_text U x.
Proof.
  rewrite NormalizeFacts.normalize_text_pipeline. unfold pipeline.
  set (ws := split U _).
  assert (Hws : Forall (word U) ws) by apply split_words.
  destruct ws as [|w ws]; [reflexivity |].
  destruct (join_head (w :: ws) Hws ltac:(discriminate)) as [c [s [E Hc]]].
  destruct (join_last (w :: ws) Hws ltac:(discriminate)) as [s' [c' [E' Hc']]].
  set (t := join [SPACE] (w :: ws)) in *.
  assert (H1 : lstrip U t = t)
    by (rewrite E; apply lstrip_nonspace; exact Hc).
  assert (H2 : lstrip U (rev t) = rev t).
  { rewrite E', rev_app_distr. simpl. rewrite Hc'. reflexivity. }
  unfold strip. rewrite H1, H2. apply rev_involutive.
Qed.

End WithUnicode.

End ShapeFacts.

(** ** normalize.py: token sets and their overlap *)

Module TokenFacts.

Import Normalize Tokens.

Lemma mem_In t s : mem t s = true <-> In t s.
Proof.
  unfold mem. rewrite existsb_exists. split.
  - intros [x [Hx E]]. apply NormalizeFacts.text_eqb_eq in E. subst. exact Hx.
  - intros H. exists t. split; [exact H | apply NormalizeFacts.text_eqb_refl].
Qed.

Lemma to_set_In t tokens : In t (to_set tokens) <-> In t tokens.
Proof.
  induction tokens as [|x tokens IH]; simpl; [tauto |].
  destruct (mem x tokens) eqn:E.
  - apply mem_In in E. rewrite IH. split; [auto |].
    intros [<- | H]; assumption.
  - simpl. rewrite IH. tauto.
Qed.

Lemma to_set_NoDup tokens : NoDup (to_set tokens).
Proof.
  induction tokens as [|x tokens IH]; simpl; [constructor |].
  destruct (mem x tokens) eqn:E; [exact IH |].
  constructor; [| exact IH]. rewrite to_set_In. intros H.
  apply mem_In in H. congruence.
Qed.

Lemma intersection_In t s1 s2 :
  In t (intersection s1 s2) <-> In t s1 /\ In t s2.
Proof. unfold intersection. rewrite filter_In, mem_In. tauto. Qed.

Lemma intersection_length_comm s1 s2 :
  NoDup s1 -> NoDup s2 ->
  List.length (intersection s1 s2) = List.length (intersection s2 s1).
Proof.
  intros H1 H2. apply Permutation_length. apply NoDup_Permutation.
  - apply NoDup_filter. exact H1.
  - apply NoDup_filter. exact H2.
  - intros t. rewrite !intersection_In. tauto.
Qed.

Lemma filter_partition_length {A} (f : A -> bool) l :
  (List.length (filter f l) + List.length (filter (fun x => negb (f x)) l)
   = List.length l)%nat.
Proof.
  induction l as [|x l IH]; simpl; [reflexivity |].
  destruct (f x); simpl; lia.
Qed.

Lemma union_length s1 s2 :
  (List.length (union s1 s2) + List.length (intersection s2 s1)
   = List.length s1 + List.length s2)%nat.
Proof.
  unfold union, intersection. rewrite length_app.
  pose proof (filter_partition_length (fun t => mem t s1) s2) as H.
  cbv beta in H. lia.
Qed.

Lemma union_length_comm s1 s2 :
  NoDup s1 -> NoDup s2 ->
  List.length (union s1 s2) = List.length (union s2 s1).
Proof.
  intros H1 H2. pose proof (union_length s1 s2).
  pose proof (union_length s2 s1).
  pose proof (intersection_length_comm s1 s2 H1 H2). lia.
Qed.

Lemma intersection_le_union s1 s2 :
  (List.length (intersection s1 s2) <= List.length (union s1 s2))%nat.
Proof.
  unfold union. rewrite length_app. unfold intersection.
  pose proof (filter_partition_length (fun t => mem t s2) s1) as H.
  cbv beta in H. lia.
Qed.

Section WithUnicode.

Variable U : UnicodeData.

(** X4.  The token overlap of two texts is a number between 0 and 1. *)
Theorem calculate_token_overlap_bounds text1 text2 :
  0 <= calculate_token_overlap U text1 text2
  /\ calculate_token_overlap U text1 text2 <= 1.
Proof.
  unfold calculate_token_overlap.
  generalize (get_token_set U text1) (get_token_set U text2).
  intros A B.
  destruct A as [|a A'] eqn:EA; [split; discriminate |].
  destruct B as [|b B'] eqn:EB; [split; discriminate |].
  rewrite <- EA, <- EB.
  assert (Hpos : 0 < size (union A B)).
  { unfold size. rewrite EA. unfold union. simpl List.length.
    unfold Qlt. simpl. lia. }
  split.
  - apply Qle_shift_div_l; [exact Hpos |]. rewrite Qmult_0_l.
    unfold size, Qle. simpl. lia.
  - apply Qle_shift_div_r; [exact Hpos |]. rewrite Qmult_1_l.
    unfold size. rewrite <- Zle_Qle. apply Nat2Z.inj_le.
    apply intersection_le_union.
Qed.

(** X5.  The token overlap does not depend on the order of its two
    arguments. *)
Theorem calculate_token_overlap_comm text1 text2 :
  calculate_token_overlap U text1 text2
  = calculate_token_overlap U text2 text1.
Proof.
  unfold calculate_token_overlap.
  pose proof (to_set_NoDup
                (tokenize U (normalize_text U text1))) as H1.
  pose proof (to_set_NoDup
                (tokenize U (normalize_text U text2))) as H2.
  fold (get_token_set U text1) in H1. fold (get_token_set U text2) in H2.
  revert H1 H2.
  generalize (get_token_set U text1) (get_token_set U text2).
  intros A B H1 H2.
  destruct A as [|a A'] eqn:EA; destruct B as [|b B'] eqn:EB;
    try reflexivity.
  rewrite <- EA, <- EB in *. unfold size.
  rewrite (intersection_length_comm _ _ H1 H2).
  rewrite (union_length_comm _ _ H1 H2). reflexivity.
Qed.

(** X6.  A text that has a token overlaps with itself completely, and a
    text without any token overlaps with nothing, itself included. *)
Theorem calculate_token_overlap_self text1 :
  (get_token_set U text1 <> [] -> calculate_token_overlap U text1 text1 == 1)
  /\ (get_token_set U text1 = [] ->
      forall text2, calculate_token_overlap U text1 text2 = 0
                    /\ calculate_token_overlap U text2 text1 = 0).
Proof.
  unfold calculate_token_overlap. split.
  - generalize (get_token_set U text1). intros A Hne.
    assert (Hi : intersection A A = A).
    { unfold intersection. apply NormalizeFacts.filter_fixed.
      apply Forall_forall. intros t Ht. apply mem_In. exact Ht. }
    assert (Hu : union A A = A).
    { unfold union.
      assert (H : forall l, (forall t, In t l -> In t A) ->
                  filter (fun t => negb (mem t A)) l = []).
      { induction l as [|x l IH]; [reflexivity |]. intros H. simpl.
        assert (Hx : mem x A = true) by (apply mem_In; apply H; left; auto).
        rewrite Hx. simpl. apply IH. intros t Ht. apply H. right; auto. }
      rewrite (H A) by auto. apply app_nil_r. }
    destruct A as [|a A'] eqn:EA; [congruence |]. rewrite <- EA in *.
    rewrite Hi, Hu. apply Qmult_inv_r.
    unfold size. rewrite EA. simpl List.length. unfold Qeq. simpl. lia.
  - intros E text2. rewrite E. split; [reflexivity |].
    destruct (get_token_set U text2); reflexivity.
Qed.

End WithUnicode.

End TokenFacts.

(** ** Sorting and slicing *)

Module SortFacts.

Import Ranking.

Lemma insert_desc_perm {A} (key : A -> Q) x l :
  Permutation (insert_desc key x l) (x :: l).
Proof.
  induction l as [|y l IH]; simpl; [apply Permutation_refl |].
  destruct (Qltb (key x) (key y)).
  - eapply Permutation_trans; [apply perm_skip; exact IH | apply perm_swap].
  - apply Permutation_refl.
Qed.

Lemma sort_desc_perm {A} (key : A -> Q) l : Permutation (sort_desc key l) l.
Proof.
  induction l as [|x l IH]; simpl; [apply Permutation_refl |].
  eapply Permutation_trans; [apply insert_desc_perm |].
  apply perm_skip. exact IH.
Qed.

Lemma sort_desc_length {A} (key : A -> Q) l :
  List.length (sort_desc key l) = List.length l.
Proof. apply Permutation_length. apply sort_desc_perm. Qed.

Lemma insert_desc_descending {A} (key : A -> Q) x l :
  descending key l -> descending key (insert_desc key x l).
Proof.
  unfold descending. induction 1 as [|y l Hl IH Hy]; simpl.
  - constructor; [constructor | constructor].
  - destruct (Qltb (key x) (key y)) eqn:E.
    + apply ScoreFacts.Qltb_true in E. constructor; [exact IH |].
      apply Forall_forall. intros z Hz.
      apply (Permutation_in _ (insert_desc_perm key x l)) in Hz.
      destruct Hz as [<- | Hz]; [apply Qlt_le_weak; exact E |].
      rewrite Forall_forall in Hy. apply Hy. exact Hz.
    + apply ScoreFacts.Qltb_false in E.
      constructor; [constructor; assumption |].
      constructor; [exact E |].
      apply Forall_forall. intros z Hz. rewrite Forall_forall in Hy.
      eapply Qle_trans; [apply Hy; exact Hz | exact E].
Qed.

Lemma sort_desc_descending {A} (key : A -> Q) l :
  descending key (sort_desc key l).
Proof.
  induction l as [|x l IH]; simpl; [constructor |].
  apply insert_desc_descending. exact IH.
Qed.

Lemma firstn_descending {A} (key : A -> Q) n l :
  descending key l -> descending key (firstn n l).
Proof.
  unfold descending. revert l. induction n as [|n IH]; intros l H; simpl;
    [constructor |].
  destruct H as [|x l Hl Hx]; [constructor |].
  constructor; [apply IH; exact Hl |].
  apply Forall_forall. intros z Hz. rewrite Forall_forall in Hx.
  apply Hx. eapply ListFacts.In_firstn_inv; exact Hz.
Qed.

Lemma slice_to_descending {A} (key : A -> Q) l k :
  descending key l -> descending key (slice_to l k).
Proof.
  unfold slice_to. destruct (0 <=? k)%Z; apply firstn_descending.
Qed.

Lemma descending_head {A} (key : A -> Q) x l y :
  descending key (x :: l) -> In y (x :: l) -> key y <= key x.
Proof.
  intros H [<- | Hy]; [apply Qle_refl |].
  inversion H as [|? ? _ Hx]; subst. rewrite Forall_forall in Hx.
  apply Hx. exact Hy.
Qed.

Lemma firstn_NoDup {A} n (l : list A) : NoDup l -> NoDup (firstn n l).
Proof.
  revert l. induction n as [|n IH]; intros l H; simpl; [constructor |].
  destruct H as [|x l Hx Hl]; [constructor |].
  constructor; [| apply IH; exact Hl].
  intros Hin. apply Hx. eapply ListFacts.In_firstn_inv; exact Hin.
Qed.

Lemma slice_to_length {A} (l : list A) k :
  (0 <= k)%Z -> (List.length (slice_to l k) <= Z.to_nat k)%nat.
Proof.
  intros Hk. unfold slice_to.
  destruct (0 <=? k)%Z eqn:E; [| apply Z.leb_gt in E; lia].
  rewrite length_firstn. lia.
Qed.

(** The best match with the alternates is a prefix of the ranked
    matches. *)
Lemma head_slice_prefix {A} (x : A) l k :
  exists n, x :: slice_1_to (x :: l) k = firstn (S n) (x :: l)
            /\ ((0 < k)%Z -> (S n <= Z.to_nat k)%nat).
Proof.
  unfold slice_1_to, slice_to.
  destruct (0 <=? k)%Z eqn:E.
  - destruct (Z.to_nat k) as [|n] eqn:En.
    + exists 0%nat. split; [reflexivity |]. intros Hk. lia.
    + exists n. split; [reflexivity |]. intros _. lia.
  - apply Z.leb_gt in E.
    destruct (Z.to_nat (Z.of_nat (List.length (x :: l)) + k)) as [|n].
    + exists 0%nat. split; [reflexivity |]. lia.
    + exists n. split; [reflexivity |]. lia.
Qed.

End SortFacts.

(** ** search.py: what the ranked result looks like *)

Module RankingFacts.

Import Config Database Search Spec Ranking ListFacts SortFacts.

Section WithPlatform.

Variable P : Platform.

Lemma _merge_and_rank_descending self fz sem d k :
  descending snd (_merge_and_rank self fz sem d k).
Proof.
  unfold _merge_and_rank. apply slice_to_descending.
  apply sort_desc_descending.
Qed.

Lemma _merge_and_rank_ids self fz sem d k :
  NoDup (map (fun c => concept_id (data (cand_concept (fst c))))
           (_merge_and_rank self fz sem d k)).
Proof.
  unfold _merge_and_rank, slice_to.
  set (scored := map (fun kv => (snd kv, combined_score self (snd kv)))
                   (merge fz sem)).
  assert (H : NoDup (map (fun c => concept_id (data (cand_concept (fst c))))
                       (sort_desc snd scored))).
  { eapply Permutation_NoDup.
    - apply Permutation_map. apply Permutation_sym. apply sort_desc_perm.
    - unfold scored. rewrite map_map. simpl.
      rewrite (map_ext_in _ fst).
      + apply MergeFacts.merge_keys.
      + intros [id c] Hin. simpl.
        apply (MergeFacts.merge_scores fz sem id c Hin). }
  destruct (0 <=? k * 2)%Z; rewrite <- firstn_map; apply firstn_NoDup;
    exact H.
Qed.

(** The matches that the fused tier returns are a prefix of the ranked
    candidates, resolved. *)
Lemma fused_returned_prefix self q nq d k fz sem w first rest :
  _merge_and_rank self fz sem d k = first :: rest ->
  exists n,
    returned_matches (rank_and_resolve P self q nq d k fz sem w)
    = firstn (S n) (map (resolve_candidate self) (first :: rest))
    /\ ((0 < k)%Z -> (S n <= Z.to_nat k)%nat).
Proof.
  intros E. unfold rank_and_resolve. rewrite E.
  unfold returned_matches. simpl Models.best_match. simpl Models.candidates.
  simpl map. simpl List.length.
  destruct (1 <? S (List.length (map (resolve_candidate self) rest)))%nat.
  - apply head_slice_prefix.
  - exists 0%nat. split; [reflexivity | lia].
Qed.

Lemma fused_empty self q nq d k fz sem w :
  _merge_and_rank self fz sem d k = [] ->
  rank_and_resolve P self q nq d k fz sem w
  = {| Models.query := q;
       Models.normalized_query := nq;
       Models.domain_filter := d;
       Models.success := false;
       Models.best_match := None;
       Models.candidates := [];
       Models.warnings := w ++ [str "No matches found"] |}.
Proof. intros E. unfold rank_and_resolve. rewrite E. reflexivity. Qed.

Lemma py_min_monotone a b : a <= b -> py_min a 1 <= py_min b 1.
Proof.
  intros H. apply ScoreFacts.py_min_glb; [| apply ScoreFacts.py_min_le_r].
  destruct (ScoreFacts.py_min_spec a 1) as [[H1 ->] | [H1 ->]].
  - eapply Qle_trans; [apply Qlt_le_weak; exact H1 | exact H].
  - exact H.
Qed.

(** X7.  In every result the best match is at least as confident as each
    alternate. *)
Theorem best_match_most_confident self q d k r s' best m :
  search P self q d k = Some (r, s') ->
  Models.best_match r = Some best ->
  In m (Models.candidates r) ->
  Models.confidence m <= Models.confidence best.
Proof.
  intros H Hb Hm. apply SearchFacts.search_cases in H. cbv zeta in H.
  destruct H as [[x [_ H]]
                | [[bf [rest [_ [_ [_ H]]]]] | [fz [_ [_ [_ [_ Hr]]]]]]].
  - apply SearchFacts.early_exit_spec in H.
    destruct H as [_ [_ [Hc _]]]. rewrite Hc in Hm. contradiction.
  - apply SearchFacts.early_exit_spec in H.
    destruct H as [_ [_ [Hc _]]]. rewrite Hc in Hm. contradiction.
  - set (top_k := with_default 5%Z k) in *.
    set (nq := Normalize.normalize_text (unicode P) q) in *.
    set (sem := fst (fst (semantic_tier P self nq d top_k))) in *.
    set (w := snd (fst (semantic_tier P self nq d top_k))) in *.
    destruct (_merge_and_rank s' fz sem d top_k) as [|first rest] eqn:E.
    + rewrite (fused_empty s' q nq d top_k fz sem w E) in Hr.
      subst r. discriminate.
    + destruct (fused_returned_prefix s' q nq d top_k fz sem w first rest E)
        as [n [Hp _]].
      rewrite <- Hr in Hp. unfold returned_matches in Hp. rewrite Hb in Hp.
      simpl in Hp. inversion Hp as [[Hbest Hc]]. 
      assert (Hin : In m (map (resolve_candidate s') (first :: rest))).
      { right. eapply In_firstn_inv. rewrite <- Hc. exact Hm. }
      apply in_map_iff in Hin. destruct Hin as [c [<- Hc']]. simpl.
      apply py_min_monotone.
      apply (descending_head snd first rest c); [| exact Hc'].
      rewrite <- E. apply _merge_and_rank_descending.
Qed.

(** X8.  No concept is returned twice: the best match and the alternates
    of a result have pairwise distinct concept ids. *)
Theorem returned_concepts_distinct self q d k r s' :
  search P self q d k = Some (r, s') ->
  NoDup (map Models.concept_id (returned_matches r)).
Proof.
  intros H. apply SearchFacts.search_cases in H. cbv zeta in H.
  assert (Hone : forall x conf nt st,
            early_exit self q (Normalize.normalize_text (unicode P) q) d
              x conf nt st = Some (r, s') ->
            NoDup (map Models.concept_id (returned_matches r))).
  { intros x conf nt st Hx. apply SearchFacts.early_exit_spec in Hx.
    destruct Hx as [_ [_ [Hc [_ [_ [mt [txt Hb]]]]]]].
    unfold returned_matches. rewrite Hb, Hc. simpl.
    constructor; [intros [] | constructor]. }
  destruct H as [[x [_ H]]
                | [[bf [rest [_ [_ [_ H]]]]] | [fz [_ [_ [_ [_ Hr]]]]]]];
    [eapply Hone; exact H | eapply Hone; exact H |].
  set (top_k := with_default 5%Z k) in *.
  set (nq := Normalize.normalize_text (unicode P) q) in *.
  set (sem := fst (fst (semantic_tier P self nq d top_k))) in *.
  set (w := snd (fst (semantic_tier P self nq d top_k))) in *.
  destruct (_merge_and_rank s' fz sem d top_k) as [|first rest] eqn:E.
  - rewrite (fused_empty s' q nq d top_k fz sem w E) in Hr.
    subst r. constructor.
  - destruct (fused_returned_prefix s' q nq d top_k fz sem w first rest E)
      as [n [Hp _]].
    rewrite <- Hr in Hp. rewrite Hp. rewrite <- firstn_map.
    apply firstn_NoDup. rewrite <- E, map_map.
    apply (_merge_and_rank_ids s' fz sem d top_k).
Qed.

Lemma search_matches_length self q d k r s' :
  (0 < with_default 5 k)%Z ->
  search P self q d k = Some (r, s') ->
  (List.length (returned_matches r) <= Z.to_nat (with_default 5%Z k))%nat.
Proof.
  intros Hk H. apply SearchFacts.search_cases in H. cbv zeta in H.
  assert (Hone : forall x conf nt st,
            early_exit self q (Normalize.normalize_text (unicode P) q) d
              x conf nt st = Some (r, s') ->
            (List.length (returned_matches r)
             <= Z.to_nat (with_default 5%Z k))%nat).
  { intros x conf nt st Hx. apply SearchFacts.early_exit_spec in Hx.
    destruct Hx as [_ [_ [Hc [_ [_ [mt [txt Hb]]]]]]].
    unfold returned_matches. rewrite Hb, Hc. simpl. lia. }
  destruct H as [[x [_ H]]
                | [[bf [rest [_ [_ [_ H]]]]] | [fz [_ [_ [_ [_ Hr]]]]]]];
    [eapply Hone; exact H | eapply Hone; exact H |].
  set (top_k := with_default 5%Z k) in *.
  set (nq := Normalize.normalize_text (unicode P) q) in *.
  set (sem := fst (fst (semantic_tier P self nq d top_k))) in *.
  set (w := snd (fst (semantic_tier P self nq d top_k))) in *.
  destruct (_merge_and_rank s' fz sem d top_k) as [|first rest] eqn:E.
  - rewrite (fused_empty s' q nq d top_k fz sem w E) in Hr.
    subst r. simpl. lia.
  - destruct (fused_returned_prefix s' q nq d top_k fz sem w first rest E)
      as [n [Hp Hn]].
    rewrite <- Hr in Hp. rewrite Hp. rewrite length_firstn.
    specialize (Hn Hk). lia.
Qed.

(** X9.  A search asked for [top_k >= 1] candidates returns at most [top_k]
    matches, the best match included. *)
Theorem returned_matches_bound self q d k r s' :
  (0 < with_default 5 k)%Z ->
  search P self q d k = Some (r, s') ->
  (List.length (returned_matches r) <= Z.to_nat (with_default 5%Z k))%nat.
Proof. exact (search_matches_length self q d k r s'). Qed.

(** X10.  With [top_k = 0], a query that takes neither early exit is
    answered "No matches found", whatever the fuzzy and the semantic tier
    have found. *)
Theorem top_k_zero_no_matches self q d r s' fz :
  search P self q d (Some 0%Z) = Some (r, s') ->
  _exact_match self (Normalize.normalize_text (unicode P) q) d = [] ->
  _fuzzy_match P self (Normalize.normalize_text (unicode P) q)
    (Normalize.tokenize (unicode P)
       (Normalize.normalize_text (unicode P) q)) d = Some fz ->
  high_confidence_fuzzy self fz = None ->
  Models.success r = false
  /\ Models.best_match r = None
  /\ Models.candidates r = []
  /\ exists w, Models.warnings r = w ++ [str "No matches found"].
Proof.
  intros H Hex Hfz Hh. apply SearchFacts.search_cases in H. cbv zeta in H.
  destruct H as [[x [Hx _]]
                | [[bf [rest [_ [Hfz' [Hh' _]]]]] | [fz' [_ [_ [_ [_ Hr]]]]]]].
  - rewrite Hex in Hx. contradiction.
  - rewrite Hfz in Hfz'. inversion Hfz'; subst. congruence.
  - simpl with_default in Hr.
    rewrite fused_empty in Hr; [subst r; simpl; eauto 6 |].
    unfold _merge_and_rank. reflexivity.
Qed.

End WithPlatform.

End RankingFacts.

(** ** search.py and database.py: the tiers and the resolution *)

Module ProtocolFacts.

Import Config Database Search Spec Ranking Protocol ListFacts SortFacts.

(** *** The Maps-To table *)

Lemma MapsTo_eqb_eq a b : MapsTo_eqb a b = true <-> a = b.
Proof.
  unfold MapsTo_eqb. split.
  - intros H. repeat (apply andb_true_iff in H; destruct H as [H ?]).
    destruct a, b; simpl in *.
    apply Z.eqb_eq in H.
    repeat match goal with
           | E : Z.eqb _ _ = true |- _ => apply Z.eqb_eq in E
           | E : text_eqb _ _ = true |- _ =>
               apply NormalizeFacts.text_eqb_eq in E
           end.
    subst. reflexivity.
  - intros ->. rewrite !Z.eqb_refl, !NormalizeFacts.text_eqb_refl.
    reflexivity.
Qed.

Lemma distinct_complete r : forall rows seen,
  In r rows -> In r seen \/ In r (distinct seen rows).
Proof.
  induction rows as [|x rows IH]; simpl; intros seen H; [contradiction |].
  destruct (existsb (MapsTo_eqb x) seen) eqn:E.
  - destruct H as [-> | H]; [| apply IH; exact H].
    left. apply existsb_exists in E. destruct E as [y [Hy Ey]].
    apply MapsTo_eqb_eq in Ey. subst. exact Hy.
  - destruct H as [-> | H]; [right; left; reflexivity |].
    destruct (IH (x :: seen) H) as [[-> | Hs] | Hd]; auto.
    + right; left; reflexivity.
    + right; right; exact Hd.
Qed.

Lemma distinct_NoDup : forall rows seen,
  NoDup (distinct seen rows)
  /\ forall r, In r (distinct seen rows) -> ~ In r seen.
Proof.
  induction rows as [|x rows IH]; simpl; intros seen.
  - split; [constructor | intros r []].
  - destruct (existsb (MapsTo_eqb x) seen) eqn:E; [apply IH |].
    assert (Hx : ~ In x seen).
    { intros Hin. assert (existsb (MapsTo_eqb x) seen = true).
      { apply existsb_exists. exists x. split; [exact Hin |].
        apply MapsTo_eqb_eq. reflexivity. }
      congruence. }
    destruct (IH (x :: seen)) as [Hn Hs]. split.
    + constructor; [| exact Hn]. intros Hin. apply (Hs x Hin). left; auto.
    + intros r [<- | Hr]; [exact Hx |].
      intros Hin. apply (Hs r Hr). right; exact Hin.
Qed.

Lemma get_maps_to_valid_edge d id :
  maps_to_built d ->
  (get_maps_to d id <> None <-> valid_edge d id).
Proof.
  intros Hb. unfold get_maps_to. split.
  - intros H.
    destruct (find _ (maps_to_lookup d)) as [r |] eqn:E; [| congruence].
    apply find_some in E. destruct E as [Hin Hid].
    apply Z.eqb_eq in Hid. rewrite Hb in Hin.
    unfold _create_maps_to_lookup in Hin.
    apply ResolutionFacts.distinct_In in Hin.
    apply in_flat_map in Hin. destruct Hin as [cr [Hcr Hin]].
    apply in_flat_map in Hin. destruct Hin as [target [Ht Hin]].
    destruct (_ && _) eqn:Ec; [| contradiction].
    destruct Hin as [<- | []]. simpl in Hid.
    repeat (apply andb_true_iff in Ec; destruct Ec as [Ec ?]).
    exists cr, target. repeat split; try assumption.
    + apply Z.eqb_eq. assumption.
    + apply NormalizeFacts.text_eqb_eq. assumption.
    + destruct (rel_invalid_reason cr); [discriminate | reflexivity].
    + apply ResolutionFacts.is_S_eq. assumption.
    + destruct (invalid_reason target); [discriminate | reflexivity].
  - intros [cr [target [Hcr [Ht [Hid [H2 [Hrel [Hv [Hs Hi]]]]]]]]].
    set (row := {| source_concept_id := concept_id_1 cr;
                   standard_concept_id := concept_id (info target);
                   standard_concept_name := concept_name (info target);
                   standard_domain_id := domain_id (info target);
                   standard_vocabulary_id := vocabulary_id (info target) |}).
    assert (Hin : In row (maps_to_lookup d)).
    { rewrite Hb. unfold _create_maps_to_lookup.
      match goal with
      | |- In _ (distinct [] ?rows) =>
          assert (Hr : In row rows);
            [| destruct (distinct_complete row rows [] Hr) as [[] | H];
               exact H]
      end.
      apply in_flat_map. exists cr. split; [exact Hcr |].
      apply in_flat_map. exists target. split; [exact Ht |].
      rewrite H2, Z.eqb_refl, Hrel, NormalizeFacts.text_eqb_refl, Hv, Hi.
      apply ResolutionFacts.is_S_eq in Hs. rewrite Hs. left. reflexivity. }
    intros E.
    apply (find_none _ _ E) in Hin. simpl in Hin.
    rewrite Hid, Z.eqb_refl in Hin. discriminate.
Qed.

(** X11.  The Maps-To table built from the vocabulary has no duplicate
    row, and [get_maps_to] finds a mapping for a concept exactly when the
    concept has a valid "Maps to" relationship to a valid standard
    concept. *)
Theorem get_maps_to_complete d id :
  maps_to_built d ->
  NoDup (maps_to_lookup d)
  /\ (get_maps_to d id <> None <-> valid_edge d id).
Proof.
  intros Hb. split.
  - rewrite Hb. unfold _create_maps_to_lookup. apply distinct_NoDup.
  - apply get_maps_to_valid_edge. exact Hb.
Qed.

(** X12.  The resolution status of a created match is decided by the
    standard flag and the Maps-To relationships alone: already-standard
    exactly for the flag 'S'; otherwise mapped-to-standard exactly when the
    concept has a valid mapping, and no-mapping-available exactly when it
    has none. *)
Theorem _create_match_status self cd conf mt txt :
  maps_to_built (db self) ->
  let m := _create_match self cd conf mt txt in
  (Models.resolution_status m = Models.ALREADY_STANDARD
   <-> standard_concept (data cd) = Some (str "S"))
  /\ (Models.resolution_status m = Models.MAPPED_TO_STANDARD
      <-> standard_concept (data cd) <> Some (str "S")
          /\ valid_edge (db self) (concept_id (data cd)))
  /\ (Models.resolution_status m = Models.NO_MAPPING_AVAILABLE
      <-> standard_concept (data cd) <> Some (str "S")
          /\ ~ valid_edge (db self) (concept_id (data cd))).
Proof.
  intros Hb. cbv zeta.
  pose proof (get_maps_to_valid_edge (db self) (concept_id (data cd)) Hb)
    as Hedge.
  unfold _create_match. simpl.
  destruct (is_S (standard_concept (data cd))) eqn:Es; simpl.
  - apply ResolutionFacts.is_S_eq in Es.
    repeat split; try tauto; try discriminate; intros [H _]; congruence.
  - assert (Hns : standard_concept (data cd) <> Some (str "S")).
    { intros H. apply ResolutionFacts.is_S_eq in H. congruence. }
    destruct (get_maps_to (db self) (concept_id (data cd))) as [r |] eqn:E;
      simpl.
    + assert (He : valid_edge (db self) (concept_id (data cd)))
        by (apply Hedge; discriminate).
      repeat split; try tauto; try discriminate; try congruence.
    + assert (He : ~ valid_edge (db self) (concept_id (data cd))).
      { intros H. apply Hedge in H. congruence. }
      repeat split; try tauto; try discriminate; try congruence.
Qed.

(** *** The exact tier *)

(** X13.  Among several exact hits, [_select_best_match] returns one of
    them whose weight (vocabulary preference, raised for a standard concept
    and for a concept name) no other hit exceeds. *)
Theorem _select_best_match_maximal self ms d b :
  _select_best_match self ms d = Some b ->
  In b ms /\ forall m, In m ms -> exact_weight self m <= exact_weight self b.
Proof.
  intros H. split; [exact (SearchFacts._select_best_match_In _ _ _ _ H) |].
  intros m Hm. unfold _select_best_match in H.
  destruct ms as [|m1 [|m2 ms]].
  - destruct Hm.
  - injection H as <-. destruct Hm as [<- | []]. apply Qle_refl.
  - cbv beta iota in H.
    match type of H with
    | match sort_desc fst ?sc with _ => _ end = _ =>
        pose proof (sort_desc_descending fst sc) as Hd;
        pose proof (sort_desc_perm fst sc) as Hp;
        destruct (sort_desc fst sc) as [|first rest]; [discriminate |]
    end.
    injection H as <-.
    assert (Hf : In first (first :: rest)) by (left; reflexivity).
    apply (Permutation_in _ Hp) in Hf.
    apply in_map_iff in Hf. destruct Hf as [x [Hx _]].
    assert (Hm' : In (exact_weight self m, m) (first :: rest)).
    { apply (Permutation_in _ (Permutation_sym Hp)).
      apply in_map_iff. exists m. split; [reflexivity | exact Hm]. }
    apply (descending_head fst _ _ _ Hd) in Hm'.
    subst first. exact Hm'.
Qed.

Section WithPlatform.

Variable P : Platform.

(** *** The fuzzy tier *)

Lemma flat_map_length_le {A B} (f : A -> list B) l :
  (forall x, (List.length (f x) <= 1)%nat) ->
  (List.length (flat_map f l) <= List.length l)%nat.
Proof.
  intros Hf. induction l as [|x l IH]; simpl; [lia |].
  rewrite length_app. specialize (Hf x). lia.
Qed.

(** X14.  The fuzzy tier returns at most fifty results, best score
    first. *)
Theorem _fuzzy_match_bounds self nq tokens d fz :
  _fuzzy_match P self nq tokens d = Some fz ->
  (List.length fz <= 50)%nat /\ descending score fz.
Proof.
  unfold _fuzzy_match.
  destruct (get_candidates_by_token_overlap _ _ _ _ _) as [[|c cs] |];
    [| | discriminate].
  - intros H. injection H as <-. simpl. split; [lia | constructor].
  - intros H. injection H as <-. split.
    + rewrite sort_desc_length.
      etransitivity; [apply flat_map_length_le |].
      * intros m. destruct (nth_error _ _); simpl; lia.
      * unfold extract. rewrite length_firstn. lia.
    + apply sort_desc_descending.
Qed.

(** *** From which tier a search returns *)

Lemma search_tier self q d k r s' :
  search P self q d k = Some (r, s') ->
  (tier P self q d <> Fused
   /\ s' = self /\ Models.success r = true /\ Models.candidates r = []
   /\ Models.warnings r = [] /\ Models.best_match r <> None)
  \/ (tier P self q d = Fused
      /\ s' = snd (semantic_tier P self
                     (Normalize.normalize_text (unicode P) q) d
                     (with_default 5%Z k))).
Proof.
  intros H. unfold tier. cbv zeta.
  apply SearchFacts.search_cases in H. cbv zeta in H.
  destruct H as [[best [Hin H]]
                | [[bf [rest [Ex [Ef [Eh H]]]]] | [fz [Ex [Ef [Eh [Hs _]]]]]]].
  - left. apply SearchFacts.early_exit_spec in H.
    destruct H as [-> [Hs [Hc [Hw [_ [mt [txt Hb]]]]]]].
    rewrite Hb. destruct (_exact_match self _ d); [destruct Hin |].
    repeat split; auto; discriminate.
  - left. apply SearchFacts.early_exit_spec in H.
    destruct H as [-> [Hs [Hc [Hw [_ [mt [txt Hb]]]]]]].
    rewrite Hb, Ex, Ef, Eh. repeat split; auto; discriminate.
  - right. rewrite Ex, Ef, Eh. split; [reflexivity | exact Hs].
Qed.

(** X15.  Lowering [fuzzy_high_confidence] keeps every fuzzy early exit:
    a query that leaves [search] at the fuzzy tier under a threshold leaves
    it there under every lower threshold, with the same result. *)
Theorem fuzzy_exit_monotone h1 h2 self q d k r s' :
  h1 <= h2 ->
  tier P (with_fuzzy_high h2 self) q d = FuzzyExit ->
  search P (with_fuzzy_high h2 self) q d k = Some (r, s') ->
  tier P (with_fuzzy_high h1 self) q d = FuzzyExit
  /\ search P (with_fuzzy_high h1 self) q d k
     = Some (r, with_fuzzy_high h1 self).
Proof.
  intros Hh Ht H. unfold tier in *. unfold search in *. cbv zeta in *.
  set (nq := Normalize.normalize_text (unicode P) q) in *.
  set (tokens := Normalize.tokenize (unicode P) nq) in *.
  change (_exact_match (with_fuzzy_high h1 self) nq d)
    with (_exact_match self nq d).
  change (_exact_match (with_fuzzy_high h2 self) nq d)
    with (_exact_match self nq d) in *.
  change (_fuzzy_match P (with_fuzzy_high h1 self) nq tokens d)
    with (_fuzzy_match P self nq tokens d).
  change (_fuzzy_match P (with_fuzzy_high h2 self) nq tokens d)
    with (_fuzzy_match P self nq tokens d) in *.
  destruct (_exact_match self nq d); [| discriminate].
  destruct (_fuzzy_match P self nq tokens d) as [[|bf rest] |];
    try discriminate.
  unfold high_confidence_fuzzy in *.
  change (fuzzy_high_confidence (config (with_fuzzy_high h1 self))) with h1.
  change (fuzzy_high_confidence (config (with_fuzzy_high h2 self)))
    with h2 in *.
  destruct (Qle_bool h2 (score bf)) eqn:E2; [| discriminate].
  assert (E1 : Qle_bool h1 (score bf) = true).
  { apply Qle_bool_iff. apply Qle_bool_iff in E2.
    eapply Qle_trans; eassumption. }
  rewrite E1. split; [reflexivity |].
  unfold early_exit in *.
  destruct (data_source_type (concept bf)); [| discriminate].
  destruct (data_search_text (concept bf)); [| discriminate].
  injection H as <- _. reflexivity.
Qed.

(** *** The lazy load of the semantic search *)

Lemma semantic_tier_settles self nq d k :
  settled (snd (semantic_tier P self nq d k)).
Proof.
  unfold semantic_tier.
  destruct (enable_semantic self) eqn:Ee; [| left; exact Ee].
  unfold _get_semantic_search.
  destruct (_semantic_search self) as [sem |] eqn:Es.
  - destruct (is_available sem).
    + unfold _semantic_match, _get_semantic_search. rewrite Es.
      destruct (nearest sem nq (k * 2)); right; simpl; congruence.
    + right; simpl; congruence.
  - rewrite Ee. destruct (embeddings P) as [sem |].
    + destruct (is_available sem).
      * unfold _semantic_match, _get_semantic_search. simpl.
        destruct (nearest sem nq (k * 2)); right; simpl; discriminate.
      * right; simpl; discriminate.
    + left. reflexivity.
Qed.

Lemma semantic_tier_settled self nq d k :
  settled self -> snd (semantic_tier P self nq d k) = self.
Proof.
  intros Hs. unfold semantic_tier.
  destruct (enable_semantic self) eqn:Ee; [| reflexivity].
  destruct Hs as [Hs | Hs]; [congruence |].
  unfold _get_semantic_search.
  destruct (_semantic_search self) as [sem |] eqn:Es; [| congruence].
  destruct (is_available sem); [| reflexivity].
  unfold _semantic_match, _get_semantic_search. rewrite Es.
  destruct (nearest sem nq (k * 2)); reflexivity.
Qed.

Lemma search_settled self q d k r s' :
  settled self -> search P self q d k = Some (r, s') -> s' = self.
Proof.
  intros Hs H. apply search_tier in H.
  destruct H as [[_ [H _]] | [_ H]]; [exact H |].
  rewrite H. apply semantic_tier_settled. exact Hs.
Qed.

(** X16.  A search changes the searcher at most once: a search that
    reaches the fused tier leaves the searcher settled (the semantic search
    loaded, or the semantic tier switched off), every other search leaves
    it as it was, and a settled searcher is never changed again. *)
Theorem search_settles self q d k r s' :
  search P self q d k = Some (r, s') ->
  (tier P self q d = Fused -> settled s')
  /\ (tier P self q d <> Fused -> s' = self)
  /\ (settled self -> s' = self).
Proof.
  intros H. split; [| split].
  - intros Ht. apply search_tier in H.
    destruct H as [[Hn _] | [_ H]]; [contradiction |].
    rewrite H. apply semantic_tier_settles.
  - intros Ht. apply search_tier in H.
    destruct H as [[_ [H _]] | [Hf _]]; [exact H | contradiction].
  - intros Hs. apply (search_settled self q d k r s' Hs H).
Qed.

End WithPlatform.

End ProtocolFacts.

(** ** __init__.py: batches, and searches that return *)

Module BatchFacts.

Import Normalize Config Database Search Api Spec Shape Protocol ProtocolFacts.

Section WithPlatform.

Variable P : Platform.

(** *** [search] returns *)

Lemma token_sql_literal_safe w :
  is_alnum (unicode P) QUOTE = false ->
  token (unicode P) w -> sql_literal_safe w = true.
Proof.
  intros Hq [_ Hw]. unfold sql_literal_safe. apply forallb_forall.
  intros c Hc. rewrite Forall_forall in Hw. destruct (Hw c Hc) as [Hword _].
  destruct (N.eqb_spec c QUOTE) as [-> |]; [| reflexivity].
  unfold is_word in Hword. rewrite Hq in Hword. discriminate.
Qed.

Lemma early_exit_rows self q nq d best conf nt st e :
  best = exact_row e \/ best = overlap_row e ->
  exists r, early_exit self q nq d best conf nt st = Some (r, self).
Proof.
  intros [-> | ->]; unfold early_exit; simpl; eexists; reflexivity.
Qed.

(** X17.  [search] returns a result for every query, whatever its
    characters, as long as [max_fuzzy_candidates] is a limit that the
    engine takes (not negative, within its 64-bit integers) and the domain
    filter holds no quote character: the normalized tokens that reach the
    statement of the fuzzy tier never hold one. *)
Theorem search_returns self q d k :
  is_space (unicode P) SPACE = true ->
  is_alnum (unicode P) QUOTE = false ->
  (0 <= max_fuzzy_candidates (config self) <= MAX_BIGINT)%Z ->
  (forall f, d = Some f -> sql_literal_safe f = true) ->
  exists r s', search P self q d k = Some (r, s').
Proof.
  intros Hsp Hq Hlim Hd. unfold search. cbv zeta.
  set (nq := normalize_text (unicode P) q).
  destruct (_exact_match self nq d) as [|x xs] eqn:Ex.
  - assert (Hc : exists cs,
               get_candidates_by_token_overlap (db self)
                 (tokenize (unicode P) nq) d 1
                 (max_fuzzy_candidates (config self)) = Some cs).
    { unfold get_candidates_by_token_overlap.
      destruct (tokenize (unicode P) nq) as [|t ts] eqn:Et;
        [eexists; reflexivity |].
      assert (Hs : forallb sql_literal_safe (t :: ts) = true).
      { apply forallb_forall. intros w Hw. rewrite <- Et in Hw.
        apply (token_sql_literal_safe w Hq).
        pose proof (ShapeFacts.tokenize_normalize_text_shape
                      (unicode P) Hsp q) as Hshape.
        rewrite Forall_forall in Hshape. apply Hshape. exact Hw. }
      rewrite Hs. unfold sql_limit.
      destruct Hlim as [Hlo Hhi].
      apply Z.ltb_ge in Hlo. apply Z.ltb_ge in Hhi. rewrite Hlo, Hhi.
      cbn [orb option_map].
      destruct d as [f |]; cbn [truthy andb].
      - rewrite (Hd f eq_refl). destruct f; eexists; reflexivity.
      - eexists; reflexivity. }
    destruct Hc as [cs Hc].
    destruct (_fuzzy_match P self nq (tokenize (unicode P) nq) d)
      as [fz |] eqn:Ef.
    + destruct (high_confidence_fuzzy self fz) as [bf |] eqn:Eh.
      * assert (Hin : In bf fz).
        { unfold high_confidence_fuzzy in Eh.
          destruct fz as [|b rest]; [discriminate |].
          destruct (Qle_bool _ _); [| discriminate].
          injection Eh as ->. left. reflexivity. }
        destruct (SearchFacts._fuzzy_match_In P self nq _ d fz bf Ef Hin)
          as [[e [_ [He _]]] _].
        destruct (early_exit_rows self q nq d (concept bf)
                    (score bf / 100) Models.FUZZY_NAME Models.FUZZY_SYNONYM
                    e (or_intror He)) as [r Hr].
        exists r, self. exact Hr.
      * destruct (semantic_tier P self nq d (with_default 5%Z k))
          as [[sem w] s1].
        eexists. eexists. reflexivity.
    + unfold _fuzzy_match in Ef. rewrite Hc in Ef.
      destruct cs; discriminate.
  - destruct (SearchFacts._select_best_match_some self (x :: xs) d)
      as [best Hb]; [discriminate |].
    rewrite Hb.
    pose proof (SearchFacts._select_best_match_In _ _ _ _ Hb) as Hin.
    rewrite <- Ex in Hin. unfold _exact_match in Hin.
    apply SearchFacts.exact_match_In in Hin.
    destruct Hin as [e [_ [He _]]].
    destruct (early_exit_rows self q nq d best 1 Models.EXACT_NAME
                Models.EXACT_SYNONYM e (or_introl He)) as [r Hr].
    exists r, self. exact Hr.
Qed.

(** *** What a result says of its query *)

Lemma search_echo self q d k r s' :
  search P self q d k = Some (r, s') ->
  Models.query r = q
  /\ Models.normalized_query r = normalize_text (unicode P) q
  /\ Models.domain_filter r = d.
Proof.
  intros H. apply SearchFacts.search_cases in H. cbv zeta in H.
  destruct H as [[best [_ H]]
                | [[bf [rest [_ [_ [_ H]]]]] | [fz [_ [_ [_ [_ H]]]]]]].
  - unfold early_exit in H.
    destruct (data_source_type best); [| discriminate].
    destruct (data_search_text best); [| discriminate].
    injection H as <- _. auto.
  - unfold early_exit in H.
    destruct (data_source_type (concept bf)); [| discriminate].
    destruct (data_search_text (concept bf)); [| discriminate].
    injection H as <- _. auto.
  - rewrite H. unfold rank_and_resolve. cbv zeta.
    destruct (_merge_and_rank _ _ _ _ _); auto.
Qed.

(** *** Batches *)

Lemma read_queries_nonblank lines :
  Forall (fun q => q <> []) (read_queries P lines).
Proof.
  unfold read_queries. apply Forall_forall. intros q Hq.
  apply in_flat_map in Hq. destruct Hq as [line [_ Hq]].
  destruct (strip (unicode P) line); [destruct Hq |].
  destruct Hq as [<- | []]. discriminate.
Qed.

Lemma process_queries_echo : forall qs self d rs s',
  process_queries P self qs d = Some (rs, s') ->
  map Models.query rs = qs
  /\ Forall (fun r => Models.domain_filter r = d) rs.
Proof.
  induction qs as [|q qs IH]; simpl; intros self d rs s' H.
  - injection H as <- _. split; [reflexivity | constructor].
  - destruct (search P self q d None) as [[r s1] |] eqn:E; [| discriminate].
    destruct (process_queries P s1 qs d) as [[rs' s2] |] eqn:E2;
      [| discriminate].
    injection H as <- _.
    destruct (IH s1 d rs' s2 E2) as [Hm Hf].
    apply search_echo in E. destruct E as [Hq [_ Hd]].
    simpl. rewrite Hq, Hm. split; [reflexivity |].
    constructor; assumption.
Qed.

Lemma filter_length_le {A} (f : A -> bool) l :
  (List.length (filter f l) <= List.length l)%nat.
Proof.
  induction l as [|x l IH]; simpl; [lia |].
  destruct (f x); simpl; lia.
Qed.

Variable database : OMOPDatabase.

(** X18.  A batch lookup answers its queries one for one and in order: the
    results are those of the non-blank lines of the file, stripped, each
    under the batch's domain filter; [total_queries] is their number,
    [successful_queries] never exceeds it, and the success rate lies
    between 0 and 1 (it is 0 for a file without queries). *)
Theorem batch_lookup_summary st lines d query_column has_header enable cfg
    b st' :
  batch_lookup P database st (TextFile lines) d query_column has_header
    enable cfg = Some (b, st') ->
  map Models.query (Models.results b) = read_queries P lines
  /\ Forall (fun r => Models.query r <> [] /\ Models.domain_filter r = d)
       (Models.results b)
  /\ Models.total_queries b = Z.of_nat (List.length (Models.results b))
  /\ (0 <= Models.successful_queries b <= Models.total_queries b)%Z
  /\ 0 <= success_rate b /\ success_rate b <= 1.
Proof.
  unfold batch_lookup. cbv zeta. cbn [input_queries].
  destruct (process_queries P _ (read_queries P lines) d)
    as [[rs s1] |] eqn:E; [| discriminate].
  intros H. injection H as <- _.
  destruct (process_queries_echo _ _ _ _ _ E) as [Hm Hf].
  assert (Hlen : List.length (read_queries P lines) = List.length rs).
  { rewrite <- Hm. apply length_map. }
  pose proof (filter_length_le Models.success rs) as Hs.
  unfold success_rate. simpl.
  split; [exact Hm |]. split.
  { pose proof (read_queries_nonblank lines) as Hn. rewrite <- Hm in Hn.
    rewrite Forall_forall in *. intros r Hr. split; [| apply Hf; exact Hr].
    apply Hn. apply in_map. exact Hr. }
  split; [rewrite Hlen; reflexivity |].
  split; [lia |].
  set (succ := Z.of_nat (List.length (filter Models.success rs))) in *.
  set (tot := Z.of_nat (List.length (read_queries P lines))) in *.
  assert (H0 : (0 <= succ)%Z) by (unfold succ; lia).
  assert (H1 : (succ <= Z.max tot 1)%Z) by (unfold succ, tot; lia).
  assert (H2 : (0 < Z.max tot 1)%Z) by lia.
  split.
  - apply Qle_shift_div_l; [unfold Qlt; simpl; lia |].
    rewrite Qmult_0_l. unfold Qle; simpl; lia.
  - apply Qle_shift_div_r; [unfold Qlt; simpl; lia |].
    rewrite Qmult_1_l. unfold Qle; simpl; lia.
Qed.

(** *** Queries of a batch do not influence one another *)

Lemma search_loaded sem self q d k :
  embeddings P = Some sem ->
  enable_semantic self = true ->
  _semantic_search self = None ->
  option_map fst (search P (loaded sem self) q d k)
  = option_map fst (search P self q d k)
  /\ forall r s', search P self q d k = Some (r, s') ->
       s' = self \/ s' = loaded sem self.
Proof.
  intros He Hen Hh.
  assert (Ht : forall nq top_k,
             semantic_tier P self nq d top_k
             = semantic_tier P (loaded sem self) nq d top_k).
  { intros nq top_k. unfold semantic_tier, loaded. simpl. rewrite Hen.
    unfold _get_semantic_search. simpl. rewrite Hh, ?Hen, He.
    destruct (is_available sem); [| reflexivity].
    unfold _semantic_match, _get_semantic_search. simpl. reflexivity. }
  assert (Hl : forall nq top_k,
             snd (semantic_tier P (loaded sem self) nq d top_k)
             = loaded sem self).
  { intros. apply semantic_tier_settled. right. discriminate. }
  unfold search. cbv zeta.
  set (nq := normalize_text (unicode P) q).
  set (tokens := tokenize (unicode P) nq).
  change (_exact_match (loaded sem self) nq d) with (_exact_match self nq d).
  change (_fuzzy_match P (loaded sem self) nq tokens d)
    with (_fuzzy_match P self nq tokens d).
  change (high_confidence_fuzzy (loaded sem self))
    with (high_confidence_fuzzy self).
  change (_select_best_match (loaded sem self))
    with (_select_best_match self).
  assert (Hx : forall best conf nt st,
             option_map fst (early_exit (loaded sem self) q nq d best conf nt st)
             = option_map fst (early_exit self q nq d best conf nt st)
             /\ forall r s', early_exit self q nq d best conf nt st
                             = Some (r, s') -> s' = self).
  { intros. unfold early_exit.
    destruct (data_source_type best); [| split; [reflexivity | discriminate]].
    destruct (data_search_text best); [| split; [reflexivity | discriminate]].
    split; [reflexivity |]. intros r s' H. injection H as _ <-. reflexivity. }
  destruct (_exact_match self nq d).
  - destruct (_fuzzy_match P self nq tokens d) as [fz |];
      [| split; [reflexivity | discriminate]].
    destruct (high_confidence_fuzzy self fz) as [bf |].
    + destruct (Hx (concept bf) (score bf / 100) Models.FUZZY_NAME
                  Models.FUZZY_SYNONYM) as [H1 H2].
      split; [exact H1 |]. intros r s' H. left. eapply H2; exact H.
    + rewrite (Ht nq (with_default 5%Z k)).
      specialize (Hl nq (with_default 5%Z k)).
      destruct (semantic_tier P (loaded sem self) nq d (with_default 5%Z k))
        as [[srs w] s1].
      simpl in Hl. subst s1. split; [reflexivity |].
      intros r s' H. injection H as _ <-. right. reflexivity.
  - destruct (_select_best_match self (c :: l) d) as [best |];
      [| split; [reflexivity | discriminate]].
    destruct (Hx best 1 Models.EXACT_NAME Models.EXACT_SYNONYM) as [H1 H2].
    split; [exact H1 |]. intros r s' H. left. eapply H2; exact H.
Qed.

Lemma process_queries_settled : forall qs self d rs s',
  settled self ->
  process_queries P self qs d = Some (rs, s') ->
  s' = self
  /\ Forall2 (fun q r => search P self q d None = Some (r, self)) qs rs.
Proof.
  induction qs as [|q qs IH]; simpl; intros self d rs s' Hs H.
  - injection H as <- <-. split; [reflexivity | constructor].
  - destruct (search P self q d None) as [[r s1] |] eqn:E; [| discriminate].
    pose proof (search_settled P self q d None r s1 Hs E) as ->.
    destruct (process_queries P self qs d) as [[rs' s2] |] eqn:E2;
      [| discriminate].
    injection H as <- <-.
    destruct (IH self d rs' s2 Hs E2) as [-> HF].
    split; [reflexivity |]. constructor; assumption.
Qed.

(** X19.  The queries of a batch do not influence one another when the
    searcher is settled or the embeddings package can be imported: every
    result of the loop is the result that a search of its query alone
    gives on the searcher the batch started with. *)
Theorem process_queries_independent qs self d rs s' :
  settled self \/ embeddings P <> None ->
  process_queries P self qs d = Some (rs, s') ->
  Forall2 (fun q r => option_map fst (search P self q d None) = Some r)
    qs rs.
Proof.
  intros Hc H.
  assert (Hset : forall s qs rs s',
             settled s -> process_queries P s qs d = Some (rs, s') ->
             Forall2 (fun q r => option_map fst (search P s q d None) = Some r)
               qs rs).
  { intros s qs0 rs0 s0 Hs H0.
    destruct (process_queries_settled qs0 s d rs0 s0 Hs H0) as [_ HF].
    eapply Forall2_impl; [| exact HF].
    intros q r Hq. simpl in Hq. rewrite Hq. reflexivity. }
  destruct (enable_semantic self) eqn:Hen;
    [| apply (Hset self qs rs s' (or_introl Hen) H)].
  destruct (_semantic_search self) as [sem0 |] eqn:Hh.
  { apply (Hset self qs rs s'); [| exact H].
    right. rewrite Hh. discriminate. }
  destruct Hc as [[Hc | Hc] | Hc]; [congruence | congruence |].
  destruct (embeddings P) as [sem |] eqn:He; [| congruence].
  clear Hc Hset.
  assert (Hload : forall qs rs s',
             process_queries P (loaded sem self) qs d = Some (rs, s') ->
             Forall2
               (fun q r => option_map fst (search P self q d None) = Some r)
               qs rs).
  { intros qs0 rs0 s0 H0.
    destruct (process_queries_settled qs0 (loaded sem self) d rs0 s0)
      as [_ HF]; [right; discriminate | exact H0 |].
    eapply Forall2_impl; [| exact HF].
    intros q r Hq. simpl in Hq.
    destruct (search_loaded sem self q d None He Hen Hh) as [Heq _].
    rewrite <- Heq, Hq. reflexivity. }
  revert rs s' H. induction qs as [|q qs IH]; simpl; intros rs s' H.
  - injection H as <- _. constructor.
  - destruct (search P self q d None) as [[r s1] |] eqn:E; [| discriminate].
    destruct (process_queries P s1 qs d) as [[rs' s2] |] eqn:E2;
      [| discriminate].
    injection H as <- _.
    constructor; [rewrite E; reflexivity |].
    destruct (search_loaded sem self q d None He Hen Hh) as [_ Hst].
    destruct (Hst r s1 E) as [-> | ->].
    + apply (IH rs' s2 E2).
    + apply (Hload qs rs' s2 E2).
Qed.

End WithPlatform.

End BatchFacts.

(** ** database.py: the search table *)

Module BuildFacts.

Import Normalize Config Database Search Spec Build Protocol.

(** *** [translate] *)

Lemma translate_char_spaces c : forall from n,
  (List.length from <= n)%nat ->
  translate_char from (repeat SPACE n) c
  = [if existsb (N.eqb c) from then SPACE else c].
Proof.
  induction from as [|f from IH]; simpl; intros n Hn; [reflexivity |].
  destruct n as [|n]; [lia |]. simpl.
  destruct (N.eqb c f); [reflexivity |]. apply IH. lia.
Qed.

Lemma translate_spec s :
  translate s translate_from translate_to
  = map (fun c => if existsb (N.eqb c) translate_from then SPACE else c) s.
Proof.
  assert (Hc : forall c,
             translate_char translate_from translate_to c
             = [if existsb (N.eqb c) translate_from then SPACE else c]).
  { intros c. apply translate_char_spaces. vm_compute. lia. }
  unfold translate.
  induction s as [|c s IH]; [reflexivity |].
  cbn [flat_map map]. rewrite Hc, IH. reflexivity.
Qed.

Lemma translate_clean s c :
  In c (translate s translate_from translate_to) ->
  existsb (N.eqb c) translate_from = false.
Proof.
  rewrite translate_spec. intros H. apply in_map_iff in H.
  destruct H as [c0 [<- _]].
  destruct (existsb (N.eqb c0) translate_from) eqn:E; [reflexivity | exact E].
Qed.

(** *** Runs of spaces *)

Lemma drop_spaces_In s c : In c (drop_spaces s) -> In c s.
Proof.
  induction s as [|x s IH]; simpl; [auto |].
  destruct (N.eqb x SPACE); [right; auto | auto].
Qed.

Lemma collapse_spaces_In s c : In c (collapse_spaces s) -> In c s.
Proof.
  induction s as [|x s IH]; [auto |].
  simpl. destruct (N.eqb_spec x SPACE) as [-> |].
  - destruct s as [|y s']; [auto |].
    destruct (N.eqb y SPACE).
    + intros H. right. apply IH. exact H.
    + intros [<- | H]; [left; reflexivity | right; apply IH; exact H].
  - intros [<- | H]; [left; reflexivity | right; apply IH; exact H].
Qed.

Lemma sql_trim_In s c : In c (sql_trim s) -> In c s.
Proof.
  unfold sql_trim. intros H. apply in_rev in H.
  apply drop_spaces_In in H. apply in_rev in H.
  apply drop_spaces_In in H. exact H.
Qed.

Lemma drop_spaces_idem s : drop_spaces (drop_spaces s) = drop_spaces s.
Proof.
  induction s as [|x s IH]; simpl; [reflexivity |].
  destruct (N.eqb x SPACE) eqn:E; [exact IH |]. simpl. rewrite E. reflexivity.
Qed.

Lemma collapse_spaces_space r :
  collapse_spaces (SPACE :: r) = SPACE :: drop_spaces (collapse_spaces r).
Proof.
  induction r as [|c r IH]; [reflexivity |].
  change (collapse_spaces (SPACE :: c :: r))
    with (if (c =? SPACE)%N then collapse_spaces (c :: r)
          else SPACE :: collapse_spaces (c :: r)).
  destruct (N.eqb_spec c SPACE) as [-> | Hc].
  - rewrite IH. simpl. rewrite drop_spaces_idem. reflexivity.
  - f_equal. simpl. apply N.eqb_neq in Hc. rewrite Hc. simpl.
    rewrite Hc. reflexivity.
Qed.

Lemma collapse_spaces_cons c r :
  c <> SPACE -> collapse_spaces (c :: r) = c :: collapse_spaces r.
Proof. intros Hc. simpl. apply N.eqb_neq in Hc. rewrite Hc. reflexivity. Qed.

Lemma drop_spaces_nonspace c s :
  c <> SPACE -> drop_spaces (c :: s) = c :: s.
Proof. intros Hc. simpl. apply N.eqb_neq in Hc. rewrite Hc. reflexivity. Qed.

Lemma split_aux_words s :
  Forall (fun c => c <> SPACE) (fst (split_aux space_only s))
  /\ Forall (word space_only) (snd (split_aux space_only s)).
Proof.
  destruct (NormalizeFacts.split_aux_spec space_only s) as [Hw Hws].
  split; apply Forall_forall.
  - intros c Hc. destruct (Hw c Hc) as [_ H]. simpl in H.
    apply N.eqb_neq. exact H.
  - intros w Hin. destruct (Hws w Hin) as [Hne H]. split; [exact Hne |].
    apply Forall_forall. intros c Hc. apply (H c Hc).
Qed.

Lemma word_head w :
  word space_only w -> exists c r, w = c :: r /\ c <> SPACE.
Proof.
  intros [Hne Hw]. destruct w as [|c r]; [congruence |].
  exists c, r. split; [reflexivity |].
  inversion Hw as [|? ? Hc _]; subst. simpl in Hc.
  apply N.eqb_neq. exact Hc.
Qed.

(** The collapsed text: the first run, every later run behind one space,
    and one space at the end when the text ends with spaces. *)
Lemma collapse_spaces_runs s :
  exists t,
    (t = [] \/ t = [SPACE])
    /\ collapse_spaces s
       = fst (split_aux space_only s)
         ++ flat_map (cons SPACE) (snd (split_aux space_only s)) ++ t.
Proof.
  induction s as [|c s [t [Ht IH]]]; [exists []; auto |].
  pose proof (split_aux_words s) as [Hw Hws].
  cbn [split_aux]. destruct (split_aux space_only s) as [w ws].
  cbn [fst snd] in *. cbn [is_space space_only].
  destruct (N.eqb_spec c SPACE) as [-> | Hc].
  - rewrite collapse_spaces_space, IH. cbn [fst snd].
    destruct w as [|x w].
    + destruct ws as [|w1 ws].
      * exists [SPACE]. split; [auto |].
        destruct Ht as [-> | ->]; reflexivity.
      * exists t. split; [exact Ht |].
        inversion Hws as [|? ? H1 _]; subst.
        destruct (word_head w1 H1) as [y [r [-> Hy]]].
        cbn [flat_map app]. f_equal.
        match goal with
        | |- drop_spaces (SPACE :: ?x) = _ =>
            change (drop_spaces (SPACE :: x)) with (drop_spaces x)
        end.
        apply drop_spaces_nonspace. exact Hy.
    + exists t. split; [exact Ht |].
      inversion Hw as [|? ? Hx _]; subst.
      cbn [flat_map app]. f_equal.
      rewrite drop_spaces_nonspace by exact Hx. f_equal. apply app_assoc.
  - exists t. split; [exact Ht |].
    rewrite collapse_spaces_cons by exact Hc. rewrite IH. reflexivity.
Qed.

Lemma join_spaced : forall ws w,
  join [SPACE] (w :: ws) = w ++ flat_map (cons SPACE) ws.
Proof.
  induction ws as [|w' ws IH]; intros w.
  - simpl. rewrite app_nil_r. reflexivity.
  - change (join [SPACE] (w :: w' :: ws))
      with (w ++ SPACE :: join [SPACE] (w' :: ws)).
    rewrite IH. reflexivity.
Qed.

Lemma sql_trim_joined ws t :
  Forall (word space_only) ws -> ws <> [] ->
  t = [] \/ t = [SPACE] ->
  sql_trim (join [SPACE] ws ++ t) = join [SPACE] ws.
Proof.
  intros Hws Hne Ht. unfold sql_trim.
  destruct (ShapeFacts.join_head space_only ws Hws Hne) as [c [r [Eh Hc]]].
  destruct (ShapeFacts.join_last space_only ws Hws Hne) as [r' [c' [El Hc']]].
  simpl in Hc, Hc'. apply N.eqb_neq in Hc. apply N.eqb_neq in Hc'.
  assert (E1 : drop_spaces (join [SPACE] ws ++ t) = join [SPACE] ws ++ t).
  { rewrite Eh. cbn [app]. apply drop_spaces_nonspace. exact Hc. }
  rewrite E1, rev_app_distr, El, rev_app_distr. cbn [rev app].
  assert (E2 : drop_spaces (rev t ++ c' :: rev r') = c' :: rev r').
  { destruct Ht as [-> | ->]; cbn [rev app].
    - apply drop_spaces_nonspace. exact Hc'.
    - change (drop_spaces (SPACE :: c' :: rev r'))
        with (drop_spaces (c' :: rev r')).
      apply drop_spaces_nonspace. exact Hc'. }
  rewrite E2. cbn [rev]. rewrite rev_involutive. reflexivity.
Qed.

(** Collapsing the runs of spaces and trimming is splitting at the spaces
    and joining with one space. *)
Lemma sql_trim_collapse_spaces s :
  sql_trim (collapse_spaces s) = join [SPACE] (split space_only s).
Proof.
  destruct (collapse_spaces_runs s) as [t [Ht E]].
  pose proof (split_aux_words s) as [Hw Hws].
  unfold split. destruct (split_aux space_only s) as [w ws].
  cbn [fst snd] in *. rewrite E.
  destruct w as [|x w].
  - destruct ws as [|w1 ws].
    + destruct Ht as [-> | ->]; reflexivity.
    + assert (Es : flat_map (cons SPACE) (w1 :: ws)
                   = SPACE :: join [SPACE] (w1 :: ws))
        by (rewrite join_spaced; reflexivity).
      rewrite Es. cbn [app].
      match goal with
      | |- sql_trim (SPACE :: ?x) = _ =>
          change (sql_trim (SPACE :: x)) with (sql_trim x)
      end.
      apply sql_trim_joined; [exact Hws | discriminate | exact Ht].
  - rewrite app_assoc, <- join_spaced.
    apply sql_trim_joined; [| discriminate | exact Ht].
    constructor; [| exact Hws]. split; [discriminate |].
    eapply Forall_impl; [| exact Hw].
    intros c Hc. simpl. apply N.eqb_neq. exact Hc.
Qed.

(** *** Tight texts *)

Lemma no_double_space_nonspace c r :
  c <> SPACE -> no_double_space (c :: r) = no_double_space r.
Proof.
  intros Hc. apply N.eqb_neq in Hc. destruct r as [|c' r]; [reflexivity |].
  cbn [no_double_space]. rewrite Hc. reflexivity.
Qed.

Lemma no_double_space_space r :
  starts_with_space r = false ->
  no_double_space (SPACE :: r) = no_double_space r.
Proof.
  destruct r as [|c' r]; [reflexivity |]. cbn [starts_with_space].
  intros Hc. cbn [no_double_space]. rewrite Hc. reflexivity.
Qed.

Lemma no_double_space_word w r :
  Forall (fun c => c <> SPACE) w ->
  no_double_space (w ++ r) = no_double_space r.
Proof.
  induction 1 as [|c w Hc _ IH]; [reflexivity |].
  cbn [app]. rewrite no_double_space_nonspace by exact Hc. exact IH.
Qed.

Lemma word_nonspace w :
  word space_only w -> Forall (fun c => c <> SPACE) w.
Proof.
  intros [_ Hw]. eapply Forall_impl; [| exact Hw].
  intros c Hc. simpl in Hc. apply N.eqb_neq. exact Hc.
Qed.

Lemma join_tight ws :
  Forall (word space_only) ws -> tight (join [SPACE] ws) = true.
Proof.
  intros Hws. destruct ws as [|w0 ws0] eqn:Ews; [reflexivity |].
  rewrite <- Ews in *. assert (Hne : ws <> []) by (subst; discriminate).
  clear Ews. unfold tight.
  destruct (ShapeFacts.join_head space_only ws Hws Hne) as [c [r [Eh Hc]]].
  destruct (ShapeFacts.join_last space_only ws Hws Hne) as [r' [c' [El Hc']]].
  simpl in Hc, Hc'.
  assert (H1 : starts_with_space (join [SPACE] ws) = false)
    by (rewrite Eh; exact Hc).
  assert (H2 : starts_with_space (rev (join [SPACE] ws)) = false).
  { rewrite El, rev_app_distr. exact Hc'. }
  rewrite H1, H2. cbn [negb andb]. clear - Hws.
  induction Hws as [|w ws Hw Hws IH]; [reflexivity |].
  destruct ws as [|w' ws'].
  - cbn [join]. rewrite <- (app_nil_r w).
    rewrite no_double_space_word by (apply word_nonspace; exact Hw).
    reflexivity.
  - change (join [SPACE] (w :: w' :: ws'))
      with (w ++ SPACE :: join [SPACE] (w' :: ws')).
    rewrite no_double_space_word by (apply word_nonspace; exact Hw).
    rewrite no_double_space_space; [exact IH |].
    destruct (ShapeFacts.join_head space_only (w' :: ws') Hws)
      as [c [r [Eh Hc]]]; [discriminate |].
    rewrite Eh. exact Hc.
Qed.

Section WithEngine.

Variable sql_lower : text -> text.

Lemma sql_normalize_shape t :
  tight (sql_normalize sql_lower t) = true
  /\ forall c, In c (sql_normalize sql_lower t) ->
       existsb (N.eqb c) translate_from = false.
Proof.
  unfold sql_normalize. split.
  - rewrite sql_trim_collapse_spaces. apply join_tight.
    apply Forall_forall. intros w Hw.
    apply NormalizeFacts.split_In in Hw. destruct Hw as [Hne Hw].
    split; [exact Hne |]. apply Forall_forall. intros c Hc. apply (Hw c Hc).
  - intros c Hc. apply sql_trim_In in Hc. apply collapse_spaces_In in Hc.
    apply translate_clean in Hc. exact Hc.
Qed.

Lemma _create_search_table_text concepts synonyms e :
  In e (_create_search_table sql_lower concepts synonyms) ->
  search_text_normalized e = sql_normalize sql_lower (search_text e).
Proof.
  unfold _create_search_table. intros H. apply in_map_iff in H.
  destruct H as [row [<- _]]. reflexivity.
Qed.

(** X20.  The normalized text that [_create_search_table] stores is tight
    (no space at either end, no two spaces in a row) and holds none of the
    thirty-two punctuation characters of the statement, the underscore
    among them. *)
Theorem _create_search_table_normalized concepts synonyms e :
  In e (_create_search_table sql_lower concepts synonyms) ->
  tight (search_text_normalized e) = true
  /\ forall c, In c (search_text_normalized e) ->
       existsb (N.eqb c) translate_from = false.
Proof.
  intros H. rewrite (_create_search_table_text _ _ _ H).
  apply sql_normalize_shape.
Qed.


Section WithPlatform.

Variable P : Platform.

(** *** Which matches come from which tier *)

Lemma merge_match_types fz sem kc :
  In kc (merge fz sem) ->
  match_type (snd kc) = Models.FUZZY_NAME
  \/ match_type (snd kc) = Models.FUZZY_SYNONYM
  \/ match_type (snd kc) = Models.SEMANTIC.
Proof.
  unfold merge. revert kc.
  apply (MergeFacts.fold_left_invariant add_semantic
           (fun d => forall kc, In kc d ->
              match_type (snd kc) = Models.FUZZY_NAME
              \/ match_type (snd kc) = Models.FUZZY_SYNONYM
              \/ match_type (snd kc) = Models.SEMANTIC)).
  - intros d r Hr Hd kc Hkc. unfold add_semantic in Hkc.
    destruct (dict_lookup d (concept_id (data (concept r)))) as [c |] eqn:E;
      apply MergeFacts.dict_set_In in Hkc; destruct Hkc as [-> | Hkc];
      auto; cbn [snd match_type].
    apply MergeFacts.dict_lookup_In in E. exact (Hd _ E).
  - apply (MergeFacts.fold_left_invariant
             (fun d r => dict_set d (concept_id (data (concept r)))
                           (fuzzy_candidate r))
             (fun d => forall kc, In kc d ->
                match_type (snd kc) = Models.FUZZY_NAME
                \/ match_type (snd kc) = Models.FUZZY_SYNONYM
                \/ match_type (snd kc) = Models.SEMANTIC)).
    + intros d r Hr Hd kc Hkc. apply MergeFacts.dict_set_In in Hkc.
      destruct Hkc as [-> | Hkc]; auto. cbn [snd]. unfold fuzzy_candidate.
      cbn [match_type].
      destruct (is_name (data_source_type (concept r))); auto.
    + intros kc [].
Qed.

Lemma match_type_tier self q d k r s' m :
  search P self q d k = Some (r, s') ->
  In m (returned_matches r) ->
  match tier P self q d with
  | ExactExit =>
      Models.match_type m = Models.EXACT_NAME
      \/ Models.match_type m = Models.EXACT_SYNONYM
  | FuzzyExit =>
      Models.match_type m = Models.FUZZY_NAME
      \/ Models.match_type m = Models.FUZZY_SYNONYM
  | Fused =>
      Models.match_type m = Models.FUZZY_NAME
      \/ Models.match_type m = Models.FUZZY_SYNONYM
      \/ Models.match_type m = Models.SEMANTIC
  | NoResult => False
  end.
Proof.
  intros H Hm. unfold tier. cbv zeta.
  apply SearchFacts.search_cases in H. cbv zeta in H.
  destruct H as [[best [Hin H]]
                | [[bf [rest [Ex [Ef [Eh H]]]]] | [fz [Ex [Ef [Eh [_ Hr]]]]]]].
  - destruct (_exact_match self _ d); [destruct Hin |].
    exact (SearchFacts.early_exit_match_type _ _ _ _ _ _ _ _ _ _ _ H Hm).
  - rewrite Ex, Ef, Eh.
    exact (SearchFacts.early_exit_match_type _ _ _ _ _ _ _ _ _ _ _ H Hm).
  - rewrite Ex, Ef, Eh. rewrite Hr in Hm.
    apply SearchFacts.rank_and_resolve_matches in Hm.
    destruct Hm as [kc [Hkc ->]]. cbn.
    exact (merge_match_types _ _ kc Hkc).
Qed.

(** X22.  The match type of a returned match tells the tier that
    [search] returned from: exact types come from the exact tier only,
    the fuzzy early exit gives fuzzy types only, and a semantic match
    comes from the fused tier only. *)
Theorem match_type_by_tier self q d k r s' m :
  search P self q d k = Some (r, s') ->
  In m (returned_matches r) ->
  match tier P self q d with
  | ExactExit =>
      Models.match_type m = Models.EXACT_NAME
      \/ Models.match_type m = Models.EXACT_SYNONYM
  | FuzzyExit =>
      Models.match_type m = Models.FUZZY_NAME
      \/ Models.match_type m = Models.FUZZY_SYNONYM
  | Fused =>
      Models.match_type m = Models.FUZZY_NAME
      \/ Models.match_type m = Models.FUZZY_SYNONYM
      \/ Models.match_type m = Models.SEMANTIC
  | NoResult => False
  end.
Proof. exact (match_type_tier self q d k r s' m). Qed.

(** *** Searches on a built table *)

Lemma search_entries self q d k r s' m :
  enable_semantic self = false ->
  search P self q d k = Some (r, s') ->
  In m (returned_matches r) ->
  exists e,
    In e (concept_search (db self))
    /\ Models.concept_id m = concept_id (parent e)
    /\ Models.concept_name m = concept_name (parent e).
Proof.
  intros He H Hm. apply SearchFacts.search_cases in H. cbv zeta in H.
  destruct H as [[best [Hin H]]
                | [[bf [rest [_ [Ef [_ H]]]]] | [fz [_ [Ef [_ [_ Hr]]]]]]].
  - apply SearchFacts.early_exit_spec in H.
    destruct H as [_ [_ [Hc [_ [_ [mt [txt Hb]]]]]]].
    unfold returned_matches in Hm. rewrite Hb, Hc in Hm.
    destruct Hm as [<- | []].
    apply SearchFacts.exact_match_In in Hin.
    destruct Hin as [e [Hin [-> _]]]. exists e. auto.
  - apply SearchFacts.early_exit_spec in H.
    destruct H as [_ [_ [Hc [_ [_ [mt [txt Hb]]]]]]].
    unfold returned_matches in Hm. rewrite Hb, Hc in Hm.
    destruct Hm as [<- | []].
    destruct (SearchFacts._fuzzy_match_In P _ _ _ _ _ bf Ef
                (or_introl eq_refl)) as [[e [Hin [-> _]]] _].
    exists e. auto.
  - rewrite Hr in Hm. apply SearchFacts.rank_and_resolve_matches in Hm.
    destruct Hm as [kc [Hkc ->]].
    rewrite (SearchFacts.semantic_tier_disabled P _ _ _ _ He) in Hkc.
    cbn [fst snd] in Hkc.
    apply MergeFacts.merge_concept in Hkc.
    destruct Hkc as [[r0 [Hr0 Hk]] | [r0 [[] _]]].
    destruct (SearchFacts._fuzzy_match_In P _ _ _ _ _ r0 Ef Hr0)
      as [[e [Hin [Hce _]]] _].
    exists e. unfold resolve_candidate. cbn. rewrite Hk, Hce. auto.
Qed.

(** X23.  On a built search table, a search without the semantic tier
    returns valid concepts only: every returned match is a concept of the
    vocabulary without an [invalid_reason]. *)
Theorem search_returns_valid_concepts synonyms self q d k r s' m :
  search_built sql_lower synonyms (db self) ->
  enable_semantic self = false ->
  search P self q d k = Some (r, s') ->
  In m (returned_matches r) ->
  exists c,
    In c (Database.concept (db self))
    /\ invalid_reason c = None
    /\ Models.concept_id m = concept_id (info c)
    /\ Models.concept_name m = concept_name (info c).
Proof.
  intros Hb He H Hm.
  destruct (search_entries self q d k r s' m He H Hm) as [e [Hin [Hid Hn]]].
  rewrite Hb in Hin.
  unfold _create_search_table in Hin. apply in_map_iff in Hin.
  destruct Hin as [row [<- Hrow]]. cbn [parent] in *.
  apply in_app_iff in Hrow. destruct Hrow as [Hrow | Hrow].
  - unfold name_rows in Hrow. apply in_flat_map in Hrow.
    destruct Hrow as [c [Hc Hrow]].
    destruct (invalid_reason c) eqn:Ei; [destruct Hrow |].
    destruct Hrow as [<- | []]. exists c. auto.
  - unfold synonym_rows in Hrow. apply in_flat_map in Hrow.
    destruct Hrow as [sy [_ Hrow]]. apply in_flat_map in Hrow.
    destruct Hrow as [c [Hc Hrow]].
    destruct (_ && _) eqn:Eb; [| destruct Hrow].
    apply andb_true_iff in Eb. destruct Eb as [_ Eb].
    destruct (invalid_reason c) eqn:Ei; [discriminate |].
    destruct Hrow as [<- | []]. exists c. auto.
Qed.

(** X24.  On a built search table, a query whose normalized form holds an
    underscore never gets an exact match: the stored texts hold none,
    while [normalize_text] keeps the underscore as a word character. *)
Theorem underscore_never_exact synonyms self q d :
  search_built sql_lower synonyms (db self) ->
  In UNDERSCORE (normalize_text (unicode P) q) ->
  tier P self q d <> ExactExit
  /\ forall k r s' m,
       search P self q d k = Some (r, s') ->
       In m (returned_matches r) ->
       Models.match_type m <> Models.EXACT_NAME
       /\ Models.match_type m <> Models.EXACT_SYNONYM.
Proof.
  intros Hb Hu.
  assert (Ex : _exact_match self (normalize_text (unicode P) q) d = []).
  { destruct (_exact_match self _ d) as [|x xs] eqn:E; [reflexivity |].
    assert (Hin : In x (_exact_match self (normalize_text (unicode P) q) d))
      by (rewrite E; left; reflexivity).
    apply SearchFacts.exact_match_In in Hin.
    destruct Hin as [e [Hin [_ [Hn _]]]]. rewrite Hb in Hin.
    rewrite <- Hn, (_create_search_table_text _ _ _ Hin) in Hu.
    apply sql_normalize_shape in Hu. discriminate. }
  assert (Ht : tier P self q d <> ExactExit).
  { unfold tier. cbv zeta. rewrite Ex.
    destruct (_fuzzy_match P self _ _ d) as [fz |]; [| discriminate].
    destruct (high_confidence_fuzzy self fz); discriminate. }
  split; [exact Ht |].
  intros k r s' m H Hm.
  pose proof (match_type_tier self q d k r s' m H Hm) as Hty.
  destruct (tier P self q d); try contradiction;
    split; intros Em; rewrite Em in Hty;
    repeat (destruct Hty as [Hty | Hty]); discriminate.
Qed.

End WithPlatform.

End WithEngine.

(** *** Plain texts: the statement and [normalize_text] agree *)

Lemma below_128 (f : codepoint -> bool) :
  forallb f (map N.of_nat (seq 0 128)) = true ->
  forall c, (c < 128)%N -> f c = true.
Proof.
  intros H c Hc. rewrite forallb_forall in H. apply H.
  apply in_map_iff. exists (N.to_nat c).
  split; [apply N2Nat.id | apply in_seq; lia].
Qed.

Lemma plain_char_below c : plain_char c = true -> (c < 128)%N.
Proof.
  unfold plain_char, ascii_alnum, ascii_digit, ascii_upper, ascii_lower.
  intros H.
  repeat (apply orb_true_iff in H; destruct H as [H | H]);
    try (apply andb_true_iff in H; destruct H as [H1 H2]);
    try (apply N.leb_le in H2; lia).
  - apply N.eqb_eq in H. subst. reflexivity.
  - apply existsb_exists in H1. destruct H1 as [x [Hx Hc]].
    apply N.eqb_eq in Hc. subst x.
    assert (Hall : forallb (fun x => (x <? 128)%N) translate_from = true)
      by (vm_compute; reflexivity).
    rewrite forallb_forall in Hall. apply N.ltb_lt. apply Hall. exact Hx.
Qed.

Lemma plain_char_checks c :
  plain_char c = true ->
  ((ascii_fold c <? 128)%N
   && plain_char (ascii_fold c)
   && plain_char (if existsb (N.eqb (ascii_fold c)) translate_from
                  then SPACE else ascii_fold c)
   && N.eqb
        (if ascii_alnum (ascii_fold c) || (ascii_fold c =? UNDERSCORE)%N
            || (ascii_fold c =? SPACE)%N
         then ascii_fold c else SPACE)
        (if existsb (N.eqb (ascii_fold c)) translate_from
         then SPACE else ascii_fold c))%bool = true.
Proof.
  intros H. pose proof (plain_char_below c H) as Hc.
  pose proof
    (below_128
       (fun c =>
          implb (plain_char c)
            ((ascii_fold c <? 128)%N
             && plain_char (ascii_fold c)
             && plain_char (if existsb (N.eqb (ascii_fold c)) translate_from
                            then SPACE else ascii_fold c)
             && N.eqb
                  (if ascii_alnum (ascii_fold c)
                      || (ascii_fold c =? UNDERSCORE)%N
                      || (ascii_fold c =? SPACE)%N
                   then ascii_fold c else SPACE)
                  (if existsb (N.eqb (ascii_fold c)) translate_from
                   then SPACE else ascii_fold c))%bool)) as Hall.
  specialize (Hall ltac:(vm_compute; reflexivity) c Hc).
  cbv beta in Hall. rewrite H in Hall. exact Hall.
Qed.

Lemma split_aux_ext U1 U2 v :
  Forall (fun c => is_space U1 c = is_space U2 c) v ->
  split_aux U1 v = split_aux U2 v.
Proof.
  induction 1 as [|c v Hc _ IH]; [reflexivity |].
  cbn [split_aux]. rewrite IH, Hc. reflexivity.
Qed.

Section Agreement.

Variable U : UnicodeData.
Variable sql_lower : text -> text.

Hypothesis faithful : ascii_faithful U.
Hypothesis lowering : ascii_lowering sql_lower.

Lemma lower_from_map (g : codepoint -> codepoint) t : forall b,
  Forall (fun c => to_lower_full U c = [g c] /\ c <> CAPITAL_SIGMA) t ->
  lower_from U b t = map g t.
Proof.
  induction t as [|c t IH]; intros b H; [reflexivity |].
  inversion H as [|? ? [Hl Hs] Ht]; subst.
  cbn [lower_from map]. apply N.eqb_neq in Hs.
  rewrite Hs, Hl, IH by exact Ht. reflexivity.
Qed.

Lemma plain_prefix s :
  plain s = true ->
  sub_punctuation U
    (filter (fun c => (combining U c =? 0)%N) (lower U (nfkd U s)))
  = map (fun c => if existsb (N.eqb (ascii_fold c)) translate_from
                  then SPACE else ascii_fold c) s.
Proof.
  intros Hp. unfold plain in Hp. rewrite forallb_forall in Hp.
  assert (Hn : nfkd U s = s).
  { unfold nfkd. rewrite NormalizeFacts.flat_map_decomposition_fixed.
    - apply NormalizeFacts.canonical_order_fixed.
      apply Forall_forall. intros c Hc.
      apply (faithful c (plain_char_below c (Hp c Hc))).
    - apply Forall_forall. intros c Hc.
      apply (faithful c (plain_char_below c (Hp c Hc))). }
  rewrite Hn. unfold lower.
  rewrite (lower_from_map ascii_fold).
  2:{ apply Forall_forall. intros c Hc.
      pose proof (plain_char_below c (Hp c Hc)) as Hlt.
      split; [apply (faithful c Hlt) |].
      intros ->. vm_compute in Hlt. discriminate. }
  rewrite NormalizeFacts.filter_fixed.
  2:{ apply Forall_forall. intros x Hx. apply in_map_iff in Hx.
      destruct Hx as [c [<- Hc]].
      pose proof (plain_char_checks c (Hp c Hc)) as Hk.
      repeat (apply andb_true_iff in Hk; destruct Hk as [Hk ?]).
      apply N.ltb_lt in Hk.
      destruct (faithful (ascii_fold c) Hk) as [_ [Hcomb _]].
      rewrite Hcomb. reflexivity. }
  unfold sub_punctuation. rewrite map_map. apply map_ext_in.
  intros c Hc. pose proof (plain_char_checks c (Hp c Hc)) as Hk.
  repeat (apply andb_true_iff in Hk; destruct Hk as [Hk ?]).
  apply N.ltb_lt in Hk.
  destruct (faithful (ascii_fold c) Hk) as [_ [_ [_ [Ha Hs]]]].
  unfold is_word. rewrite Ha, (Hs ltac:(assumption)).
  apply N.eqb_eq. assumption.
Qed.

Lemma sql_normalize_plain s :
  plain s = true -> sql_normalize sql_lower s = normalize_text U s.
Proof.
  intros Hp. rewrite NormalizeFacts.normalize_text_pipeline.
  unfold pipeline. rewrite (plain_prefix s Hp).
  unfold sql_normalize. rewrite (lowering s Hp), translate_spec, map_map.
  rewrite sql_trim_collapse_spaces. f_equal.
  unfold split. rewrite (split_aux_ext space_only U); [reflexivity |].
  apply Forall_forall. intros x Hx. apply in_map_iff in Hx.
  destruct Hx as [c [<- Hc]].
  unfold plain in Hp. rewrite forallb_forall in Hp.
  pose proof (plain_char_checks c (Hp c Hc)) as Hk.
  repeat (apply andb_true_iff in Hk; destruct Hk as [Hk ?]).
  match goal with
  | Hx : plain_char (if _ then _ else _) = true |- _ =>
      pose proof (plain_char_below _ Hx) as Hlt;
      destruct (faithful _ Hlt) as [_ [_ [_ [_ Hs]]]];
      rewrite (Hs Hx)
  end.
  reflexivity.
Qed.

(** X25.  On a plain text (ASCII letters and digits, spaces, and the
    punctuation of the statement other than the underscore) the
    normalization of the search table and [normalize_text] give the same
    text. *)
Theorem sql_normalize_agrees s :
  plain s = true -> sql_normalize sql_lower s = normalize_text U s.
Proof. exact (sql_normalize_plain s). Qed.

End Agreement.

Section RoundTrip.

Variable P : Platform.
Variable sql_lower : text -> text.

(** X26.  Building the search table and searching are a round trip on
    plain texts: a query with the normalized form of a plain name or
    synonym of the table gets an exact match with confidence 1, and the
    matched entry has the same normalized text. *)
Theorem built_entry_found synonyms self e q d k :
  ascii_faithful (unicode P) ->
  ascii_lowering sql_lower ->
  search_built sql_lower synonyms (db self) ->
  In e (concept_search (db self)) ->
  plain (search_text e) = true ->
  normalize_text (unicode P) q
  = normalize_text (unicode P) (search_text e) ->
  (forall f, d = Some f -> domain_id (parent e) = f) ->
  exists r s' m e',
    search P self q d k = Some (r, s')
    /\ Models.success r = true
    /\ Models.best_match r = Some m
    /\ Models.candidates r = []
    /\ Models.confidence m = 1
    /\ In e' (concept_search (db self))
    /\ Models.concept_id m = concept_id (parent e')
    /\ Models.matched_text m = search_text e'
    /\ search_text_normalized e' = search_text_normalized e.
Proof.
  intros Hf Hl Hb He Hp Hq Hd.
  assert (Hn : search_text_normalized e = normalize_text (unicode P) q).
  { pose proof He as He'. rewrite Hb in He'.
    rewrite (_create_search_table_text _ _ _ _ He'), Hq.
    apply (sql_normalize_plain (unicode P) sql_lower Hf Hl). exact Hp. }
  assert (Hc : domain_clause d e = true).
  { unfold domain_clause. destruct (truthy d); [| reflexivity].
    destruct d as [f |]; [| reflexivity].
    rewrite (Hd f eq_refl). apply NormalizeFacts.text_eqb_refl. }
  pose proof (SearchFacts.exact_match_nonempty self _ d e He Hn Hc)
    as Hne.
  unfold search.
  fold (_exact_match self (normalize_text (unicode P) q) d) in Hne.
  set (nq := normalize_text (unicode P) q) in *. cbv zeta.
  destruct (_exact_match self nq d) as [|x xs] eqn:Ex; [congruence |].
  destruct (SearchFacts._select_best_match_some self (x :: xs) d Hne)
    as [best Hbest].
  rewrite Hbest.
  assert (Hin : In best (_exact_match self nq d))
    by (rewrite Ex; eapply SearchFacts._select_best_match_In; exact Hbest).
  apply SearchFacts.exact_match_In in Hin.
  destruct Hin as [e' [He' [-> [Hn' _]]]].
  unfold early_exit. cbn.
  do 4 eexists. split; [reflexivity |]. cbn.
  repeat (split; [reflexivity |]).
  split; [exact He' |]. repeat (split; [reflexivity |]).
  rewrite Hn, Hn'. reflexivity.
Qed.

End RoundTrip.

End BuildFacts.

(** ** database.py: batches for the embedding model *)

Module BatchesFacts.

Import Database Batches.

Lemma fetch_batches_spec {A} (size : nat) :
  (0 < size)%nat ->
  forall fuel (rows : list A),
    (List.length rows < fuel)%nat ->
    List.concat (fetch_batches fuel size rows) = rows
    /\ Forall (fun b => b <> [] /\ (List.length b <= size)%nat)
         (fetch_batches fuel size rows)
    /\ (forall b, In b (removelast (fetch_batches fuel size rows)) ->
          List.length b = size).
Proof.
  intros Hs. induction fuel as [|fuel IH]; intros rows Hf; [lia |].
  cbn [fetch_batches].
  destruct (firstn size rows) as [|x b] eqn:E.
  - assert (rows = []).
    { destruct rows as [|r rows]; [reflexivity |].
      destruct size; [lia | discriminate]. }
    subst. repeat split; [constructor | intros b []].
  - assert (Hlen : (List.length (skipn size rows) < fuel)%nat).
    { rewrite length_skipn. destruct rows as [|r rows];
        [destruct size; discriminate |]. cbn [List.length] in *. lia. }
    destruct (IH (skipn size rows) Hlen) as [Hc [Hb Hl]].
    split; [| split].
    + cbn [List.concat]. rewrite Hc, <- E. apply firstn_skipn.
    + constructor; [| exact Hb]. split; [discriminate |].
      rewrite <- E, length_firstn. lia.
    + intros b0 Hin.
      destruct (fetch_batches fuel size (skipn size rows)) as [|b1 bs] eqn:Er.
      * destruct Hin.
      * cbn [removelast] in Hin. destruct Hin as [<- | Hin].
        -- rewrite <- E, length_firstn.
           destruct (Nat.le_gt_cases size (List.length rows)); [lia |].
           assert (Hrest : skipn size rows = [])
             by (apply skipn_all2; lia).
           rewrite Hrest in Er.
           destruct fuel; cbn [fetch_batches] in Er;
             [discriminate | rewrite firstn_nil in Er; discriminate].
        -- apply Hl. exact Hin.
Qed.

(** X27.  The batches of [get_all_concepts_for_embedding] lose nothing:
    for a positive batch size, laid end to end they are the rows of the
    statement in order; no batch is empty, none is longer than the batch
    size, and all but the last have exactly that size.  With batch size 0
    the generator yields no batch at all. *)
Theorem get_all_concepts_for_embedding_batches d batch_size domain_filter bs :
  get_all_concepts_for_embedding d batch_size domain_filter = Some bs ->
  ((0 < batch_size)%Z ->
   List.concat bs = embedding_rows d domain_filter
   /\ Forall (fun b => b <> []
                       /\ (Z.of_nat (List.length b) <= batch_size)%Z) bs
   /\ forall b, In b (removelast bs) ->
        Z.of_nat (List.length b) = batch_size)
  /\ (batch_size = 0%Z -> bs = []).
Proof.
  unfold get_all_concepts_for_embedding.
  destruct (batch_size <? 0)%Z eqn:En; [discriminate |].
  destruct (_ && _); [discriminate |].
  intros H. injection H as <-. split.
  - intros Hp.
    destruct (fetch_batches_spec (Z.to_nat batch_size) ltac:(lia)
                (S (List.length (embedding_rows d domain_filter)))
                (embedding_rows d domain_filter) ltac:(lia))
      as [Hc [Hb Hl]].
    split; [exact Hc |]. split.
    + eapply Forall_impl; [| exact Hb]. intros b [Hne Hle].
      split; [exact Hne | lia].
    + intros b Hin. specialize (Hl b Hin). lia.
  - intros ->. reflexivity.
Qed.

End BatchesFacts.

(** ** agent/agents/omop_agent.py *)

Module AgentFacts.

Import Config Database Search Api Agent.

Section WithPlatform.

Variable P : Platform.
Variable database : OMOPDatabase.
Variable round4 : Q -> Q.

Lemma matches_returned r :
  match Models.best_match r with
  | Some m => [match_dict round4 m]
  | None => []
  end ++ map (match_dict round4) (Models.candidates r)
  = map (match_dict round4) (returned_matches r).
Proof. unfold returned_matches. destruct (Models.best_match r); reflexivity. Qed.

Lemma term_matches_all self st term domain r st' :
  (0 < top_k self)%Z ->
  lookup P database st term domain (Some (top_k self))
    (Some (enable_semantic self)) None = Some (r, st') ->
  term_matches P database round4 self st term domain
  = Some (map (match_dict round4) (returned_matches r), st')
  /\ (List.length (returned_matches r) <= Z.to_nat (top_k self))%nat.
Proof.
  intros Hk H. unfold term_matches. rewrite H.
  rewrite matches_returned.
  assert (Hlen : (List.length (returned_matches r)
                  <= Z.to_nat (top_k self))%nat).
  { unfold lookup in H. cbn [with_default] in H.
    destruct (search P _ term domain (Some (top_k self)))
      as [[r0 s0] |] eqn:E; [| discriminate].
    injection H as <- _.
    apply (RankingFacts.search_matches_length P _ term domain
             (Some (top_k self)) r0 s0 Hk E). }
  split; [| exact Hlen].
  unfold slice_to. destruct (0 <=? top_k self)%Z eqn:E0; [| lia].
  rewrite firstn_all2; [reflexivity |]. rewrite length_map. exact Hlen.
Qed.

(** X28.  The agent drops no match: with [top_k >= 1] the list that
    [lookup_terms] keeps for a term is the best match followed by all the
    alternates of the lookup, and the cut at [top_k] removes nothing. *)
Theorem term_matches_complete self st term domain r st' :
  (0 < top_k self)%Z ->
  lookup P database st term domain (Some (top_k self))
    (Some (enable_semantic self)) None = Some (r, st') ->
  term_matches P database round4 self st term domain
  = Some (map (match_dict round4) (returned_matches r), st')
  /\ (List.length (returned_matches r) <= Z.to_nat (top_k self))%nat.
Proof. exact (term_matches_all self st term domain r st'). Qed.

(** *** The dictionary of results *)

Lemma results_set_keys d term ms t :
  In t (map fst (results_set d term ms)) <-> t = term \/ In t (map fst d).
Proof.
  induction d as [|[k v] d IH]; cbn [results_set map fst In].
  - intuition congruence.
  - destruct (text_eqb k term) eqn:E; cbn [map fst In].
    + apply NormalizeFacts.text_eqb_eq in E. subst k. intuition congruence.
    + rewrite IH. tauto.
Qed.

Lemma results_set_NoDup d term ms :
  NoDup (map fst d) -> NoDup (map fst (results_set d term ms)).
Proof.
  induction d as [|[k v] d IH]; cbn [results_set map fst]; intros H.
  - constructor; [intros [] | constructor].
  - inversion H as [|? ? Hk Hd]; subst.
    destruct (text_eqb k term) eqn:E; cbn [map fst].
    + exact H.
    + constructor; [| apply IH; exact Hd].
      intros Hin. apply results_set_keys in Hin.
      destruct Hin as [-> | Hin]; [| contradiction].
      rewrite NormalizeFacts.text_eqb_refl in E. discriminate.
Qed.

Lemma results_set_values (I : list MatchDict -> Prop) d term ms :
  I ms -> Forall (fun kv => I (snd kv)) d ->
  Forall (fun kv => I (snd kv)) (results_set d term ms).
Proof.
  intros Hms. induction 1 as [|[k v] d Hv Hd IH]; cbn [results_set].
  - constructor; [exact Hms | constructor].
  - destruct (text_eqb k term); constructor; auto.
Qed.

Lemma lookup_loop_invariant self : forall terms results st results' st',
  (0 < top_k self)%Z ->
  lookup_loop P database round4 self results st terms = Some (results', st') ->
  NoDup (map fst results) ->
  Forall (fun kv => (List.length (snd kv) <= Z.to_nat (top_k self))%nat)
    results ->
  NoDup (map fst results')
  /\ Forall (fun kv => (List.length (snd kv) <= Z.to_nat (top_k self))%nat)
       results'
  /\ forall t, In t (map fst results')
               <-> In t (map fst results) \/ In t (map fst terms).
Proof.
  induction terms as [|[term domain] terms IH];
    intros results st results' st' Hk H Hn Hf.
  - cbn in H. injection H as <- _. cbn. repeat split; auto; tauto.
  - cbn [lookup_loop] in H.
    destruct (term_matches P database round4 self st term domain)
      as [[ms st1] |] eqn:E; [| discriminate].
    assert (Hms : (List.length ms <= Z.to_nat (top_k self))%nat).
    { unfold term_matches in E.
      destruct (lookup P database st term domain _ _ None)
        as [[r st2] |] eqn:El; [| discriminate].
      destruct (term_matches_all self st term domain r st2 Hk El)
        as [E' Hlen].
      rewrite matches_returned in E. injection E as <- _.
      unfold slice_to. destruct (0 <=? top_k self)%Z eqn:E0; [| lia].
      rewrite length_firstn, length_map. lia. }
    destruct (IH _ _ _ _ Hk H (results_set_NoDup results term ms Hn)
                (results_set_values
                   (fun ms => (List.length ms <= Z.to_nat (top_k self))%nat)
                   results term ms Hms Hf))
      as [Hn' [Hf' Hkeys]].
    split; [exact Hn' |]. split; [exact Hf' |].
    intros t. rewrite Hkeys, results_set_keys. cbn [map fst In].
    intuition congruence.
Qed.

(** X29.  With [top_k >= 1] on an initialized store, the dictionary of
    [lookup_terms] has one entry for every term asked for and for no
    other, and no entry holds more than [top_k] matches. *)
Theorem lookup_terms_entries self st terms results st' self' :
  (0 < top_k self)%Z ->
  Database.concept database <> [] ->
  lookup_terms P database round4 self st terms = Some (results, st', self') ->
  NoDup (map fst results)
  /\ (forall t, In t (map fst results) <-> In t (map fst terms))
  /\ Forall (fun kv => (List.length (snd kv) <= Z.to_nat (top_k self))%nat)
       results.
Proof.
  intros Hk Hdb H. unfold lookup_terms, _ensure_initialized in H.
  assert (Hpos : (0 <? Z.of_nat (List.length (Database.concept database)))%Z
                 = true).
  { destruct (Database.concept database); [congruence |].
    apply Z.ltb_lt. cbn [List.length]. lia. }
  rewrite Hpos in H.
  assert (Hloop : exists a,
             top_k a = top_k self
             /\ lookup_loop P database round4 a [] st terms
                = Some (results, st')).
  { destruct (_initialized self) eqn:Ei.
    - exists self. split; [reflexivity |].
      destruct (lookup_loop P database round4 self [] st terms)
        as [[rs s1] |]; [| discriminate].
      injection H as <- <- _. reflexivity.
    - match type of H with
      | context [lookup_loop _ _ _ ?a _ _ _] => exists a
      end.
      split; [reflexivity |].
      match goal with
      | |- ?l = _ => destruct l as [[rs s1] |]; [| discriminate]
      end.
      injection H as <- <- _. reflexivity. }
  destruct Hloop as [a [Ha Hl]]. rewrite <- Ha in *.
  destruct (lookup_loop_invariant a terms [] st results st' Hk Hl
              ltac:(constructor) ltac:(constructor))
    as [Hn [Hf Hkeys]].
  split; [exact Hn |]. split; [| exact Hf].
  intros t. rewrite Hkeys. cbn. tauto.
Qed.

End WithPlatform.

End AgentFacts.

(** ** normalize.py: abbreviations *)

Module AbbreviationFacts.

Import Normalize Spec Tokens Build Abbreviations.

(** The table of abbreviations, checked entry by entry: no key holds a
    space; every expansion is its words (lowercase ASCII letters and
    digits) joined by single spaces, and none of these words is a key. *)
Lemma abbreviations_checked :
  forallb
    (fun kv =>
       forallb (fun c => negb (c =? SPACE)%N) (fst kv)
       && text_eqb (join [SPACE] (split space_only (snd kv))) (snd kv)
       && forallb
            (fun w =>
               match w with [] => false | _ => true end
               && forallb (fun c => ascii_lower c || ascii_digit c) w
               && match dict_get abbreviations w with
                  | None => true
                  | Some _ => false
                  end)
            (split space_only (snd kv)))
    abbreviations = true.
Proof. vm_compute. reflexivity. Qed.

Lemma dict_get_Some_In {V} (d : list (text * V)) k v :
  dict_get d k = Some v -> In (k, v) d.
Proof.
  induction d as [|[k0 v0] d IH]; cbn [dict_get]; [discriminate |].
  destruct (text_eqb k0 k) eqn:E.
  - intros H. injection H as ->. apply NormalizeFacts.text_eqb_eq in E.
    subst. left. reflexivity.
  - intros H. right. apply IH. exact H.
Qed.

Lemma join_app ws1 ws2 :
  ws1 <> [] -> ws2 <> [] ->
  join [SPACE] (ws1 ++ ws2) = join [SPACE] ws1 ++ SPACE :: join [SPACE] ws2.
Proof.
  intros H1 H2. induction ws1 as [|w ws1 IH]; [congruence |].
  destruct ws1 as [|w' ws1'].
  - destruct ws2 as [|w2 ws2']; [congruence |]. reflexivity.
  - change (join [SPACE] ((w :: w' :: ws1') ++ ws2))
      with (w ++ SPACE :: join [SPACE] ((w' :: ws1') ++ ws2)).
    rewrite IH by discriminate.
    change (join [SPACE] (w :: w' :: ws1'))
      with (w ++ SPACE :: join [SPACE] (w' :: ws1')).
    rewrite <- app_assoc. reflexivity.
Qed.

Lemma join_concat wss :
  Forall (fun ws => ws <> []) wss ->
  join [SPACE] (map (join [SPACE]) wss) = join [SPACE] (List.concat wss).
Proof.
  induction 1 as [|ws wss Hws Hwss IH]; [reflexivity |].
  destruct wss as [|ws' wss'].
  - cbn. rewrite app_nil_r. reflexivity.
  - change (join [SPACE] (map (join [SPACE]) (ws :: ws' :: wss')))
      with (join [SPACE] ws
            ++ SPACE :: join [SPACE] (map (join [SPACE]) (ws' :: wss'))).
    rewrite IH.
    change (List.concat (ws :: ws' :: wss'))
      with (ws ++ List.concat (ws' :: wss')).
    rewrite join_app; [reflexivity | exact Hws |].
    inversion Hwss as [|? ? Hne _]; subst.
    destruct ws'; [congruence | discriminate].
Qed.

Section WithUnicode.

Variable U : UnicodeData.

Hypothesis tables : tables_closed U.
Hypothesis faithful : ascii_faithful U.

Lemma lowercase_kept c :
  ascii_lower c || ascii_digit c = true ->
  kept U c /\ is_space U c = false.
Proof.
  intros H.
  assert (Hp : plain_char c = true).
  { unfold plain_char, ascii_alnum.
    apply orb_true_iff in H. destruct H as [H | H]; rewrite H;
      rewrite ?orb_true_r; reflexivity. }
  assert (Hu : ascii_upper c = false).
  { unfold ascii_lower, ascii_digit, ascii_upper in *.
    apply orb_true_iff in H.
    destruct H as [H | H]; apply andb_true_iff in H; destruct H as [H1 H2];
      apply N.leb_le in H1; apply N.leb_le in H2;
      apply andb_false_iff; [right | left]; apply N.leb_gt; lia. }
  pose proof (BuildFacts.plain_char_below c Hp) as Hlt.
  destruct (faithful c Hlt) as [Hd [Hc [Hl [Ha Hs]]]].
  assert (Hsp : is_space U c = false).
  { rewrite (Hs Hp). apply N.eqb_neq. intros ->.
    vm_compute in H. discriminate. }
  split; [| exact Hsp]. split.
  - unfold stable. unfold ascii_fold in Hl. rewrite Hu in Hl.
    repeat split; try assumption.
    intros ->. vm_compute in Hlt. discriminate.
  - unfold is_word. rewrite Ha. unfold ascii_alnum.
    apply orb_true_iff in H. destruct H as [H | H]; rewrite H;
      rewrite ?orb_true_r; reflexivity.
Qed.

Lemma expansion_words k v :
  In (k, v) abbreviations ->
  v = join [SPACE] (split space_only v)
  /\ split space_only v <> []
  /\ Forall (settled_word U) (split space_only v)
  /\ ~ In SPACE k.
Proof.
  intros Hin. pose proof abbreviations_checked as Hall.
  rewrite forallb_forall in Hall. specialize (Hall (k, v) Hin).
  cbn [fst snd] in Hall.
  apply andb_true_iff in Hall. destruct Hall as [Hall Hws].
  apply andb_true_iff in Hall. destruct Hall as [Hk Hj].
  apply NormalizeFacts.text_eqb_eq in Hj.
  rewrite forallb_forall in Hws, Hk.
  split; [symmetry; exact Hj |]. split; [| split].
  - intros E. rewrite E in Hj. cbn in Hj. subst v.
    pose proof abbreviations_checked as Hall.
    assert (Hv : forallb (fun kv => match snd kv with [] => false | _ => true end)
                   abbreviations = true) by (vm_compute; reflexivity).
    rewrite forallb_forall in Hv. specialize (Hv (k, []) Hin).
    discriminate.
  - apply Forall_forall. intros w Hw. specialize (Hws w Hw).
    apply andb_true_iff in Hws. destruct Hws as [Hws Hkey].
    apply andb_true_iff in Hws. destruct Hws as [Hne Hlow].
    rewrite forallb_forall in Hlow.
    split; [split |].
    + destruct w; [discriminate | discriminate].
    + apply Forall_forall. intros c Hc. apply lowercase_kept.
      apply Hlow. exact Hc.
    + destruct (dict_get abbreviations w); [discriminate | reflexivity].
  - intros Hsp. specialize (Hk SPACE Hsp). discriminate.
Qed.

Lemma expand_token_words token :
  expand_token token = join [SPACE] (words_of token)
  /\ words_of token <> [].
Proof.
  unfold expand_token, words_of.
  destruct (dict_get abbreviations token) as [v |] eqn:E; cbn [with_default].
  - apply dict_get_Some_In in E.
    destruct (expansion_words token v E) as [Hj [Hne _]]. auto.
  - split; [reflexivity | discriminate].
Qed.

Lemma words_of_settled token :
  (token <> [] /\ Forall (fun c => kept U c /\ is_space U c = false) token) ->
  Forall (settled_word U) (words_of token).
Proof.
  intros Ht. unfold words_of.
  destruct (dict_get abbreviations token) as [v |] eqn:E.
  - apply dict_get_Some_In in E.
    destruct (expansion_words token v E) as [_ [_ [Hw _]]]. exact Hw.
  - constructor; [| constructor]. split; assumption.
Qed.

Lemma tokens_kept t :
  Forall (fun w => w <> [] /\
            Forall (fun c => kept U c /\ is_space U c = false) w)
    (tokenize U (normalize_text U t)).
Proof.
  rewrite (ShapeFacts.tokenize_normalize_text U (space_is_space tables)).
  apply (NormalizeFacts.pipeline_words U tables).
Qed.

(** What [expand_abbreviations] returns: words that the pipeline keeps,
    none of them an abbreviation, joined by single spaces. *)
Lemma expand_abbreviations_words t :
  exists ws,
    expand_abbreviations U t = join [SPACE] ws /\ Forall (settled_word U) ws.
Proof.
  unfold expand_abbreviations. cbv zeta.
  destruct (dict_get abbreviations (normalize_text U t)) as [v |] eqn:E.
  - apply dict_get_Some_In in E.
    destruct (expansion_words _ v E) as [Hj [_ [Hw _]]].
    exists (split space_only v). split; [exact Hj | exact Hw].
  - exists (List.concat (map words_of (tokenize U (normalize_text U t)))).
    split.
    + rewrite <- join_concat.
      * rewrite map_map. f_equal. apply map_ext.
        intros token. apply expand_token_words.
      * apply Forall_forall. intros ws Hws. apply in_map_iff in Hws.
        destruct Hws as [token [<- _]]. apply expand_token_words.
    + apply Forall_forall. intros w Hw. apply in_concat in Hw.
      destruct Hw as [ws [Hws Hw]]. apply in_map_iff in Hws.
      destruct Hws as [token [<- Htok]].
      pose proof (tokens_kept t) as Hk. rewrite Forall_forall in Hk.
      pose proof (words_of_settled token (Hk token Htok)) as Hs.
      rewrite Forall_forall in Hs. apply Hs. exact Hw.
Qed.

Lemma settled_join ws :
  Forall (settled_word U) ws ->
  normalize_text U (join [SPACE] ws) = join [SPACE] ws
  /\ tokenize U (join [SPACE] ws) = ws
  /\ dict_get abbreviations (join [SPACE] ws) = None.
Proof.
  intros H.
  assert (Hk : Forall (fun w => w <> [] /\
                  Forall (fun c => kept U c /\ is_space U c = false) w) ws).
  { eapply Forall_impl; [| exact H]. intros w [Hw _]. exact Hw. }
  split; [| split].
  - rewrite NormalizeFacts.normalize_text_pipeline.
    apply (NormalizeFacts.pipeline_join U tables). exact Hk.
  - unfold tokenize. apply NormalizeFacts.split_join.
    + apply (space_is_space tables).
    + eapply Forall_impl; [| exact Hk]. intros w [Hne Hw].
      split; [exact Hne |]. eapply Forall_impl; [| exact Hw].
      intros c [_ Hc]. exact Hc.
  - destruct ws as [|w [|w' ws']].
    + vm_compute. reflexivity.
    + inversion H as [|? ? [_ Hkey] _]; subst. exact Hkey.
    + destruct (dict_get abbreviations (join [SPACE] (w :: w' :: ws')))
        as [v |] eqn:E; [| reflexivity].
      apply dict_get_Some_In in E.
      destruct (expansion_words _ v E) as [_ [_ [_ Hsp]]].
      exfalso. apply Hsp.
      change (join [SPACE] (w :: w' :: ws'))
        with (w ++ SPACE :: join [SPACE] (w' :: ws')).
      apply in_or_app. right. left. reflexivity.
Qed.

(** X30.  [expand_abbreviations] returns a normalized text without
    abbreviations: normalizing it changes nothing, and expanding it again
    changes nothing. *)
Theorem expand_abbreviations_idempotent t :
  normalize_text U (expand_abbreviations U t) = expand_abbreviations U t
  /\ expand_abbreviations U (expand_abbreviations U t)
     = expand_abbreviations U t.
Proof.
  destruct (expand_abbreviations_words t) as [ws [E Hws]].
  destruct (settled_join ws Hws) as [Hn [Ht Hk]].
  rewrite E. split; [exact Hn |].
  unfold expand_abbreviations at 1. cbv zeta. rewrite Hn, Hk, Ht.
  f_equal. rewrite <- (map_id ws) at 2. apply map_ext_in.
  intros w Hw. rewrite Forall_forall in Hws.
  destruct (Hws w Hw) as [_ Hkey]. unfold expand_token. rewrite Hkey.
  reflexivity.
Qed.

End WithUnicode.

End AbbreviationFacts.

(** * Instances of the further properties *)

Lemma ascii_unicode_faithful : Build.ascii_faithful ascii_unicode.
Proof.
  intros c Hc. repeat split.
  - unfold Build.ascii_fold. cbn. destruct (ascii_upper c); reflexivity.
  - intros Hp.
    pose proof
      (BuildFacts.below_128
         (fun c => implb (Build.plain_char c)
                     (Bool.eqb (is_space ascii_unicode c) (c =? SPACE)%N)))
      as Hall.
    specialize (Hall ltac:(vm_compute; reflexivity) c Hc).
    cbv beta in Hall. rewrite Hp in Hall. apply Bool.eqb_prop. exact Hall.
Qed.

Lemma ascii_sql_lower_lowering : Build.ascii_lowering Build.ascii_sql_lower.
Proof. intros s _. reflexivity. Qed.

Lemma built_store_built :
  Build.search_built Build.ascii_sql_lower BuiltExamples.synonyms
    BuiltExamples.store.
Proof. reflexivity. Qed.

Lemma join_tokenize_normalize_text_witness :
  Normalize.join [SPACE]
    (Normalize.tokenize ascii_unicode
       (Normalize.normalize_text ascii_unicode
          (str "  Type-2  Diabetes (Mellitus) ")))
  = Normalize.normalize_text ascii_unicode
      (str "  Type-2  Diabetes (Mellitus) ").
Proof.
  apply (ShapeFacts.join_tokenize_normalize_text ascii_unicode).
  reflexivity.
Defined.

Lemma tokenize_normalize_text_tokens_witness :
  Forall (Shape.token ascii_unicode)
    (Normalize.tokenize ascii_unicode
       (Normalize.normalize_text ascii_unicode
          (str "  Type-2  Diabetes (Mellitus) "))).
Proof.
  apply (ShapeFacts.tokenize_normalize_text_tokens ascii_unicode).
  reflexivity.
Defined.

Lemma calculate_token_overlap_self_witness :
  Tokens.calculate_token_overlap ascii_unicode
    (str "Heart attack") (str "Heart attack") == 1
  /\ Tokens.calculate_token_overlap ascii_unicode
       (str "?!") (str "Heart attack") = 0.
Proof.
  destruct (TokenFacts.calculate_token_overlap_self ascii_unicode
              (str "Heart attack")) as [H1 _].
  destruct (TokenFacts.calculate_token_overlap_self ascii_unicode
              (str "?!")) as [_ H2].
  split.
  - apply H1. vm_compute. discriminate.
  - apply (H2 ltac:(vm_compute; reflexivity) (str "Heart attack")).
Defined.

Lemma best_match_most_confident_witness :
  exists r s' best m,
    Search.search Examples.with_index (Examples.searcher true)
      (str "stemi") None None = Some (r, s')
    /\ Models.best_match r = Some best
    /\ In m (Models.candidates r)
    /\ Models.confidence m <= Models.confidence best.
Proof.
  eexists. eexists. eexists. eexists.
  split; [vm_compute; reflexivity |].
  split; [vm_compute; reflexivity |].
  split; [vm_compute; left; reflexivity |].
  eapply (RankingFacts.best_match_most_confident Examples.with_index
            (Examples.searcher true) (str "stemi") None None).
  - vm_compute; reflexivity.
  - vm_compute; reflexivity.
  - vm_compute; left; reflexivity.
Defined.

Lemma returned_concepts_distinct_witness :
  exists r s',
    Search.search Examples.with_index (Examples.searcher true)
      (str "stemi") None None = Some (r, s')
    /\ NoDup (map Models.concept_id (returned_matches r)).
Proof.
  eexists. eexists. split; [vm_compute; reflexivity |].
  eapply (RankingFacts.returned_concepts_distinct Examples.with_index
            (Examples.searcher true) (str "stemi") None None).
  vm_compute; reflexivity.
Defined.

Lemma returned_matches_bound_witness :
  exists r s',
    Search.search Examples.with_index (Examples.searcher true)
      (str "stemi") None (Some 3%Z) = Some (r, s')
    /\ (List.length (returned_matches r) <= 3)%nat.
Proof.
  eexists. eexists. split; [vm_compute; reflexivity |].
  eapply (RankingFacts.returned_matches_bound Examples.with_index
            (Examples.searcher true) (str "stemi") None (Some 3%Z)).
  - reflexivity.
  - vm_compute; reflexivity.
Defined.

Lemma top_k_zero_no_matches_witness :
  exists r s',
    Search.search BuiltExamples.unsure (BuiltExamples.searcher false)
      (str "myocardial") None (Some 0%Z) = Some (r, s')
    /\ Models.success r = false
    /\ Models.best_match r = None
    /\ Models.candidates r = []
    /\ exists w, Models.warnings r = w ++ [str "No matches found"].
Proof.
  eexists. eexists. split; [vm_compute; reflexivity |].
  eapply (RankingFacts.top_k_zero_no_matches BuiltExamples.unsure
            (BuiltExamples.searcher false) (str "myocardial") None).
  - vm_compute; reflexivity.
  - vm_compute; reflexivity.
  - vm_compute; reflexivity.
  - vm_compute; reflexivity.
Defined.

Lemma get_maps_to_complete_witness :
  NoDup (Database.maps_to_lookup Examples.store)
  /\ (Database.get_maps_to Examples.store 2 <> None
      <-> Protocol.valid_edge Examples.store 2).
Proof.
  apply (ProtocolFacts.get_maps_to_complete Examples.store 2).
  reflexivity.
Defined.

Lemma _create_match_status_witness :
  Models.resolution_status Examples.acute_mi_match
  = Models.MAPPED_TO_STANDARD
  <-> Database.standard_concept
        (Database.data
           (Spec.exact_row
              (Examples.name_entry Examples.acute_mi
                 "acute myocardial infarction")))
      <> Some (str "S")
      /\ Protocol.valid_edge Examples.store 2.
Proof.
  apply (ProtocolFacts._create_match_status (Examples.searcher true)
           (Spec.exact_row
              (Examples.name_entry Examples.acute_mi
                 "acute myocardial infarction"))
           1 Models.EXACT_NAME (str "Acute myocardial infarction")).
  reflexivity.
Defined.

Lemma _select_best_match_maximal_witness :
  exists b,
    Search._select_best_match (Examples.searcher true)
      [ Spec.exact_row (Examples.name_entry Examples.acute_mi "mi");
        Spec.exact_row (Examples.entry Examples.mi "MI" Database.synonym "mi") ]
      None = Some b
    /\ In b
         [ Spec.exact_row (Examples.name_entry Examples.acute_mi "mi");
           Spec.exact_row
             (Examples.entry Examples.mi "MI" Database.synonym "mi") ]
    /\ forall m,
         In m
           [ Spec.exact_row (Examples.name_entry Examples.acute_mi "mi");
             Spec.exact_row
               (Examples.entry Examples.mi "MI" Database.synonym "mi") ] ->
         Ranking.exact_weight (Examples.searcher true) m
         <= Ranking.exact_weight (Examples.searcher true) b.
Proof.
  eexists. split; [vm_compute; reflexivity |].
  eapply (ProtocolFacts._select_best_match_maximal (Examples.searcher true)
            _ None).
  vm_compute; reflexivity.
Defined.

Lemma _fuzzy_match_bounds_witness :
  exists fz,
    Search._fuzzy_match BuiltExamples.unsure (BuiltExamples.searcher false)
      (str "myocardial") [str "myocardial"] None = Some fz
    /\ (List.length fz <= 50)%nat
    /\ Ranking.descending Search.score fz.
Proof.
  eexists. split; [vm_compute; reflexivity |].
  eapply (ProtocolFacts._fuzzy_match_bounds BuiltExamples.unsure
            (BuiltExamples.searcher false) (str "myocardial")
            [str "myocardial"] None).
  vm_compute; reflexivity.
Defined.

Lemma fuzzy_exit_monotone_witness :
  exists r s',
    Search.search BuiltExamples.sure
      (Protocol.with_fuzzy_high 95 (BuiltExamples.searcher false))
      (str "myocardial") None None = Some (r, s')
    /\ Protocol.tier BuiltExamples.sure
         (Protocol.with_fuzzy_high 90 (BuiltExamples.searcher false))
         (str "myocardial") None = Protocol.FuzzyExit
    /\ Search.search BuiltExamples.sure
         (Protocol.with_fuzzy_high 90 (BuiltExamples.searcher false))
         (str "myocardial") None None
       = Some (r, Protocol.with_fuzzy_high 90 (BuiltExamples.searcher false)).
Proof.
  eexists. eexists. split; [vm_compute; reflexivity |].
  eapply (ProtocolFacts.fuzzy_exit_monotone BuiltExamples.sure 90 95
            (BuiltExamples.searcher false) (str "myocardial") None None).
  - unfold Qle; simpl; lia.
  - vm_compute; reflexivity.
  - vm_compute; reflexivity.
Defined.

Lemma search_settles_witness :
  exists r s',
    Search.search Examples.with_index (Examples.searcher true)
      (str "stemi") None None = Some (r, s')
    /\ Protocol.tier Examples.with_index (Examples.searcher true)
         (str "stemi") None = Protocol.Fused
    /\ Protocol.settled s'.
Proof.
  eexists. eexists. split; [vm_compute; reflexivity |].
  split; [vm_compute; reflexivity |].
  eapply (ProtocolFacts.search_settles Examples.with_index
            (Examples.searcher true) (str "stemi") None None).
  - vm_compute; reflexivity.
  - vm_compute; reflexivity.
Defined.

Lemma search_returns_witness :
  exists r s',
    Search.search Examples.with_index (Examples.searcher true)
      (str "Crohn's disease") (Some (str "Condition")) None = Some (r, s').
Proof.
  apply (BatchFacts.search_returns Examples.with_index
           (Examples.searcher true) (str "Crohn's disease")
           (Some (str "Condition")) None).
  - reflexivity.
  - reflexivity.
  - vm_compute. split; discriminate.
  - intros f Hf. injection Hf as <-. vm_compute. reflexivity.
Defined.

Lemma batch_lookup_summary_witness :
  exists b st',
    Api.batch_lookup Examples.with_index Examples.store None
      (Api.TextFile [str "  Heart attack  "; str "   "; str "stemi"])
      None None None None None
    = Some (b, st')
    /\ map Models.query (Models.results b)
       = [str "Heart attack"; str "stemi"]
    /\ Models.total_queries b = 2%Z
    /\ 0 <= Protocol.success_rate b /\ Protocol.success_rate b <= 1.
Proof.
  eexists. eexists. split; [vm_compute; reflexivity |].
  edestruct (BatchFacts.batch_lookup_summary Examples.with_index
               Examples.store None
               [str "  Heart attack  "; str "   "; str "stemi"]
               None None None None None) as [Hq [_ [Ht [_ Hr]]]].
  - vm_compute; reflexivity.
  - split; [exact Hq |]. split; [exact Ht | exact Hr].
Defined.

Lemma process_queries_independent_witness :
  exists rs s',
    Api.process_queries Examples.with_index (Examples.searcher true)
      [str "stemi"; str "Heart attack"] None = Some (rs, s')
    /\ Forall2
         (fun q r =>
            option_map fst
              (Search.search Examples.with_index (Examples.searcher true)
                 q None None) = Some r)
         [str "stemi"; str "Heart attack"] rs.
Proof.
  eexists. eexists. split; [vm_compute; reflexivity |].
  eapply (BatchFacts.process_queries_independent Examples.with_index
            [str "stemi"; str "Heart attack"] (Examples.searcher true) None).
  - right. discriminate.
  - vm_compute; reflexivity.
Defined.

Lemma _create_search_table_normalized_witness :
  In BuiltExamples.heart_attack (Database.concept_search BuiltExamples.store)
  /\ Build.tight (Database.search_text_normalized BuiltExamples.heart_attack)
     = true
  /\ forall c,
       In c (Database.search_text_normalized BuiltExamples.heart_attack) ->
       existsb (N.eqb c) Build.translate_from = false.
Proof.
  assert (H : In BuiltExamples.heart_attack
                (Build._create_search_table Build.ascii_sql_lower
                   BuiltExamples.concepts BuiltExamples.synonyms)).
  { vm_compute. do 9 right. left. reflexivity. }
  split; [exact H |].
  apply (BuildFacts._create_search_table_normalized Build.ascii_sql_lower
           BuiltExamples.concepts BuiltExamples.synonyms
           BuiltExamples.heart_attack H).
Defined.

Lemma match_type_by_tier_witness :
  exists r s' m,
    Search.search Examples.with_index (Examples.searcher true)
      (str "stemi") None None = Some (r, s')
    /\ In m (returned_matches r)
    /\ Protocol.tier Examples.with_index (Examples.searcher true)
         (str "stemi") None = Protocol.Fused
    /\ (Models.match_type m = Models.FUZZY_NAME
        \/ Models.match_type m = Models.FUZZY_SYNONYM
        \/ Models.match_type m = Models.SEMANTIC).
Proof.
  eexists. eexists. eexists.
  split; [vm_compute; reflexivity |].
  split; [vm_compute; left; reflexivity |].
  split; [vm_compute; reflexivity |].
  eapply (BuildFacts.match_type_by_tier Examples.with_index
            (Examples.searcher true) (str "stemi") None None).
  - vm_compute; reflexivity.
  - vm_compute; left; reflexivity.
Defined.

Lemma search_returns_valid_concepts_witness :
  exists r s' m,
    Search.search BuiltExamples.unsure (BuiltExamples.searcher false)
      (str "infarct") None None = Some (r, s')
    /\ In m (returned_matches r)
    /\ exists c,
         In c BuiltExamples.concepts
         /\ Database.invalid_reason c = None
         /\ Models.concept_id m = Database.concept_id (Database.info c)
         /\ Models.concept_name m = Database.concept_name (Database.info c).
Proof.
  eexists. eexists. eexists.
  split; [vm_compute; reflexivity |].
  split; [vm_compute; left; reflexivity |].
  eapply (BuildFacts.search_returns_valid_concepts Build.ascii_sql_lower
            BuiltExamples.unsure BuiltExamples.synonyms
            (BuiltExamples.searcher false) (str "infarct") None None).
  - reflexivity.
  - reflexivity.
  - vm_compute; reflexivity.
  - vm_compute; left; reflexivity.
Defined.

Lemma underscore_never_exact_witness :
  In UNDERSCORE (Normalize.normalize_text ascii_unicode (str "Acute_MI"))
  /\ Protocol.tier BuiltExamples.unsure (BuiltExamples.searcher false)
       (str "Acute_MI") None <> Protocol.ExactExit
  /\ forall k r s' m,
       Search.search BuiltExamples.unsure (BuiltExamples.searcher false)
         (str "Acute_MI") None k = Some (r, s') ->
       In m (returned_matches r) ->
       Models.match_type m <> Models.EXACT_NAME
       /\ Models.match_type m <> Models.EXACT_SYNONYM.
Proof.
  assert (H : In UNDERSCORE
                (Normalize.normalize_text ascii_unicode (str "Acute_MI"))).
  { vm_compute. do 5 right. left. reflexivity. }
  split; [exact H |].
  apply (BuildFacts.underscore_never_exact Build.ascii_sql_lower
           BuiltExamples.unsure BuiltExamples.synonyms
           (BuiltExamples.searcher false) (str "Acute_MI") None).
  - reflexivity.
  - exact H.
Defined.

Lemma sql_normalize_agrees_witness :
  Build.plain (str "Acute MI (STEMI)") = true
  /\ Build.sql_normalize Build.ascii_sql_lower (str "Acute MI (STEMI)")
     = Normalize.normalize_text ascii_unicode (str "Acute MI (STEMI)").
Proof.
  split; [reflexivity |].
  apply (BuildFacts.sql_normalize_agrees ascii_unicode Build.ascii_sql_lower
           ascii_unicode_faithful ascii_sql_lower_lowering).
  reflexivity.
Defined.

Lemma built_entry_found_witness :
  exists r s' m e',
    Search.search BuiltExamples.unsure (BuiltExamples.searcher false)
      (str "HEART-ATTACK!") (Some (str "Condition")) None = Some (r, s')
    /\ Models.success r = true
    /\ Models.best_match r = Some m
    /\ Models.candidates r = []
    /\ Models.confidence m = 1
    /\ In e' (Database.concept_search BuiltExamples.store)
    /\ Models.concept_id m = Database.concept_id (Database.parent e')
    /\ Models.matched_text m = Database.search_text e'
    /\ Database.search_text_normalized e'
       = Database.search_text_normalized BuiltExamples.heart_attack.
Proof.
  apply (BuildFacts.built_entry_found BuiltExamples.unsure
           Build.ascii_sql_lower BuiltExamples.synonyms
           (BuiltExamples.searcher false) BuiltExamples.heart_attack
           (str "HEART-ATTACK!") (Some (str "Condition")) None).
  - exact ascii_unicode_faithful.
  - exact ascii_sql_lower_lowering.
  - reflexivity.
  - vm_compute. do 9 right. left. reflexivity.
  - reflexivity.
  - vm_compute; reflexivity.
  - intros f Hf. injection Hf as <-. reflexivity.
Defined.

Lemma get_all_concepts_for_embedding_batches_witness :
  exists bs,
    Batches.get_all_concepts_for_embedding Examples.store 4 None = Some bs
    /\ List.concat bs = Batches.embedding_rows Examples.store None
    /\ Forall (fun b => b <> [] /\ (Z.of_nat (List.length b) <= 4)%Z) bs
    /\ forall b, In b (removelast bs) -> Z.of_nat (List.length b) = 4%Z.
Proof.
  eexists. split; [vm_compute; reflexivity |].
  eapply (BatchesFacts.get_all_concepts_for_embedding_batches
            Examples.store 4 None).
  - vm_compute; reflexivity.
  - reflexivity.
Defined.

Lemma term_matches_complete_witness :
  exists r st',
    Api.lookup Examples.with_index Examples.store None (str "stemi") None
      (Some 10%Z) (Some true) None = Some (r, st')
    /\ Agent.term_matches Examples.with_index Examples.store (fun x => x)
         (Agent.new_agent None (Some true)) None (str "stemi") None
       = Some (map (Agent.match_dict (fun x => x)) (returned_matches r), st')
    /\ (List.length (returned_matches r) <= 10)%nat.
Proof.
  eexists. eexists. split; [vm_compute; reflexivity |].
  eapply (AgentFacts.term_matches_complete Examples.with_index
            Examples.store (fun x => x) (Agent.new_agent None (Some true))
            None (str "stemi") None).
  - reflexivity.
  - vm_compute; reflexivity.
Defined.

Lemma lookup_terms_entries_witness :
  exists results st' self',
    Agent.lookup_terms Examples.with_index Examples.store (fun x => x)
      (Agent.new_agent (Some 3%Z) None) None
      [ (str "stemi", None); (str "Heart attack", Some (str "Condition"));
        (str "stemi", Some (str "Condition")) ]
    = Some (results, st', self')
    /\ NoDup (map fst results)
    /\ (forall t,
          In t (map fst results)
          <-> In t [str "stemi"; str "Heart attack"; str "stemi"])
    /\ Forall (fun kv => (List.length (snd kv) <= 3)%nat) results.
Proof.
  eexists. eexists. eexists. split; [vm_compute; reflexivity |].
  eapply (AgentFacts.lookup_terms_entries Examples.with_index
            Examples.store (fun x => x) (Agent.new_agent (Some 3%Z) None)
            None
            [ (str "stemi", None);
              (str "Heart attack", Some (str "Condition"));
              (str "stemi", Some (str "Condition")) ]).
  - reflexivity.
  - discriminate.
  - vm_compute; reflexivity.
Defined.

Lemma expand_abbreviations_idempotent_witness :
  Tokens.expand_abbreviations ascii_unicode (str "Pt with MI and HTN")
  = str "pt with myocardial infarction and hypertension"
  /\ Normalize.normalize_text ascii_unicode
       (Tokens.expand_abbreviations ascii_unicode (str "Pt with MI and HTN"))
     = Tokens.expand_abbreviations ascii_unicode (str "Pt with MI and HTN")
  /\ Tokens.expand_abbreviations ascii_unicode
       (Tokens.expand_abbreviations ascii_unicode (str "Pt with MI and HTN"))
     = Tokens.expand_abbreviations ascii_unicode (str "Pt with MI and HTN").
Proof.
  split; [vm_compute; reflexivity |].
  apply (AbbreviationFacts.expand_abbreviations_idempotent ascii_unicode
           ascii_tables_closed ascii_unicode_faithful).
Defined.
